(** * Verification of the slide-translation pipeline (backend/services/ppt_service.py)

    A shallow embedding of the translation-and-layout pipeline of
    [ppt_service.py]: JSON response repair, the vision and OCR provider
    adapters with their retry loops, the OCR text clean-up, the renderer,
    the font-fit loop and the per-slide orchestrator with its statistics.

    Conventions of the embedding.
    - A Python [str] is the list of its code points ([N]).
    - Python exceptions are values of type [exn]; a computation that may
      raise returns a [res].
    - The services outside the process (the Anthropic client, the HTTP
      endpoint, tesseract, the offline translator, the progress callback)
      are scripted: every call site reads the answer of the service from
      an explicit argument and appends an [event] to a trace, so that
      "no call occurs" and "exactly one call occurs" are statements about
      the trace.
    - The dictionaries made of an answer hold the decoded values of the
      answer as they are ([json]); the renderer raises where a string
      method or python-pptx refuses a value, and leaves the text box as
      far as it was written.
    - Money and font sizes use exact arithmetic ([Q] and [Z]). *)

From Stdlib Require Import List String Ascii NArith ZArith QArith Bool Arith Lia DecimalString.
Import ListNotations.

Set Implicit Arguments.
Close Scope Q_scope.

(* ===================================================================== *)
(** ** Python strings *)
(* ===================================================================== *)

Module Py.

Local Open Scope N_scope.

Definition char := N.
Definition str := list char.

(** An ASCII literal of the development, as a Python [str]. *)
Definition py (s : string) : str := map N_of_ascii (list_ascii_of_string s).

(** The same, with every apostrophe of the literal standing for a
    double quote (handy for JSON texts). *)
Definition pyq (s : string) : str :=
  map (fun c => if N.eqb c 39 then 34%N else c) (py s).

Definition QUOTE : char := 34%N.
Definition BACKSLASH : char := 92%N.
Definition NL : char := 10%N.
Definition SPACE : char := 32%N.

Definition ch (s : string) : char :=
  match s with
  | String a _ => N_of_ascii a
  | EmptyString => 0%N
  end.

Definition in_range (lo hi c : char) : bool := (N.leb lo c && N.leb c hi)%bool.

Fixpoint str_eqb (a b : str) : bool :=
  match a, b with
  | [], [] => true
  | x :: a', y :: b' => (N.eqb x y && str_eqb a' b')%bool
  | _, _ => false
  end.

(** [c in chars] for a one-character [c]. *)
Definition mem (c : char) (chars : str) : bool := existsb (N.eqb c) chars.

(** [str.isspace()] on one code point (the whitespace set of CPython). *)
Definition isspace (c : char) : bool :=
  (in_range 9 13 c || in_range 28 32 c || N.eqb c 133 || N.eqb c 160
   || N.eqb c 5760 || in_range 8192 8202 c || N.eqb c 8232 || N.eqb c 8233
   || N.eqb c 8239 || N.eqb c 8287 || N.eqb c 12288)%bool.

(** ASCII and Latin-1 letters; cased letters beyond Latin-1 are not in
    the tables of this model and count as uncased. *)
Definition ascii_lower (c : char) : bool := in_range 97 122 c.
Definition ascii_upper (c : char) : bool := in_range 65 90 c.
Definition ascii_alpha (c : char) : bool := (ascii_lower c || ascii_upper c)%bool.
Definition ascii_digit (c : char) : bool := in_range 48 57 c.

Definition islower_c (c : char) : bool :=
  (ascii_lower c || N.eqb c 170 || N.eqb c 181 || N.eqb c 186
   || in_range 223 246 c || in_range 248 255 c)%bool.
Definition isupper_c (c : char) : bool :=
  (ascii_upper c || in_range 192 214 c || in_range 216 222 c)%bool.

(** [s.isupper()]: at least one cased character and no lowercase one. *)
Definition isupper (s : str) : bool :=
  (existsb isupper_c s && negb (existsb islower_c s))%bool.

(** [str.lower()], by the same tables (the source lowers colour names,
    error texts and model names, which it compares with ASCII words). *)
Definition lower_c (c : char) : char :=
  if isupper_c c then (c + 32)%N else c.
Definition lower (s : str) : str := map lower_c s.

(** [s[0].islower()] and friends read the first character; the callers
    only do so on non-empty strings. *)
Definition head_is (p : char -> bool) (s : str) : bool :=
  match s with c :: _ => p c | [] => false end.

Fixpoint dropwhile (p : char -> bool) (s : str) : str :=
  match s with
  | c :: r => if p c then dropwhile p r else s
  | [] => []
  end.

Definition lstrip_by (p : char -> bool) (s : str) : str := dropwhile p s.
Definition rstrip_by (p : char -> bool) (s : str) : str :=
  rev (dropwhile p (rev s)).

Definition lstrip (s : str) : str := lstrip_by isspace s.
Definition rstrip (s : str) : str := rstrip_by isspace s.
Definition strip (s : str) : str := rstrip (lstrip s).

(** [s.rstrip(chars)], [s.lstrip(chars)]. *)
Definition rstrip_chars (chars s : str) : str := rstrip_by (fun c => mem c chars) s.
Definition lstrip_chars (chars s : str) : str := lstrip_by (fun c => mem c chars) s.

Fixpoint startswith (s p : str) : bool :=
  match p, s with
  | [], _ => true
  | x :: p', y :: s' => (N.eqb x y && startswith s' p')%bool
  | _ :: _, [] => false
  end.

Definition endswith (s p : str) : bool := startswith (rev s) (rev p).

(** [s.startswith((p1, p2, ...))]. *)
Definition startswith_any (s : str) (ps : list str) : bool := existsb (startswith s) ps.
Definition endswith_any (s : str) (ps : list str) : bool := existsb (endswith s) ps.

(** [sub in s]. *)
Fixpoint contains (s sub : str) : bool :=
  (startswith s sub ||
   match s with
   | _ :: r => contains r sub
   | [] => false
   end)%bool.

(** [s.find(sub)] counted from the start of [s]; [None] stands for -1. *)
Fixpoint find (s sub : str) : option nat :=
  if startswith s sub then Some 0%nat
  else match s with
       | _ :: r => option_map S (find r sub)
       | [] => None
       end.

(** [sep.join(parts)]. *)
Fixpoint join (sep : str) (parts : list str) : str :=
  match parts with
  | [] => []
  | [p] => p
  | p :: rest => p ++ sep ++ join sep rest
  end.

(** Line boundaries of [str.splitlines()]. *)
Definition is_linebreak (c : char) : bool :=
  (in_range 10 13 c || in_range 28 30 c || N.eqb c 133
   || N.eqb c 8232 || N.eqb c 8233)%bool.

Fixpoint splitlines_from (cur : str) (s : str) : list str :=
  match s with
  | [] => match cur with [] => [] | _ => [rev cur] end
  | c :: r =>
      if N.eqb c 13 then
        match r with
        | d :: r' => if N.eqb d 10 then rev cur :: splitlines_from [] r'
                     else rev cur :: splitlines_from [] r
        | [] => [rev cur]
        end
      else if is_linebreak c then rev cur :: splitlines_from [] r
      else splitlines_from (c :: cur) r
  end.

Definition splitlines (s : str) : list str := splitlines_from [] s.

(** [s.split()]: the maximal runs of non-whitespace characters. *)
Fixpoint split_ws_from (cur : str) (s : str) : list str :=
  match s with
  | [] => match cur with [] => [] | _ => [rev cur] end
  | c :: r =>
      if isspace c then
        match cur with
        | [] => split_ws_from [] r
        | _ => rev cur :: split_ws_from [] r
        end
      else split_ws_from (c :: cur) r
  end.

Definition split_ws (s : str) : list str := split_ws_from [] s.

(** Truthiness of a string. *)
Definition nonempty (s : str) : bool :=
  match s with [] => false | _ => true end.

End Py.

Import Py.

(* ===================================================================== *)
(** ** Regular expressions of the [re] module *)
(* ===================================================================== *)

(** The patterns of the source use character classes, concatenation,
    alternation and repetition only; whether such a pattern matches does
    not depend on the search order of the engine, so matching is defined
    by derivatives. *)
Module Re.

Inductive re : Type :=
| Void : re
| Eps : re
| Cls : (char -> bool) -> re
| Cat : re -> re -> re
| Alt : re -> re -> re
| Star : re -> re.

Fixpoint nullable (r : re) : bool :=
  match r with
  | Void => false
  | Eps => true
  | Cls _ => false
  | Cat a b => nullable a && nullable b
  | Alt a b => nullable a || nullable b
  | Star _ => true
  end.

Definition cat (a b : re) : re :=
  match a, b with
  | Void, _ => Void
  | _, Void => Void
  | Eps, _ => b
  | _, _ => Cat a b
  end.

Definition alt (a b : re) : re :=
  match a, b with
  | Void, _ => b
  | _, Void => a
  | _, _ => Alt a b
  end.

Fixpoint deriv (c : char) (r : re) : re :=
  match r with
  | Void => Void
  | Eps => Void
  | Cls p => if p c then Eps else Void
  | Cat a b =>
      if nullable a then alt (cat (deriv c a) b) (deriv c b)
      else cat (deriv c a) b
  | Alt a b => alt (deriv c a) (deriv c b)
  | Star a => cat (deriv c a) (Star a)
  end.

Definition fullmatch (r : re) (s : str) : bool :=
  nullable (fold_left (fun r c => deriv c r) s r).

(** Pattern syntax. *)
Definition lit (c : char) : re := Cls (N.eqb c).
Definition opt (r : re) : re := Alt Eps r.
Definition plus (r : re) : re := Cat r (Star r).
Definition anychar : re := Cls (fun _ => true).
(** [.] without DOTALL. *)
Definition dot : re := Cls (fun c => negb (N.eqb c NL)).
Fixpoint word (s : str) : re :=
  match s with
  | [] => Eps
  | c :: r => Cat (lit c) (word r)
  end.
(** [\s] and [\d] of a [str] pattern; decimal digits beyond ASCII are
    not in the tables of this model. *)
Definition ws : re := Cls isspace.
Definition digit : re := Cls ascii_digit.
(** [$]: the end of the text or the position before a final newline. *)
Definition eol : re := opt (lit NL).

(** [re.match(r, s)] and [re.search(r, s)] as truth values. *)
Definition re_match (r : re) (s : str) : bool :=
  fullmatch (Cat r (Star anychar)) s.
Definition re_search (r : re) (s : str) : bool :=
  fullmatch (Cat (Star anychar) (Cat r (Star anychar))) s.
(** The same for a pattern that ends in [$]. *)
Definition re_match_eol (r : re) (s : str) : bool :=
  fullmatch (Cat r eol) s.
Definition re_search_eol (r : re) (s : str) : bool :=
  fullmatch (Cat (Star anychar) (Cat r eol)) s.

(** [len(re.findall(cls, s))] and [re.sub(cls, '', s)] for a class. *)
Definition count_cls (p : char -> bool) (s : str) : nat :=
  List.length (filter p s).
Definition remove_cls (p : char -> bool) (s : str) : str :=
  filter (fun c => negb (p c)) s.

End Re.

(* ===================================================================== *)
(** ** Exceptions and results *)
(* ===================================================================== *)

(** The exception classes the source tells apart, each with its message. *)
Inductive exn : Type :=
| JSONDecodeError : exn
| NameError : str -> exn
| TypeError : exn
| AttributeError : exn
| KeyError : exn
| HTTPError : N -> exn
| Timeout : exn
| ConnectionError : exn
| OtherError : str -> exn.

Inductive res (A : Type) : Type :=
| Ok : A -> res A
| Raise : exn -> res A.
Arguments Ok {A} _.
Arguments Raise {A} _.

Definition rbind {A B} (m : res A) (f : A -> res B) : res B :=
  match m with
  | Ok a => f a
  | Raise e => Raise e
  end.

Notation "'let?' x ':=' m 'in' k" := (rbind m (fun x => k))
  (at level 10, x name, m at level 100, k at level 200).

Fixpoint rmap {A B} (f : A -> res B) (l : list A) : res (list B) :=
  match l with
  | [] => Ok []
  | a :: r => let? b := f a in let? bs := rmap f r in Ok (b :: bs)
  end.

(* ===================================================================== *)
(** ** [json.loads] *)
(* ===================================================================== *)

(** The decoder of the standard library, as its documentation and
    grammar describe it: objects keep their members in document order,
    a number keeps its lexeme, and the non-standard constants [NaN],
    [Infinity] and [-Infinity] are accepted as the library does by
    default. *)
Module Json.

Local Open Scope N_scope.

#[warnings="-register-all"]
Inductive json : Type :=
| JNull : json
| JBool : bool -> json
| JNum : str -> json
| JStr : str -> json
| JArr : list json -> json
| JObj : list (str * json) -> json.

(** Outcome of a scanning step: a value and the rest of the text, a
    syntax error, or the recursion budget used up. *)
Inductive scan (A : Type) : Type :=
| Got : A -> str -> scan A
| Bad : scan A
| Deep : scan A.
Arguments Got {A} _ _.
Arguments Bad {A}.
Arguments Deep {A}.

Definition is_json_ws (c : char) : bool :=
  N.eqb c 32 || N.eqb c 9 || N.eqb c 10 || N.eqb c 13.
Definition skip_ws (s : str) : str := dropwhile is_json_ws s.

Definition hexval (c : char) : option N :=
  if in_range 48 57 c then Some (c - 48)
  else if in_range 97 102 c then Some (c - 87)
  else if in_range 65 70 c then Some (c - 55)
  else None.

Definition hex4 (a b c d : char) : option N :=
  match hexval a, hexval b, hexval c, hexval d with
  | Some x, Some y, Some z, Some w => Some (((x * 16 + y) * 16 + z) * 16 + w)
  | _, _, _, _ => None
  end.

Definition escape_of (e : char) : option char :=
  if N.eqb e 34 then Some 34
  else if N.eqb e 92 then Some 92
  else if N.eqb e 47 then Some 47
  else if N.eqb e 98 then Some 8
  else if N.eqb e 102 then Some 12
  else if N.eqb e 110 then Some 10
  else if N.eqb e 114 then Some 13
  else if N.eqb e 116 then Some 9
  else None.

Definition is_high_surrogate (u : N) : bool := in_range 55296 56319 u.
Definition is_low_surrogate (u : N) : bool := in_range 56320 57343 u.
Definition join_surrogates (hi lo : N) : N :=
  65536 + (hi - 55296) * 1024 + (lo - 56320).

(** The text after an opening quote, up to the closing one (strict
    mode: a raw control character is an error). *)
Fixpoint scanstring (acc : str) (s : str) : option (str * str) :=
  match s with
  | [] => None
  | c :: r =>
      if N.eqb c QUOTE then Some (rev acc, r)
      else if N.eqb c BACKSLASH then
        match r with
        | [] => None
        | e :: r1 =>
            if N.eqb e 117 then
              match r1 with
              | h1 :: h2 :: h3 :: h4 :: r2 =>
                  match hex4 h1 h2 h3 h4 with
                  | None => None
                  | Some u =>
                      if is_high_surrogate u then
                        match r2 with
                        | b :: v :: k1 :: k2 :: k3 :: k4 :: r3 =>
                            if N.eqb b BACKSLASH && N.eqb v 117 then
                              match hex4 k1 k2 k3 k4 with
                              | None => None
                              | Some u2 =>
                                  if is_low_surrogate u2
                                  then scanstring (join_surrogates u u2 :: acc) r3
                                  else scanstring (u :: acc) r2
                              end
                            else scanstring (u :: acc) r2
                        | _ => scanstring (u :: acc) r2
                        end
                      else scanstring (u :: acc) r2
                  end
              | _ => None
              end
            else
              match escape_of e with
              | Some x => scanstring (x :: acc) r1
              | None => None
              end
        end
      else if N.leb c 31 then None
      else scanstring (c :: acc) r
  end.

Fixpoint take_digits (s : str) : str * str :=
  match s with
  | c :: r => if ascii_digit c
              then let '(d, rest) := take_digits r in (c :: d, rest)
              else ([], s)
  | [] => ([], [])
  end.

(** The parts of a number: an optional minus sign, the integer part
    (a zero, or a non-zero digit and more digits), an optional fraction
    and an optional exponent; a part that is started but not completed
    is not consumed. *)
Definition take_sign (s : str) : str * str :=
  match s with
  | c :: r => if N.eqb c 45 then ([c], r) else ([], s)
  | [] => ([], s)
  end.

Definition take_int (s : str) : option (str * str) :=
  match s with
  | c :: r =>
      if N.eqb c 48 then Some ([c], r)
      else if in_range 49 57 c
           then let '(d, rest) := take_digits r in Some (c :: d, rest)
           else None
  | [] => None
  end.

Definition take_frac (s : str) : str * str :=
  match s with
  | c :: r =>
      if N.eqb c 46 then
        match take_digits r with
        | ([], _) => ([], s)
        | (d, rest) => (c :: d, rest)
        end
      else ([], s)
  | [] => ([], s)
  end.

Definition take_exp_sign (s : str) : str * str :=
  match s with
  | g :: r => if N.eqb g 43 || N.eqb g 45 then ([g], r) else ([], s)
  | [] => ([], s)
  end.

Definition take_exp (s : str) : str * str :=
  match s with
  | c :: r =>
      if N.eqb c 101 || N.eqb c 69 then
        let '(sg, r1) := take_exp_sign r in
        match take_digits r1 with
        | ([], _) => ([], s)
        | (d, rest) => (c :: sg ++ d, rest)
        end
      else ([], s)
  | [] => ([], s)
  end.

(** A number at the head of [s]: its lexeme and the rest. *)
Definition match_number (s : str) : option (str * str) :=
  let '(sign, s1) := take_sign s in
  match take_int s1 with
  | None => None
  | Some (ip, s2) =>
      let '(frac, s3) := take_frac s2 in
      let '(ex, s4) := take_exp s3 in
      Some (sign ++ ip ++ frac ++ ex, s4)
  end.

Definition literal (w : string) (v : json) (s : str) : option (json * str) :=
  if startswith s (py w) then Some (v, skipn (List.length (py w)) s) else None.

Definition first_some {A} (l : list (option A)) : option A :=
  fold_right (fun o acc => match o with Some a => Some a | None => acc end) None l.

(** A value that is neither a string, an object nor an array. *)
Definition scan_atom (s : str) : scan json :=
  match first_some
          [ literal "null" JNull s; literal "true" (JBool true) s;
            literal "false" (JBool false) s; literal "NaN" (JNum (py "NaN")) s;
            literal "Infinity" (JNum (py "Infinity")) s;
            literal "-Infinity" (JNum (py "-Infinity")) s;
            option_map (fun '(l, rest) => (JNum l, rest)) (match_number s) ] with
  | Some (v, rest) => Got v rest
  | None => Bad
  end.

Fixpoint scan_once (fuel : nat) (s : str) {struct fuel} : scan json :=
  match fuel with
  | O => Deep
  | S f =>
      match s with
      | [] => Bad
      | c :: r =>
          if N.eqb c QUOTE then
            match scanstring [] r with
            | Some (v, rest) => Got (JStr v) rest
            | None => Bad
            end
          else if N.eqb c 123 then
            match skip_ws r with
            | d :: r' =>
                if N.eqb d 125 then Got (JObj []) r'
                else match members f [] (d :: r') with
                     | Got kvs rest => Got (JObj kvs) rest
                     | Bad => Bad
                     | Deep => Deep
                     end
            | [] => Bad
            end
          else if N.eqb c 91 then
            match skip_ws r with
            | d :: r' =>
                if N.eqb d 93 then Got (JArr []) r'
                else match elements f [] (d :: r') with
                     | Got vs rest => Got (JArr vs) rest
                     | Bad => Bad
                     | Deep => Deep
                     end
            | [] => Bad
            end
          else scan_atom s
      end
  end

with members (fuel : nat) (acc : list (str * json)) (s : str) {struct fuel}
  : scan (list (str * json)) :=
  match fuel with
  | O => Deep
  | S f =>
      match s with
      | c :: r =>
          if N.eqb c QUOTE then
            match scanstring [] r with
            | None => Bad
            | Some (k, r1) =>
                match skip_ws r1 with
                | d :: r2 =>
                    if N.eqb d 58 then
                      match scan_once f (skip_ws r2) with
                      | Got v r3 =>
                          match skip_ws r3 with
                          | e :: r4 =>
                              if N.eqb e 125 then Got (rev ((k, v) :: acc)) r4
                              else if N.eqb e 44
                                   then members f ((k, v) :: acc) (skip_ws r4)
                                   else Bad
                          | [] => Bad
                          end
                      | Bad => Bad
                      | Deep => Deep
                      end
                    else Bad
                | [] => Bad
                end
            end
          else Bad
      | [] => Bad
      end
  end

with elements (fuel : nat) (acc : list json) (s : str) {struct fuel}
  : scan (list json) :=
  match fuel with
  | O => Deep
  | S f =>
      match scan_once f s with
      | Got v r1 =>
          match skip_ws r1 with
          | e :: r2 =>
              if N.eqb e 93 then Got (rev (v :: acc)) r2
              else if N.eqb e 44 then elements f (v :: acc) (skip_ws r2)
              else Bad
          | [] => Bad
          end
      | Bad => Bad
      | Deep => Deep
      end
  end.

(** [json.loads(s)]: one value, surrounded by optional white space.
    The budget covers any nesting the text can hold, so that [Deep]
    does not arise from [loads]. *)
Definition loads (s : str) : res json :=
  match scan_once (2 * List.length s + 2) (skip_ws s) with
  | Got v rest =>
      match skip_ws rest with
      | [] => Ok v
      | _ => Raise JSONDecodeError
      end
  | Bad => Raise JSONDecodeError
  | Deep => Raise (OtherError (py "RecursionError"))
  end.

Definition parses (s : str) : bool :=
  match loads s with Ok _ => true | Raise _ => false end.

(** *** Python operations on decoded values *)

(** [d.get(k)] on a [dict]: the last member named [k] wins. *)
Fixpoint lookup (k : str) (kvs : list (str * json)) : option json :=
  match kvs with
  | [] => None
  | (k', v) :: r =>
      match lookup k r with
      | Some v' => Some v'
      | None => if str_eqb k k' then Some v else None
      end
  end.

(** [x.get(k, d)]: only a [dict] has the method. *)
Definition get (x : json) (k : str) (d : json) : res json :=
  match x with
  | JObj kvs => Ok (match lookup k kvs with Some v => v | None => d end)
  | _ => Raise AttributeError
  end.

Definition is_str (k : str) (v : json) : bool :=
  match v with JStr s => str_eqb s k | _ => false end.

(** [k in x] for a string [k]. *)
Definition has (k : str) (x : json) : res bool :=
  match x with
  | JObj kvs => Ok (match lookup k kvs with Some _ => true | None => false end)
  | JArr l => Ok (existsb (is_str k) l)
  | JStr s => Ok (contains s k)
  | _ => Raise TypeError
  end.

(** [for v in x]. *)
Definition iter (x : json) : res (list json) :=
  match x with
  | JArr l => Ok l
  | JObj kvs => Ok (map (fun kv => JStr (fst kv)) kvs)
  | JStr s => Ok (map (fun c => JStr [c]) s)
  | _ => Raise TypeError
  end.

(** [x.lower()], [x.strip()], [x.endswith(...)]: the text of a [str];
    no other decoded value has these methods. *)
Definition str_of (x : json) : res str :=
  match x with
  | JStr s => Ok s
  | _ => Raise AttributeError
  end.

(** *** Numbers as Python reads them *)

Definition digits_value (d : str) : Z :=
  fold_left (fun acc c => (10 * acc + Z.of_N (c - 48))%Z) d 0%Z.

(** A lexeme read again: a [float] when it has a fraction or an
    exponent and an [int] otherwise, its sign, and its absolute value
    as [num_digits * 10 ^ num_exponent]. *)
Record number : Type := mkNumber {
  num_float : bool;
  num_negative : bool;
  num_digits : Z;
  num_exponent : Z
}.

(** Nothing for [NaN] and the two infinities. *)
Definition number_of (l : str) : option number :=
  let '(sign, s1) := take_sign l in
  match take_int s1 with
  | None => None
  | Some (ip, s2) =>
      let '(frac, s3) := take_frac s2 in
      let '(ex, _) := take_exp s3 in
      let e :=
        match ex with
        | [] => 0%Z
        | _ :: r =>
            let '(sg, d) := take_exp_sign r in
            if str_eqb sg (py "-") then (- digits_value d)%Z else digits_value d
        end in
      Some (mkNumber (nonempty frac || nonempty ex) (nonempty sign)
              (digits_value (ip ++ tl frac))
              (e - Z.of_nat (List.length (tl frac)))%Z)
  end.

Definition magnitude (n : number) : Q :=
  if Z.leb 0 (num_exponent n)
  then inject_Z (num_digits n * 10 ^ num_exponent n)
  else Qmake (num_digits n) (Z.to_pos (10 ^ (- num_exponent n))).

(** [x == 0] for a number: an [int] is compared exactly; a [float] is
    the double nearest to the lexeme (ties to even), which is zero up
    to [2 ** -1075]. *)
Definition is_zero (l : str) : bool :=
  match number_of l with
  | None => false
  | Some n =>
      if num_float n then Qle_bool (magnitude n) (1 # 2 ^ 1075)
      else Z.eqb (num_digits n) 0
  end.

(** [x == 1]: for a [float], the lexemes from [1 - 2 ** -54] to
    [1 + 2 ** -53]. *)
Definition is_one (l : str) : bool :=
  match number_of l with
  | None => false
  | Some n =>
      negb (num_negative n)
      && (if num_float n
          then Qle_bool (1 - (1 # 2 ^ 54)) (magnitude n)
               && Qle_bool (magnitude n) (1 + (1 # 2 ^ 53))
          else Z.eqb (num_digits n) 1)
  end.

(** [bool(x)]. *)
Definition truth (x : json) : bool :=
  match x with
  | JNull => false
  | JBool b => b
  | JNum l => negb (is_zero l)
  | JStr s => nonempty s
  | JArr l => match l with [] => false | _ => true end
  | JObj kvs => match kvs with [] => false | _ => true end
  end.

End Json.

Import Json.

(* ===================================================================== *)
(** ** Response repair: [_repair_truncated_json] *)
(* ===================================================================== *)

Module Repair.

(** The tuple of the backward scan.  Each member is a string; the
    character under the cursor is compared with each of them. *)
Definition boundary_tokens : list str :=
  [py "}"; py "]"; [QUOTE]; py "0123456789";
   py "e"; py "l"; py "s"; py "n"; py "r"; py "u"].

(** [c in ('}', ']', ...)]. *)
Definition is_boundary (c : char) : bool :=
  existsb (str_eqb [c]) boundary_tokens.

(** The backward [for] loop: [text[:i + 1]] for the largest [i] whose
    character is in the tuple; the empty string when the [else] branch
    of the loop is taken. *)
Definition cut_at_last_boundary (text : str) : str :=
  rev (dropwhile (fun c => negb (is_boundary c)) (rev text)).

(** State of the forward walk. *)
Record walk_state : Type := mkWalk {
  stack : list char;
  in_string : bool;
  escape_next : bool
}.

Definition walk_init : walk_state := mkWalk [] false false.

Definition OPEN_BRACE : char := 123%N.
Definition CLOSE_BRACE : char := 125%N.
Definition OPEN_BRACKET : char := 91%N.
Definition CLOSE_BRACKET : char := 93%N.

(** [stack and stack[-1] == c]. *)
Definition top_is (c : char) (stk : list char) : bool :=
  match rev stk with
  | t :: _ => N.eqb t c
  | [] => false
  end.

(** One iteration of [for ch in candidate]. *)
Definition walk_step (st : walk_state) (c : char) : walk_state :=
  if escape_next st then mkWalk (stack st) (in_string st) false
  else if N.eqb c BACKSLASH then mkWalk (stack st) (in_string st) true
  else if N.eqb c QUOTE && negb (in_string st) then mkWalk (stack st) true false
  else if N.eqb c QUOTE && in_string st then mkWalk (stack st) false false
  else if negb (in_string st) then
    if N.eqb c OPEN_BRACE || N.eqb c OPEN_BRACKET
    then mkWalk (stack st ++ [c]) false false
    else if N.eqb c CLOSE_BRACE
    then (if top_is OPEN_BRACE (stack st)
          then mkWalk (removelast (stack st)) false false else st)
    else if N.eqb c CLOSE_BRACKET
    then (if top_is OPEN_BRACKET (stack st)
          then mkWalk (removelast (stack st)) false false else st)
    else st
  else st.

Definition walk_from (st : walk_state) (s : str) : walk_state :=
  fold_left walk_step s st.
Definition walk (s : str) : walk_state := walk_from walk_init s.

(** [closing = {'[': ']', '{': '}'}]; the stack only ever holds the two
    keys. *)
Definition closing (c : char) : char :=
  if N.eqb c OPEN_BRACKET then CLOSE_BRACKET else CLOSE_BRACE.

(** [''.join(closing[c] for c in reversed(stack))]. *)
Definition closers_of (stk : list char) : str := map closing (rev stk).

Definition _repair_truncated_json (text : str) : option str :=
  let text := strip text in
  if negb (nonempty text) then None
  else
    let candidate := cut_at_last_boundary text in
    match candidate with
    | [] => None
    | _ =>
        let stk := stack (walk candidate) in
        match stk with
        | [] => Some candidate
        | _ =>
            let closers := closers_of stk in
            let candidate := rstrip (rstrip_chars (py ",") (rstrip candidate)) in
            Some (candidate ++ closers)
        end
    end.

End Repair.

Import Repair.


(* ===================================================================== *)
(** ** The structured text model and the result dictionaries *)
(* ===================================================================== *)

Module Model.

(** [block["formatting"]].  The parser copies the values of the answer
    as it finds them, so a field other than [size_relative] holds a
    decoded value of any type. *)
Record formatting : Type := mkFormatting {
  bold : json;
  size_relative : Z;
  color : json;
  alignment : json
}.

(** One text block ([{"type": "paragraph", ...}]). *)
Record block : Type := mkBlock {
  original : json;
  translated : json;
  fmt : formatting;
  has_emoji : bool
}.

(** An entry of [structure]: a line with its blocks (the "lines"
    schema) or a bare block (the legacy schema and the OCR chain). *)
Inductive item : Type :=
| LineItem (line_blocks : list block) (line_alignment : json)
| BlockItem (b : block).

Record usage : Type := mkUsage {
  input_tokens : Z;
  output_tokens : Z;
  total_tokens : Z
}.

(** A dictionary with a ["structure"] key.  The optional fields are the
    keys that only some producers set. *)
Record document : Type := mkDocument {
  original_text : str;
  translated_text : str;
  structure : list item;
  doc_usage : option usage;
  translation_method : option str;
  translation_model : option str;
  openrouter_error : option str
}.

(** What an adapter returns: [None], a dictionary with only an
    ["error"] key, or a dictionary with a ["structure"] key. *)
Inductive result : Type :=
| RNone
| RError (msg : str)
| RDoc (d : document).

(** Calls that leave the process, in the order they are made. *)
Inductive prompt_template : Type := VisionTemplate | CompactTemplate.

(** A prompt: the template and the two language names that fill it
    (the running text of the templates is not reproduced). *)
Record prompt : Type := mkPrompt {
  template : prompt_template;
  from_lang : str;
  to_lang : str
}.

Inductive post_site : Type := VisionPost | TextPost.

(** The arguments of one call of the progress callback. *)
Record cb_args : Type := mkArgs {
  cb_current : nat;
  cb_total : nat;
  cb_status : str;
  cb_phase : option str;
  cb_slide_index : option nat;
  cb_error : option str
}.

(** The calls that leave the process. *)
Inductive call : Type :=
| EvClaude (p : prompt)
| EvPost (site : post_site) (attempt : nat)
| EvSleep (seconds : N)
| EvTesseract
| EvOfflineMT.

(** What a run of the pipeline leaves in its trace: the calls of the
    adapters, the calls of the progress callback, and one internal
    mark: [EvCounted idx d] is the point where slide number [idx] has
    been rendered from the dictionary [d] and [processed_slides] is
    incremented. *)
Inductive event : Type :=
| Called (c : call)
| EvProgress (args : cb_args)
| EvCounted (idx : nat) (d : document).

Definition is_post (site : post_site) (e : call) : bool :=
  match e, site with
  | EvPost VisionPost _, VisionPost => true
  | EvPost TextPost _, TextPost => true
  | _, _ => false
  end.
Definition is_offline (e : call) : bool :=
  match e with EvOfflineMT => true | _ => false end.

(** [str(e)].  The text of an API error is carried by the exception;
    the texts of the interpreter's own errors are abbreviated. *)
Definition exn_text (e : exn) : str :=
  match e with
  | JSONDecodeError => py "Expecting value"
  | NameError n => py "name '" ++ n ++ py "' is not defined"
  | TypeError => py "TypeError"
  | AttributeError => py "AttributeError"
  | KeyError => py "KeyError"
  | HTTPError st => py "HTTP Error for url: https://openrouter.ai/api/v1/chat/completions"
  | Timeout => py "Timeout"
  | ConnectionError => py "ConnectionError"
  | OtherError m => m
  end.

End Model.

Import Model.

(* ===================================================================== *)
(** ** Prompts and name resolution *)
(* ===================================================================== *)

Module Prompts.

(** [lang_names[code]]. *)
Definition lang_names : list (str * str) :=
  [(py "fr", py "French"); (py "es", py "Spanish");
   (py "it", py "Italian"); (py "en", py "English")].

Fixpoint assoc {K V} (eqb : K -> K -> bool) (k : K) (l : list (K * V)) : option V :=
  match l with
  | [] => None
  | (k', v) :: r => if eqb k k' then Some v else assoc eqb k r
  end.

Definition lang_name (code : str) : res str :=
  match assoc str_eqb code lang_names with
  | Some n => Ok n
  | None => Raise KeyError
  end.

Definition _create_compact_vision_prompt (source_lang target_lang : str) : res prompt :=
  let? s := lang_name source_lang in
  let? t := lang_name target_lang in
  Ok (mkPrompt CompactTemplate s t).

Definition create_vision_prompt (source_lang target_lang : str) : res prompt :=
  let? s := lang_name source_lang in
  let? t := lang_name target_lang in
  Ok (mkPrompt VisionTemplate s t).

(** Names bound at module level in [ppt_service.py]: the imports, the
    thread pool, the two module constants and the functions. *)
Definition module_globals : list string :=
  ["Presentation"; "Inches"; "Pt"; "RGBColor"; "PP_ALIGN"; "MSO_AUTO_SIZE";
   "Image"; "ImageEnhance"; "ImageFilter"; "detect"; "LangDetectException";
   "io"; "json"; "base64"; "time"; "anthropic"; "requests"; "pytesseract";
   "Dict"; "List"; "Optional"; "Tuple"; "asyncio"; "ThreadPoolExecutor";
   "executor"; "encode_image_to_base64"; "_create_compact_vision_prompt";
   "create_vision_prompt"; "SIZE_MAP"; "_parse_vision_response";
   "_repair_truncated_json"; "call_claude_vision"; "call_openrouter_vision";
   "ocr_extract_text"; "detect_language_from_image";
   "detect_language_from_presentation"; "_ct2_translators";
   "_get_ct2_translator"; "translate_offline"; "build_text_structure";
   "post_process_translation"; "call_ocr_openrouter"; "has_image_on_left";
   "reduce_font_if_overflow"; "apply_formatting_from_structure";
   "process_ppt_slide"; "create_translated_ppt"]%string.

(** Reading the variable [x] as a string inside a function body: the
    locals of the function first ([None] marks a local that holds
    something else than a string), then the module.  No module-level
    name holds a string, and a name bound nowhere raises [NameError]. *)
Definition load_name (locals : list (string * option str)) (x : string) : res str :=
  match assoc String.eqb x locals with
  | Some (Some v) => Ok v
  | Some None => Raise TypeError
  | None =>
      if existsb (String.eqb x) module_globals then Raise TypeError
      else Raise (NameError (py x))
  end.

End Prompts.

Import Prompts.

(* ===================================================================== *)
(** ** The services outside the process *)
(* ===================================================================== *)

Module World.

(** [client.messages.create(...)]: a message with its text and token
    counts, or an exception of the client with its text. *)
Inductive claude_reply : Type :=
| Message (text : str) (input_tokens output_tokens : Z)
| ApiException (msg : str).

Record http_response : Type := mkResponse {
  status_code : N;
  body : str
}.

(** [requests.post(...)]: a response, or an exception of [requests]. *)
Inductive http_reply : Type :=
| Response (r : http_response)
| PostRaises (e : exn).

(** A picture, together with what each service answers when it is
    called for this picture: the [k]-th call of the Anthropic client
    with a given prompt, the [k]-th post of either adapter, the text
    tesseract reads, and the offline translator (absent when its model
    cannot be loaded) applied to one line. *)
Record image : Type := mkImage {
  anthropic_says : nat -> prompt -> claude_reply;
  vision_http : nat -> http_reply;
  text_http : nat -> http_reply;
  tesseract_says : res str;
  offline_line : option (str -> res str)
}.

End World.

Import World.

(* ===================================================================== *)
(** ** Vision adapters *)
(* ===================================================================== *)

Module Vision.

Definition SIZE_MAP : list (str * Z) :=
  [(py "huge", 7%Z); (py "very-large", 5%Z); (py "large", 3%Z);
   (py "normal", 0%Z); (py "small", (-2)%Z); (py "tiny", (-4)%Z)].

(** [SIZE_MAP.get(v, 0)]: a list or a dictionary cannot be a key. *)
Definition size_map_get (v : json) : res Z :=
  match v with
  | JStr s => Ok (match assoc str_eqb s SIZE_MAP with Some z => z | None => 0%Z end)
  | JArr _ | JObj _ => Raise TypeError
  | _ => Ok 0%Z
  end.

(** The text of a value that is used as a string. *)
Definition as_str (v : json) : res str :=
  match v with JStr s => Ok s | _ => Raise TypeError end.

(** [x[k]] for a string key. *)
Definition subscript (x : json) (k : str) : res json :=
  match x with
  | JObj kvs => match lookup k kvs with Some v => Ok v | None => Raise KeyError end
  | _ => Raise TypeError
  end.

(** [x[0]]. *)
Definition subscript0 (x : json) : res json :=
  match x with
  | JArr (v :: _) => Ok v
  | JArr [] => Raise KeyError
  | JStr (c :: _) => Ok (JStr [c])
  | JStr [] => Raise KeyError
  | JObj _ => Raise KeyError
  | _ => Raise TypeError
  end.

(** The dictionary made of one block of the answer: the values of
    its keys, copied as they are. *)
Definition parse_block (default_alignment : json) (blk : json) : res block :=
  let? sz := get blk (py "size") (JStr (py "normal")) in
  let? size_relative := size_map_get sz in
  let? text := get blk (py "text") (JStr []) in
  let? bold := get blk (py "bold") (JBool false) in
  let? color := get blk (py "color") (JStr (py "black")) in
  let? alignment := get blk (py "alignment") default_alignment in
  Ok (mkBlock text text (mkFormatting bold size_relative color alignment) true).

Definition parse_line (line : json) : res item :=
  let? blocks := rbind (get line (py "blocks") (JArr [])) iter in
  let? line_alignment := get line (py "alignment") (JStr (py "left")) in
  let? line_blocks := rmap (parse_block line_alignment) blocks in
  Ok (LineItem line_blocks line_alignment).

Definition vision_document (structure : list item) : document :=
  mkDocument [] [] structure None None None None.

Definition _parse_vision_response (result : json) : res (option document) :=
  let? has_lines := has (py "lines") result in
  if has_lines then
    let? lines := rbind (get result (py "lines") (JArr [])) iter in
    let? structure := rmap parse_line lines in
    Ok (Some (vision_document structure))
  else
    let? has_blocks := has (py "blocks") result in
    if has_blocks then
      let? blocks := rbind (subscript result (py "blocks")) iter in
      let? structure :=
        rmap (fun b => let? blk := parse_block (JStr (py "left")) b in
                       Ok (BlockItem blk)) blocks in
      Ok (Some (vision_document structure))
    else Ok None.

Definition FENCE : str := [96; 96; 96]%N.
Definition FENCE_JSON : str := FENCE ++ py "json".

(** [s.find(sub, start)]. *)
Definition find_from (s sub : str) (start : nat) : option nat :=
  option_map (Nat.add start) (find (skipn start s) sub).

(** [s[start:stop]] where [stop] is the value of a [find] from
    [start]; the -1 of a failed [find] counts from the end. *)
Definition slice (s : str) (start : nat) (stop : option nat) : str :=
  match stop with
  | Some e => firstn (e - start) (skipn start s)
  | None => removelast (skipn start s)
  end.

Definition between_fences (s opening : str) : str :=
  match find s opening with
  | Some i =>
      let start := (i + List.length opening)%nat in
      strip (slice s start (find_from s FENCE start))
  | None => s
  end.

(** The "Extract JSON" step of [call_claude_vision]. *)
Definition extract_json (response_text : str) : str :=
  let json_text := strip response_text in
  if contains json_text FENCE_JSON then between_fences json_text FENCE_JSON
  else if contains json_text FENCE then between_fences json_text FENCE
  else json_text.

(** The same step in [call_openrouter_vision]. *)
Definition extract_json_openrouter (response_text : str) : str :=
  if contains response_text FENCE_JSON then between_fences response_text FENCE_JSON
  else strip response_text.

Definition with_usage (u : usage) (d : document) : document :=
  mkDocument (original_text d) (translated_text d) (structure d) (Some u)
    (translation_method d) (translation_model d) (openrouter_error d).

Definition of_parsed (p : option document) : result :=
  match p with Some d => RDoc d | None => RNone end.

(** The message of the outer [except Exception] of [call_claude_vision]. *)
Definition classify_claude_error (error_msg : str) : str :=
  if contains error_msg (py "credit balance") || contains error_msg (py "402") then
    py "Insufficient credits on your Anthropic account. Please top up at console.anthropic.com."
  else if contains error_msg (py "invalid_api_key") || contains error_msg (py "401")
          || contains (lower error_msg) (py "authentication") then
    py "Invalid Claude API key. Please check your key in Settings."
  else if contains error_msg (py "Connection error") || contains error_msg (py "ConnectError") then
    py "Cannot reach Anthropic API. Check your internet connection."
  else if contains error_msg (py "overloaded") || contains error_msg (py "529") then
    py "Anthropic API is temporarily overloaded. Please retry in a few moments."
  else if contains error_msg (py "rate_limit") || contains error_msg (py "429") then
    py "Anthropic API rate limit reached. Please wait before retrying."
  else py "Claude API error: " ++ error_msg.

(** [client.messages.create] through the executor: one event, and the
    scripted answer. *)
Definition messages_create (img : image) (k : nat) (p : prompt)
  : res (str * usage) * list call :=
  match anthropic_says img k p with
  | Message text i o => (Ok (text, mkUsage i o (i + o)), [EvClaude p])
  | ApiException msg => (Raise (OtherError msg), [EvClaude p])
  end.

(** The compact retry of [call_claude_vision] (the inner
    [try: ... except Exception: return None]). *)
Definition compact_retry (img : image) (locals : list (string * option str))
  : result * list call :=
  let prepared :=
    let? source_lang := load_name locals "source_lang" in
    let? target_lang := load_name locals "target_lang" in
    _create_compact_vision_prompt source_lang target_lang in
  match prepared with
  | Raise _ => (RNone, [])
  | Ok compact_prompt =>
      let '(reply, tr) := messages_create img 1 compact_prompt in
      match (let? m := reply in
             let retry_text := extract_json (fst m) in
             let? result := loads retry_text in
             _parse_vision_response result) with
      | Ok parsed => (of_parsed parsed, tr)
      | Raise _ => (RNone, tr)
      end
  end.

Definition call_claude_vision (img : image) (prompt : prompt)
    (api_key : option str) (model : str) : result * list call :=
  let '(reply, tr) := messages_create img 0 prompt in
  let failed (e : exn) := RError (classify_claude_error (exn_text e)) in
  match reply with
  | Raise e => (failed e, tr)
  | Ok (response_text, usage) =>
      let json_text := extract_json response_text in
      let locals :=
        [("image", None); ("prompt", None); ("api_key", api_key);
         ("model", Some model); ("image_base64", None); ("client", None);
         ("make_call", None); ("message", None);
         ("response_text", Some response_text); ("usage", None);
         ("json_text", Some json_text); ("start", None); ("end", None);
         ("result", None); ("parsed", None); ("e", None);
         ("repaired", None)]%string in
      match loads json_text with
      | Ok result =>
          match _parse_vision_response result with
          | Ok parsed => (of_parsed (option_map (with_usage usage) parsed), tr)
          | Raise e => (failed e, tr)
          end
      | Raise JSONDecodeError =>
          let retry :=
            let '(r, tr') := compact_retry img locals in (r, tr ++ tr') in
          match _repair_truncated_json json_text with
          | Some repaired =>
              if nonempty repaired then
                match loads repaired with
                | Ok result =>
                    match _parse_vision_response result with
                    | Ok parsed => (of_parsed parsed, tr)
                    | Raise e => (failed e, tr)
                    end
                | Raise JSONDecodeError => retry
                | Raise e => (failed e, tr)
                end
              else retry
          | None => retry
          end
      | Raise e => (failed e, tr)
      end
  end.


(** *** The retry loop of the two OpenRouter adapters *)

Definition max_retries : nat := 3.
Definition backoff : N := 2%N.

(** [response.raise_for_status()] raises for the 4xx and 5xx codes. *)
Definition is_http_error (st : N) : bool := in_range 400%N 599%N st.

(** How the loop is left: the exception that ended it, if any, and the
    value of the variable [response] at that moment. *)
Record loop_exit : Type := mkExit {
  raised : option exn;
  response : option http_response
}.

(** [for attempt in range(max_retries + 1)] with its body, written once
    for [call_openrouter_vision] and [call_ocr_openrouter] (whose loop
    also logs the body of a failed response before raising).
    [response] is the variable of that name, [None] before the loop. *)
Fixpoint retry_loop (site : post_site) (http : nat -> http_reply)
    (attempts : list nat) (response : option http_response)
  : loop_exit * list call :=
  match attempts with
  | [] => (mkExit None response, [])
  | attempt :: rest =>
      match http attempt with
      | PostRaises e => (mkExit (Some e) response, [EvPost site attempt])
      | Response r =>
          if N.eqb (status_code r) 429%N && Nat.ltb attempt max_retries then
            let wait_s := N.pow backoff (N.of_nat (attempt + 1)) in
            let '(out, tr) := retry_loop site http rest (Some r) in
            (out, EvPost site attempt :: EvSleep wait_s :: tr)
          else if is_http_error (status_code r) then
            (mkExit (Some (HTTPError (status_code r))) (Some r), [EvPost site attempt])
          else (mkExit None (Some r), [EvPost site attempt])
      end
  end.

Definition post_with_retry (site : post_site) (http : nat -> http_reply)
  : loop_exit * list call :=
  retry_loop site http (seq 0 (max_retries + 1)) None.

(** Token counts are read as integers (the source adds whatever
    numbers the response holds). *)
Definition digits_value (s : str) : Z :=
  fold_left (fun acc c => (acc * 10 + Z.of_N (c - 48%N))%Z) s 0%Z.

Definition as_int (v : json) : res Z :=
  match v with
  | JNum l =>
      match l with
      | c :: r =>
          if N.eqb c 45%N then
            if nonempty r && forallb ascii_digit r then Ok (- digits_value r)%Z
            else Raise TypeError
          else if forallb ascii_digit l then Ok (digits_value l)
          else Raise TypeError
      | [] => Raise TypeError
      end
  | _ => Raise TypeError
  end.

Definition call_openrouter_vision (img : image) (prompt : prompt)
    (api_key : option str) (model : str) : result * list call :=
  let '(exit, tr) := post_with_retry VisionPost (vision_http img) in
  let body_result : res result :=
    let? response :=
      match raised exit with Some e => Raise e | None => Ok (response exit) end in
    match response with
    | None => Ok RNone
    | Some response =>
        let? result := loads (body response) in
        let? usage := get result (py "usage") (JObj []) in
        let? input_tokens := get usage (py "input_tokens") (JNum (py "0")) in
        let? output_tokens := get usage (py "output_tokens") (JNum (py "0")) in
        let? choices := subscript result (py "choices") in
        let? choice := subscript0 choices in
        let? message := subscript choice (py "message") in
        let? response_text := rbind (subscript message (py "content")) as_str in
        let json_text := extract_json_openrouter response_text in
        let? result := loads json_text in
        let? parsed_result := _parse_vision_response result in
        match parsed_result with
        | Some d =>
            let? i := as_int input_tokens in
            let? o := as_int output_tokens in
            Ok (RDoc (with_usage (mkUsage i o (i + o)) d))
        | None => Ok RNone
        end
    end in
  match body_result with
  | Ok r => (r, tr)
  | Raise Timeout =>
      (RError (py "API timeout - the translation service took too long to respond. Please try again."), tr)
  | Raise ConnectionError =>
      (RError (py "Connection error - unable to reach the translation service. Please check your internet connection."), tr)
  | Raise e => (RError (py "Translation error: " ++ exn_text e), tr)
  end.

End Vision.

Import Vision.

(* ===================================================================== *)
(** ** OCR text reconstruction: [ocr_extract_text] *)
(* ===================================================================== *)

Module Ocr.

Import Re.

Local Open Scope N_scope.

(** The class of the [re.sub] that removes emoji and symbols. *)
Definition is_symbol_noise (c : char) : bool :=
  in_range 65536 1114111 c || in_range 9728 10175 c || in_range 127744 129535 c.

(** [[a-zA-ZÀ-ÿ0-9]]. *)
Definition is_wordish (c : char) : bool :=
  ascii_alpha c || in_range 192 255 c || ascii_digit c.

(** [[^a-zA-Z0-9\s]]. *)
Definition is_special (c : char) : bool :=
  negb (ascii_alpha c || ascii_digit c || isspace c).

Definition rep3_or_more (r : re) : re := Cat r (Cat r (Cat r (Star r))).
Definition rep1_to_3 (r : re) : re := Cat r (opt (Cat r (opt r))).

(** [(\d+\s+){3,}\d*[\]\)]?]. *)
Definition SCALE_RE : re :=
  Cat (rep3_or_more (Cat (plus digit) (plus ws)))
      (Cat (Star digit) (opt (Cls (fun c => N.eqb c 93 || N.eqb c 41)))).

Definition is_scale_artifact (text : str) : bool :=
  if re_search SCALE_RE text && Nat.leb (count_cls ascii_alpha text) 2 then true
  else
    let words := split_ws text in
    if Nat.leb 5 (List.length words) then
      let short_words :=
        List.length (filter (fun w => Nat.leb (List.length w) 3 && isupper w) words) in
      (* short_words >= len(words) * 0.8 *)
      Nat.leb (4 * List.length words) (5 * short_words)
    else false.

(** [^[a-z]{1,3}\.\s*$]. *)
Definition GARBAGE_RE : re :=
  Cat (rep1_to_3 (Cls ascii_lower)) (Cat (lit 46) (Star ws)).

Definition is_garbage_line (text : str) : bool :=
  if Nat.ltb (List.length text) 15 then
    let letters := count_cls ascii_alpha text in
    let special := count_cls is_special text in
    if Nat.ltb letters special then true
    else re_match_eol GARBAGE_RE text
  else false.

(** The bullet glyphs [+ # - * ] and U+2022, U+25E6, U+25AA, U+25AB. *)
Definition is_bullet_glyph (c : char) : bool :=
  N.eqb c 43 || N.eqb c 35 || N.eqb c 45 || N.eqb c 8226 || N.eqb c 42
  || N.eqb c 9702 || N.eqb c 9642 || N.eqb c 9643.

(** [^[+#\-•*◦▪▫]\s+|^[a-z]\s+]. *)
Definition BULLET_RE : re :=
  Alt (Cat (Cls is_bullet_glyph) (plus ws)) (Cat (Cls ascii_lower) (plus ws)).

Definition is_bullet (text : str) : bool := re_match BULLET_RE text.

Definition TITLE_KEYWORDS : list str :=
  [py "(Option)"; py "(Scale)"; py "(Question)"; py "Intro"].

(** [^\d+\s*-\s*]. *)
Definition TITLE_RE : re :=
  Cat (plus digit) (Cat (Star ws) (Cat (lit 45) (Star ws))).

Definition is_title (text : str) : bool :=
  if re_match TITLE_RE text then true
  else existsb (contains text) TITLE_KEYWORDS.

(** The loop that collapses runs of blank lines ([cleaned_lines]). *)
Fixpoint collapse_blank (lines : list str) (prev_empty : bool) : list str :=
  match lines with
  | [] => []
  | line :: rest =>
      let stripped := strip line in
      if nonempty stripped then stripped :: collapse_blank rest false
      else if negb prev_empty then [] :: collapse_blank rest true
      else collapse_blank rest prev_empty
  end.

(** "First pass: filter out garbage and artifacts". *)
Fixpoint first_pass (lines : list str) : list str :=
  match lines with
  | [] => []
  | ln :: rest =>
      let stripped := strip ln in
      if negb (nonempty stripped) then [] :: first_pass rest
      else if negb (existsb is_wordish stripped) then first_pass rest
      else if is_scale_artifact stripped then first_pass rest
      else if is_garbage_line stripped then first_pass rest
      else stripped :: first_pass rest
  end.

Definition STRONG_PUNCTUATION : list str := [py "."; py "!"; py "?"; py ":"].

(** [cleaned[k]]. *)
Definition at_ (cleaned : list str) (k : nat) : str := nth k cleaned [].

(** [range(j, min(j + 3, len(cleaned)))]. *)
Definition lookahead (cleaned : list str) (j : nat) : list nat :=
  seq j (Nat.min (j + 3) (List.length cleaned) - j).

(** The inner [while j < len(cleaned)] of the second pass; the result
    is the paragraph and the value of [j] on exit.  [fuel] bounds the
    number of iterations, each of which advances [j]. *)
Fixpoint paragraph_loop (cleaned : list str) (fuel : nat) (j : nat)
    (paragraph : list str) : list str * nat :=
  match fuel with
  | O => (paragraph, j)
  | S f =>
      if negb (Nat.ltb j (List.length cleaned)) then (paragraph, j)
      else
        let next_line := at_ cleaned j in
        if negb (nonempty next_line) then (paragraph, j)
        else if is_title next_line || is_bullet next_line then (paragraph, j)
        else
          let current_text := join [SPACE] paragraph in
          if negb (endswith_any (rstrip current_text) STRONG_PUNCTUATION) then
            if startswith next_line [QUOTE] && Nat.ltb (List.length next_line) 80
               && existsb (fun k =>
                    nonempty (at_ cleaned k)
                    && (startswith (at_ cleaned k) [QUOTE]
                        || (Nat.ltb (List.length (at_ cleaned k)) 60 && Nat.eqb k j)))
                    (lookahead cleaned j)
            then (paragraph, j)
            else paragraph_loop cleaned f (j + 1) (paragraph ++ [next_line])
          else if head_is islower_c next_line
                  || head_is (fun c => mem c ([QUOTE] ++ py ",;:")) next_line
          then paragraph_loop cleaned f (j + 1) (paragraph ++ [next_line])
          else if head_is isupper_c next_line && Nat.ltb 60 (List.length next_line)
          then (paragraph, j)
          else if head_is isupper_c next_line && Nat.ltb (List.length next_line) 60
                  && existsb (fun k =>
                       nonempty (at_ cleaned k)
                       && Nat.ltb (List.length (at_ cleaned k)) 60)
                       (lookahead cleaned j)
          then (paragraph, j)
          else paragraph_loop cleaned f (j + 1) (paragraph ++ [next_line])
  end.

(** [lines_out and lines_out[-1] != ""]. *)
Definition last_is_text (lines_out : list str) : bool :=
  match rev lines_out with
  | l :: _ => nonempty l
  | [] => false
  end.

(** "Second pass: smart grouping" (the outer [while i < len(cleaned)]). *)
Fixpoint grouping_loop (cleaned : list str) (fuel : nat) (i : nat)
    (lines_out : list str) : list str :=
  match fuel with
  | O => lines_out
  | S f =>
      if negb (Nat.ltb i (List.length cleaned)) then lines_out
      else
        let line := at_ cleaned i in
        if negb (nonempty line) then grouping_loop cleaned f (i + 1) (lines_out ++ [[]])
        else if is_title line then
          let lines_out :=
            if last_is_text lines_out then lines_out ++ [[]] else lines_out in
          grouping_loop cleaned f (i + 1) (lines_out ++ [line])
        else if is_bullet line then grouping_loop cleaned f (i + 1) (lines_out ++ [line])
        else if Nat.ltb 0 i && endswith (at_ cleaned (i - 1)) (py "?")
                && Nat.ltb (List.length line) 80
        then grouping_loop cleaned f (i + 1) (lines_out ++ [line])
        else
          let '(paragraph, j) :=
            paragraph_loop cleaned (List.length cleaned) (i + 1) [line] in
          grouping_loop cleaned f j (lines_out ++ [join [SPACE] paragraph])
  end.

Definition smart_grouping (cleaned : list str) : list str :=
  grouping_loop cleaned (List.length cleaned) 0 [].

(** The last loop of the function, over [raw.splitlines()]. *)
Fixpoint final_pass (lines : list str) (lines_out : list str) : list str :=
  match lines with
  | [] => lines_out
  | ln :: rest =>
      let stripped := strip ln in
      if negb (nonempty stripped) then final_pass rest (lines_out ++ [[]])
      else if negb (existsb is_wordish stripped) then final_pass rest lines_out
      else if is_scale_artifact stripped then final_pass rest lines_out
      else if is_garbage_line stripped then final_pass rest lines_out
      else final_pass rest (lines_out ++ [ln])
  end.

(** The text of [ocr_extract_text] after the call of tesseract. *)
Definition reconstruct (text : str) : str :=
  let lines := splitlines text in
  let cleaned_lines := collapse_blank lines false in
  let raw := strip (join [NL] cleaned_lines) in
  let raw := remove_cls is_symbol_noise raw in
  let cleaned := first_pass (splitlines raw) in
  let lines_out := smart_grouping cleaned in
  let lines_out : list str := [] in
  let lines_out := final_pass (splitlines raw) lines_out in
  strip (join [NL] lines_out).

(** [ocr_extract_text(image, source_lang)]: any exception of the
    [try] block gives the empty string. *)
Definition ocr_extract_text (img : image) (source_lang : str) : str * list call :=
  match tesseract_says img with
  | Ok text => (reconstruct text, [EvTesseract])
  | Raise _ => ([], [EvTesseract])
  end.

(** What the function would return if the lines of the second pass were
    the ones joined at the end. *)
Definition grouped_text (text : str) : str :=
  let raw := strip (join [NL] (collapse_blank (splitlines text) false)) in
  let raw := remove_cls is_symbol_noise raw in
  strip (join [NL] (smart_grouping (first_pass (splitlines raw)))).

End Ocr.

Import Ocr.

(* ===================================================================== *)
(** ** The OCR + text chain: [call_ocr_openrouter] *)
(* ===================================================================== *)

Module Chain.

Import Re.

Local Open Scope N_scope.

(** *** [post_process_translation] *)

(** [^\d+\s*-]. *)
Definition NEXT_TITLE_RE : re := Cat (plus digit) (Cat (Star ws) (lit 45)).

(** [^[+#\-•*◦▪▫$]\s+]. *)
Definition LIST_BULLET_RE : re :=
  Cat (Cls (fun c => is_bullet_glyph c || N.eqb c 36)) (plus ws).

(** Case-insensitive classes: a character matches when one of its case
    variants does. *)
Definition ic_letter : re :=
  Cls (fun c => ascii_alpha c || N.eqb c 304 || N.eqb c 305
                || N.eqb c 383 || N.eqb c 8490).
Definition ic_fold (c : char) : char :=
  if ascii_upper c then c + 32
  else if N.eqb c 304 || N.eqb c 305 then 105
  else if N.eqb c 383 then 115
  else if N.eqb c 8490 then 107
  else c.
Fixpoint ic_word (w : str) : re :=
  match w with
  | [] => Eps
  | x :: r => Cat (Cls (fun c => N.eqb (ic_fold c) x)) (ic_word r)
  end.

(** [,\s+[A-Z][a-z]+.*(?:contact|representative|team|support)$] with
    [re.IGNORECASE]. *)
Definition SIGNATURE_RE : re :=
  Cat (lit 44) (Cat (plus ws) (Cat ic_letter (Cat (plus ic_letter) (Cat (Star dot)
    (Alt (ic_word (py "contact")) (Alt (ic_word (py "representative"))
      (Alt (ic_word (py "team")) (ic_word (py "support"))))))))).

Definition ENDINGS4 : list str := [py "."; py "!"; py "?"; py ":"].
Definition ENDINGS3 : list str := [py "?"; py "."; py "!"].

(** The first [while] of [post_process_translation]; [i] advances by
    one or two in each iteration. *)
Fixpoint join_pass (fuel : nat) (lines : list str) (result : list str) : list str :=
  match fuel with
  | O => result
  | S f =>
      match lines with
      | [] => result
      | l0 :: rest =>
          let line := strip l0 in
          if negb (nonempty line) then join_pass f rest (result ++ [[]])
          else
            let keep := join_pass f rest (result ++ [line]) in
            match rest with
            | [] => keep
            | l1 :: rest2 =>
                let next_line := strip l1 in
                if nonempty next_line then
                  let is_next_title := re_match NEXT_TITLE_RE next_line in
                  let is_next_bullet := re_match LIST_BULLET_RE next_line in
                  let is_next_option :=
                    startswith next_line [QUOTE] && Nat.ltb (List.length next_line) 80 in
                  let has_title_keyword := existsb (contains next_line) TITLE_KEYWORDS in
                  let is_signature := re_search_eol SIGNATURE_RE line in
                  let should_not_join :=
                    is_next_title || is_next_bullet || is_next_option
                    || has_title_keyword || is_signature in
                  if negb (endswith_any line ENDINGS4) && negb should_not_join then
                    if head_is islower_c next_line
                       || head_is (fun c => mem c (py ",;")) next_line
                    then join_pass f rest2 (result ++ [line ++ [SPACE] ++ next_line])
                    else if Nat.ltb (List.length line) 60
                            || Nat.ltb (List.length next_line) 60
                    then join_pass f rest2 (result ++ [line ++ [SPACE] ++ next_line])
                    else keep
                  else keep
                else keep
            end
      end
  end.

(** The nearest non-empty entry of a list, from its head. *)
Definition first_text (l : list str) : option str := List.find nonempty l.

Definition is_option_like (line : str) : bool :=
  startswith line [QUOTE]
  || (Nat.ltb (List.length line) 80 && negb (endswith_any line ENDINGS3)).

(** The second [while]: [before] holds [result[:i]] in reverse. *)
Fixpoint blank_pass (before : list str) (after : list str) (final : list str) : list str :=
  match after with
  | [] => final
  | line :: rest =>
      let skip :=
        if negb (nonempty line) then
          match first_text before, first_text rest with
          | Some prev_line, Some next_line =>
              (re_match LIST_BULLET_RE prev_line && re_match LIST_BULLET_RE next_line)
              || (is_option_like prev_line && is_option_like next_line)
          | _, _ => false
          end
        else false in
      if skip then blank_pass (line :: before) rest final
      else blank_pass (line :: before) rest (final ++ [line])
  end.

Definition post_process_translation (text : str) : str :=
  let lines := splitlines text in
  let result := join_pass (List.length lines) lines [] in
  join [NL] (blank_pass [] result []).

(** *** [build_text_structure] *)

Definition plain_block (stripped : str) : item :=
  BlockItem (mkBlock (JStr stripped) (JStr stripped)
               (mkFormatting (JBool false) 0%Z (JStr (py "black")) (JStr (py "left")))
               false).

Fixpoint build_lines (lines : list str) (prev_empty : bool) : list item :=
  match lines with
  | [] => []
  | line :: rest =>
      let stripped := strip line in
      if negb (nonempty stripped) then
        if prev_empty then build_lines rest prev_empty
        else plain_block stripped :: build_lines rest true
      else plain_block stripped :: build_lines rest false
  end.

Definition build_text_structure (translated_text : str) : list item :=
  build_lines (splitlines translated_text) false.

(** *** [translate_offline] *)

(** [None] when the translator cannot be loaded or a line fails. *)
Definition translate_offline (img : image) (text : str) : option str :=
  match offline_line img with
  | None => None
  | Some translate_line =>
      match rmap (fun line => if negb (nonempty (strip line)) then Ok []
                              else translate_line line) (splitlines text) with
      | Ok translated_lines => Some (join [NL] translated_lines)
      | Raise _ => None
      end
  end.

(** *** [call_ocr_openrouter] *)

(** The four variables the function assigns on its way. *)
Record chain_vars : Type := mkVars {
  v_translated_text : option str;
  v_translation_method : option str;
  v_translation_model : option str;
  v_openrouter_error : option str
}.

(** Truthiness of [api_key] and of [translated_text]. *)
Definition truthy (t : option str) : bool :=
  match t with Some s => nonempty s | None => false end.

(** Step 2a, the body of [if api_key:]. *)
Definition text_llm_stage (img : image) (model : str) : chain_vars * list call :=
  let '(exit, tr) := post_with_retry TextPost (text_http img) in
  let on_exception (e : exn) :=
    let error :=
      match response exit with
      | Some r => if nonempty (body r) then body r else exn_text e
      | None => exn_text e
      end in
    mkVars None None None (Some error) in
  match raised exit with
  | Some e => (on_exception e, tr)
  | None =>
      match response exit with
      | Some r =>
          let content :=
            let? result := loads (body r) in
            let? choices := subscript result (py "choices") in
            let? choice := subscript0 choices in
            let? message := subscript choice (py "message") in
            rbind (subscript message (py "content")) as_str in
          match content with
          | Ok content =>
              let raw_response := strip content in
              if nonempty raw_response then
                (mkVars (Some (post_process_translation raw_response))
                        (Some (py "openrouter")) (Some model) None, tr)
              else
                (mkVars None None None (Some (py "Empty response from model")), tr)
          | Raise e => (on_exception e, tr)
          end
      | None => (mkVars None None None None, tr)
      end
  end.

(** Step 2b, the body of [if not translated_text:]; [None] is the
    [return None] of a failed offline translation. *)
Definition fallback_stage (img : image) (source_lang target_lang raw_text : str)
    (vars : chain_vars) : option chain_vars * list call :=
  if str_eqb source_lang target_lang then
    (Some (mkVars (Some raw_text) (Some (py "passthrough")) (Some (py "passthrough"))
             (v_openrouter_error vars)), [])
  else
    let translated_text := translate_offline img raw_text in
    if truthy translated_text then
      (Some (mkVars translated_text (Some (py "offline"))
               (Some (py "Helsinki-NLP/opus-mt-" ++ source_lang ++ py "-" ++ target_lang))
               (v_openrouter_error vars)), [EvOfflineMT])
    else (None, [EvOfflineMT]).

(** Step 3: the guard and the returned dictionary. *)
Definition build_result (raw_text : str) (vars : chain_vars) : result :=
  match v_translated_text vars with
  | Some translated_text =>
      if negb (nonempty translated_text) || negb (nonempty (strip translated_text))
      then RNone
      else RDoc (mkDocument raw_text translated_text
                   (build_text_structure translated_text) None
                   (v_translation_method vars) (v_translation_model vars)
                   (v_openrouter_error vars))
  | None => RNone
  end.

Definition call_ocr_openrouter (img : image) (source_lang target_lang : str)
    (api_key : option str) (model : str) : result * list call :=
  let '(raw_text, tr_ocr) := ocr_extract_text img source_lang in
  if negb (nonempty raw_text) then (RNone, tr_ocr)
  else
    let '(vars, tr_llm) :=
      if truthy api_key then text_llm_stage img model
      else (mkVars None None None (Some (py "No API key configured")), []) in
    if negb (truthy (v_translated_text vars)) then
      match fallback_stage img source_lang target_lang raw_text vars with
      | (Some vars', tr_fb) => (build_result raw_text vars', tr_ocr ++ tr_llm ++ tr_fb)
      | (None, tr_fb) => (RNone, tr_ocr ++ tr_llm ++ tr_fb)
      end
    else (build_result raw_text vars, tr_ocr ++ tr_llm).

End Chain.

Import Chain.

(* ===================================================================== *)
(** ** The layout renderer *)
(* ===================================================================== *)

Module Render.

Local Open Scope Z_scope.

Definition rgb : Type := (N * N * N)%type.

Inductive pp_align : Type := LEFT | CENTER | RIGHT.

(** A run of a paragraph.  [font_size] is in hundredths of a point, the
    unit in which python-pptx stores it; [Pt(n)] of a whole or half
    number of points and the [.pt] of a stored size are exact in it.
    (The range check python-pptx makes on a size is not modelled.) *)
Record run : Type := mkRun {
  run_text : str;
  font_bold : option bool;
  font_size : option Z;
  font_name : option str;
  font_color : option rgb
}.

Record paragraph : Type := mkParagraph {
  para_alignment : option pp_align;
  line_spacing : option Q;
  runs : list run
}.

(** Margins are in thousandths of an inch. *)
Record text_frame : Type := mkFrame {
  paragraphs : list paragraph;
  word_wrap : bool;
  margins : Z * Z * Z * Z
}.

Inductive shape : Type :=
| Picture (shape_left : Z) (picture : option image)
| TextBox (tf : text_frame).

(** [Pt(n)] for a whole number of points. *)
Definition Pt (n : Z) : Z := 100 * n.

Definition BLACK : rgb := (33, 33, 33)%N.
Definition RED : rgb := (211, 47, 47)%N.

Definition color_map : list (str * rgb) :=
  [(py "green", (46, 125, 50)%N); (py "blue", (25, 118, 210)%N);
   (py "red", RED); (py "orange", (245, 124, 0)%N);
   (py "black", BLACK); (py "grey", (117, 117, 117)%N);
   (py "gray", (117, 117, 117)%N)].

Definition color_map_get (name : str) : rgb :=
  match assoc str_eqb name color_map with
  | Some c => c
  | None => BLACK
  end.

Definition empty_paragraph : paragraph := mkParagraph None None [].

(** The frame of a new text box: one empty paragraph. *)
Definition new_frame : text_frame :=
  mkFrame [empty_paragraph] true (100, 100, 100, 100).

Fixpoint update_nth {A} (n : nat) (f : A -> A) (l : list A) : list A :=
  match l, n with
  | [], _ => []
  | x :: r, O => f x :: r
  | x :: r, S n' => x :: update_nth n' f r
  end.

(** The three-way test on [alignment]: a value that is not one of the
    two strings, of whatever type, gives the left alignment. *)
Definition pp_of (alignment : json) : pp_align :=
  if is_str (py "center") alignment then CENTER
  else if is_str (py "right") alignment then RIGHT
  else LEFT.

(** [set_para_style(p, alignment)]. *)
Definition set_para_style (alignment : json) (p : paragraph) : paragraph :=
  mkParagraph (Some (pp_of alignment)) (Some (115 # 100)%Q) (runs p).

(** [p.add_run()], with what is assigned to the new run. *)
Definition add_run (r : run) (p : paragraph) : paragraph :=
  mkParagraph (para_alignment p) (line_spacing p) (runs p ++ [r]).

(** [run.font.bold = v].  python-pptx removes the attribute for [None],
    stores a value that is equal to [True] or to [False], and raises a
    [TypeError] for any other. *)
Definition bold_attr (v : json) : res (option bool) :=
  match v with
  | JNull => Ok None
  | JBool b => Ok (Some b)
  | JNum l =>
      if is_one l then Ok (Some true)
      else if is_zero l then Ok (Some false)
      else Raise TypeError
  | _ => Raise TypeError
  end.

(** The colour of a run, from the name in lower case: red without bold
    is replaced by black, then the table is read. *)
Definition run_color (color_name : str) (is_bold : json) : rgb :=
  let color_name :=
    if str_eqb color_name (py "red") && negb (truth is_bold) then py "black"
    else color_name in
  color_map_get color_name.

(** The assignments to a new run, from [run.text = text] to
    [run.font.color.rgb = ...]: the run as they leave it, and the
    exception that stopped them, if one did. *)
Definition styled_run (base_font_size : Z) (text : str) (f : formatting)
  : run * option exn :=
  match bold_attr (bold f) with
  | Raise e => (mkRun text None None None None, Some e)
  | Ok is_bold =>
      let size := Some (Pt (base_font_size + size_relative f)) in
      match str_of (color f) with
      | Raise e => (mkRun text is_bold size (Some (py "Calibri")) None, Some e)
      | Ok c =>
          (mkRun text is_bold size (Some (py "Calibri"))
                 (Some (run_color (lower c) (bold f))), None)
      end
  end.

(** [write_run(para, text, formatting)]. *)
Definition write_run (base_font_size : Z) (text : str) (f : formatting)
    (p : paragraph) : paragraph * option exn :=
  let clean := rstrip_chars [NL] text in
  if negb (nonempty clean) then (p, None)
  else
    let '(r, e) := styled_run base_font_size clean f in
    (add_run r p, e).

Definition spacer_run (base_font_size : Z) (text : str) : run :=
  mkRun text None (Some (Pt base_font_size)) (Some (py "Calibri")) None.

(** State of the line-based loop: the paragraphs, the index of the
    paragraph [p] and [para_idx]. *)
Record line_state : Type := mkLineState {
  ls_paragraphs : list paragraph;
  ls_p : nat;
  ls_para_idx : nat
}.

(** [p = text_frame.paragraphs[0] if para_idx == 0 else
    text_frame.add_paragraph()], [para_idx += 1], [set_para_style]. *)
Definition next_paragraph (alignment : json) (st : line_state) : line_state :=
  let '(ps, p) :=
    if Nat.eqb (ls_para_idx st) 0 then (ls_paragraphs st, 0%nat)
    else (ls_paragraphs st ++ [empty_paragraph], List.length (ls_paragraphs st)) in
  mkLineState (update_nth p (set_para_style alignment) ps) p (ls_para_idx st + 1).

Definition on_p (f : paragraph -> paragraph) (st : line_state) : line_state :=
  mkLineState (update_nth (ls_p st) f (ls_paragraphs st)) (ls_p st) (ls_para_idx st).

(** The paragraph [p]. *)
Definition the_p (st : line_state) : paragraph :=
  nth (ls_p st) (ls_paragraphs st) empty_paragraph.

Definition CLOSERS : list str :=
  [py " "; py "."; py ","; py "!"; py "?"; py ":"; py ";"; py ")"; py "]"].

(** The loop over [active_blocks].  It stops at the first exception,
    with the paragraphs as they are then: a text that is not a string
    fails at [text.endswith], a format at the assignments of
    [write_run]. *)
Fixpoint write_blocks (base_font_size : Z) (alignment : json)
    (active_blocks : list block) (st : line_state) : line_state * option exn :=
  match active_blocks with
  | [] => (st, None)
  | blk :: rest =>
      match str_of (translated blk) with
      | Raise e => (st, Some e)
      | Ok text =>
          let is_last_block := match rest with [] => true | _ => false end in
          let ends_with_newline := endswith text [NL] in
          let text :=
            match rev (runs (the_p st)) with
            | last_run :: _ =>
                if negb (endswith_any (run_text last_run) [[SPACE]; [NL]])
                   && negb (startswith_any (lstrip_chars [NL] text) CLOSERS)
                then SPACE :: text else text
            | [] => text
            end in
          let '(p, e) := write_run base_font_size text (fmt blk) (the_p st) in
          let st := on_p (fun _ => p) st in
          match e with
          | Some e => (st, Some e)
          | None =>
              let st :=
                if ends_with_newline && negb is_last_block then
                  let ps := ls_paragraphs st ++ [empty_paragraph] in
                  mkLineState (update_nth (List.length (ls_paragraphs st))
                                 (set_para_style alignment) ps)
                              (List.length (ls_paragraphs st)) (ls_para_idx st + 1)
                else st in
              write_blocks base_font_size alignment rest st
          end
      end
  end.

Definition item_alignment (it : item) : json :=
  match it with LineItem _ a => a | BlockItem _ => JStr (py "left") end.
Definition item_line_blocks (it : item) : list block :=
  match it with LineItem bs _ => bs | BlockItem _ => [] end.

(** [all(r.text.strip() in ("", " ") for r in last_para.runs)] for the
    last paragraph of the frame. *)
Definition last_is_spacer (ps : list paragraph) : bool :=
  match rev ps with
  | last_para :: _ =>
      forallb (fun r => let t := strip (run_text r) in
                        str_eqb t [] || str_eqb t [SPACE]) (runs last_para)
  | [] => false
  end.

(** The body of [for line in structure] in the line-based branch. *)
Definition render_line (base_font_size : Z) (st : line_state) (line : item)
  : line_state * option exn :=
  let alignment := item_alignment line in
  let line_blocks := item_line_blocks line in
  match line_blocks with
  | [] =>
      if last_is_spacer (ls_paragraphs st) && Nat.ltb 0 (ls_para_idx st) then (st, None)
      else
        let st := next_paragraph alignment st in
        (on_p (add_run (spacer_run base_font_size [SPACE])) st, None)
  | _ =>
      let st := next_paragraph alignment st in
      let active_blocks := filter (fun b => truth (translated b)) line_blocks in
      write_blocks base_font_size alignment active_blocks st
  end.

(** [for line in structure], up to the first exception. *)
Fixpoint render_lines (base_font_size : Z) (st : line_state) (structure : list item)
  : line_state * option exn :=
  match structure with
  | [] => (st, None)
  | line :: rest =>
      match render_line base_font_size st line with
      | (st, None) => render_lines base_font_size st rest
      | (st, Some e) => (st, Some e)
      end
  end.

Definition item_translated (it : item) : json :=
  match it with BlockItem b => translated b | LineItem _ _ => JStr [] end.
Definition item_formatting (it : item) : option formatting :=
  match it with BlockItem b => Some (fmt b) | LineItem _ _ => None end.

Definition default_formatting : formatting :=
  mkFormatting (JBool false) 0 (JStr (py "black")) (JStr (py "left")).

(** The body of [for idx, block in enumerate(structure)] in the OCR
    branch; [idx = 0] exactly for the first entry.  A text that is
    true and not a string fails at [text.strip()]. *)
Definition render_ocr_block (base_font_size : Z) (first : bool)
    (ps : list paragraph) (blk : item) : list paragraph * option exn :=
  let text := item_translated blk in
  let formatting :=
    match item_formatting blk with Some f => f | None => default_formatting end in
  let '(ps, p) :=
    if first then (ps, 0%nat) else (ps ++ [empty_paragraph], List.length ps) in
  let ps := update_nth p (set_para_style (alignment formatting)) ps in
  if negb (truth text) then
    (update_nth p (add_run (spacer_run base_font_size [])) ps, None)
  else
    match str_of text with
    | Raise e => (ps, Some e)
    | Ok text =>
        if negb (nonempty (strip text)) then
          (update_nth p (add_run (spacer_run base_font_size [])) ps, None)
        else
          let '(r, e) := styled_run base_font_size (strip text) formatting in
          (update_nth p (add_run r) ps, e)
    end.

Fixpoint render_ocr (base_font_size : Z) (first : bool) (ps : list paragraph)
    (structure : list item) : list paragraph * option exn :=
  match structure with
  | [] => (ps, None)
  | blk :: rest =>
      match render_ocr_block base_font_size first ps blk with
      | (ps, None) => render_ocr base_font_size false ps rest
      | (ps, Some e) => (ps, Some e)
      end
  end.

Definition is_line_based (structure : list item) : bool :=
  match structure with
  | LineItem _ _ :: _ => true
  | _ => false
  end.

(** The frame of the text box that [apply_formatting_from_structure]
    adds to the slide, as the function leaves it, and the exception it
    raises, if it raises one. *)
Definition rendered_frame (structure : list item) (base_font_size : Z)
    (ocr_mode : bool) : text_frame * option exn :=
  let tf := new_frame in
  if is_line_based structure then
    let '(st, e) := render_lines base_font_size
                      (mkLineState (paragraphs tf) 0 0) structure in
    (mkFrame (ls_paragraphs st) (word_wrap tf) (margins tf), e)
  else if ocr_mode then
    let '(ps, e) := render_ocr base_font_size true (paragraphs tf) structure in
    (mkFrame ps (word_wrap tf) (margins tf), e)
  else (tf, None).

Definition apply_formatting_from_structure (slide : list shape)
    (structure : list item) (base_font_size : Z) (ocr_mode : bool)
  : list shape * option exn :=
  let '(tf, e) := rendered_frame structure base_font_size ocr_mode in
  (slide ++ [TextBox tf], e).

(** Every run of a frame. *)
Definition frame_runs (tf : text_frame) : list run :=
  flat_map runs (paragraphs tf).

End Render.

Import Render.

(* ===================================================================== *)
(** ** Font fit: [reduce_font_if_overflow] *)
(* ===================================================================== *)

Module FontFit.

Local Open Scope Z_scope.

(** [run.font.size] when it is truthy. *)
Definition size_set (r : run) : option Z :=
  match font_size r with
  | Some s => if Z.eqb s 0 then None else Some s
  | None => None
  end.

(** [p.text]. *)
Definition para_text (p : paragraph) : str := List.concat (map run_text (runs p)).

(** [any(p.text.strip() for p in text_frame.paragraphs)]. *)
Definition has_text (tf : text_frame) : bool :=
  existsb (fun p => nonempty (strip (para_text p))) (paragraphs tf).

(** The smallest size in use, from [smallest_font = 100] points. *)
Definition smallest_font (tf : text_frame) : Z :=
  fold_left (fun m r => match size_set r with Some s => Z.min m s | None => m end)
            (frame_runs tf) (Pt 100).

(** The overflow estimate.  [avg_chars_per_para > 60] is the comparison
    of [total_chars] with sixty times [max(num_paragraphs, 1)]. *)
Definition needs_reduction (tf : text_frame) : bool :=
  let num_paragraphs :=
    Z.of_nat (List.length (filter (fun p => nonempty (strip (para_text p))) (paragraphs tf))) in
  let total_chars :=
    Z.of_nat (list_sum (map (fun p => List.length (para_text p)) (paragraphs tf))) in
  Z.ltb 30 num_paragraphs || Z.ltb 2500 total_chars
  || (Z.ltb 20 num_paragraphs && Z.ltb (60 * Z.max num_paragraphs 1) total_chars).

(** [run.font.size.pt > min_font_size]. *)
Definition above_min (min_font_size : Z) (r : run) : bool :=
  match size_set r with
  | Some s => Z.ltb (Pt min_font_size) s
  | None => false
  end.

(** [run.font.size = Pt(max(min_font_size, current_size - 0.5))]. *)
Definition shrink_run (min_font_size : Z) (r : run) : run :=
  match size_set r with
  | Some s =>
      if Z.ltb (Pt min_font_size) s
      then mkRun (run_text r) (font_bold r) (Some (Z.max (Pt min_font_size) (s - 50)))
                 (font_name r) (font_color r)
      else r
  | None => r
  end.

Definition shrink_frame (min_font_size : Z) (tf : text_frame) : text_frame :=
  mkFrame (map (fun p => mkParagraph (para_alignment p) (line_spacing p)
                           (map (shrink_run min_font_size) (runs p)))
               (paragraphs tf))
          (word_wrap tf) (margins tf).

(** One pass of the body of [for iteration in range(max_iterations)]:
    [None] for each of the three [break]s. *)
Definition fit_step (min_font_size : Z) (tf : text_frame) : option text_frame :=
  if Z.leb (smallest_font tf) (Pt min_font_size) then None
  else if negb (needs_reduction tf) then None
  else if negb (existsb (above_min min_font_size) (frame_runs tf)) then None
  else Some (shrink_frame min_font_size tf).

(** The frames the loop produces, one for each pass that reduces. *)
Fixpoint fit_loop (min_font_size : Z) (max_iterations : nat) (tf : text_frame)
  : list text_frame :=
  match max_iterations with
  | O => []
  | S n =>
      match fit_step min_font_size tf with
      | None => []
      | Some tf' => tf' :: fit_loop min_font_size n tf'
      end
  end.

Definition fit_frame (max_iterations : nat) (min_font_size : Z) (tf : text_frame)
  : text_frame :=
  if negb (has_text tf) then tf
  else
    let fitted := last (fit_loop min_font_size max_iterations tf) tf in
    mkFrame (paragraphs fitted) true (50, 50, 80, 80).

Definition reduce_font_if_overflow (slide : list shape) (max_iterations : nat)
    (min_font_size : Z) : list shape :=
  map (fun sh => match sh with
                 | TextBox tf => TextBox (fit_frame max_iterations min_font_size tf)
                 | other => other
                 end) slide.

(** The size of the [i]-th run of a frame. *)
Definition size_at (i : nat) (tf : text_frame) : option Z :=
  match nth_error (frame_runs tf) i with
  | Some r => font_size r
  | None => None
  end.

Definition size_le (a b : option Z) : Prop :=
  match a, b with
  | Some x, Some y => x <= y
  | None, None => True
  | _, _ => False
  end.

(** A sequence in which each entry is at most the one before it. *)
Fixpoint non_increasing (l : list (option Z)) : Prop :=
  match l with
  | a :: (b :: _) as rest => size_le b a /\ non_increasing rest
  | _ => True
  end.

End FontFit.

Import FontFit.

(* ===================================================================== *)
(** ** The orchestrator: [process_ppt_slide] and [create_translated_ppt] *)
(* ===================================================================== *)

Module Pipeline.

(** A slide is the list of its shapes. *)
Definition slide : Type := list shape.

(** [has_image_on_left(slide)]: the first picture in the left half of
    the slide that can be opened ([shape.left < slide_width * 0.5]). *)
Fixpoint has_image_on_left (slide_width : Z) (shapes : slide) : option image :=
  match shapes with
  | [] => None
  | Picture shape_left picture :: rest =>
      if Z.ltb (2 * shape_left) slide_width then
        match picture with
        | Some img => Some img
        | None => has_image_on_left slide_width rest
        end
      else has_image_on_left slide_width rest
  | _ :: rest => has_image_on_left slide_width rest
  end.

Definition process_ppt_slide (slide_width : Z) (sl : slide)
    (source_lang target_lang provider : str) (api_key claude_api_key : option str)
    (model : str) : res result * list call :=
  match has_image_on_left slide_width sl with
  | None => (Ok RNone, [])
  | Some image =>
      if str_eqb provider (py "claude") then
        match create_vision_prompt source_lang target_lang with
        | Raise e => (Raise e, [])
        | Ok prompt =>
            let '(result, tr) := call_claude_vision image prompt api_key model in
            (Ok result, tr)
        end
      else if str_eqb provider (py "openrouter") then
        match create_vision_prompt source_lang target_lang with
        | Raise e => (Raise e, [])
        | Ok prompt =>
            let '(result, tr) := call_openrouter_vision image prompt api_key model in
            match result with
            | RNone =>
                let '(result, tr') :=
                  call_ocr_openrouter image source_lang target_lang None model in
                (Ok result, tr ++ tr')
            | _ => (Ok result, tr)
            end
        end
      else if str_eqb provider (py "ocr_free") then
        let '(result, tr) :=
          call_ocr_openrouter image source_lang target_lang api_key model in
        (Ok result, tr)
      else (Ok RNone, [])
  end.

(** One entry of [stats["slide_methods"]]. *)
Record slide_info : Type := mkInfo {
  si_slide : nat;
  si_method : option str;
  si_model : option str;
  si_error : option str
}.

Record stats : Type := mkStats {
  total_slides : nat;
  selected_slides_count : nat;
  processed_slides : nat;
  skipped_slides : nat;
  failed_slides : nat;
  slide_methods : list slide_info;
  warnings : list str;
  total_input_tokens : Z;
  total_output_tokens : Z;
  total_cost : Q
}.

(** The progress callback: what its [k]-th call answers, given its
    arguments. *)
Definition callback : Type := nat -> cb_args -> res unit.

(** What the run has changed so far. *)
Record state : Type := mkState {
  st_stats : stats;
  st_counter : nat;
  st_new_prs : list slide;
  st_calls : nat;
  st_trace : list event
}.

(** Computations of the run: they change the state and return or
    raise; the changes made before an exception stay. *)
Definition M (A : Type) : Type := state -> res A * state.

Definition ret {A} (a : A) : M A := fun st => (Ok a, st).
Definition bind {A B} (m : M A) (f : A -> M B) : M B :=
  fun st => match m st with
            | (Ok a, st') => f a st'
            | (Raise e, st') => (Raise e, st')
            end.
Definition raise {A} (e : exn) : M A := fun st => (Raise e, st).
Definition try_except {A} (m : M A) (handler : exn -> M A) : M A :=
  fun st => match m st with
            | (Ok a, st') => (Ok a, st')
            | (Raise e, st') => handler e st'
            end.
Definition modify_stats (f : stats -> stats) : M unit :=
  fun st => (Ok tt, mkState (f (st_stats st)) (st_counter st) (st_new_prs st)
                      (st_calls st) (st_trace st)).
Definition emit (tr : list event) : M unit :=
  fun st => (Ok tt, mkState (st_stats st) (st_counter st) (st_new_prs st)
                      (st_calls st) (st_trace st ++ tr)).
Definition get_state : M state := fun st => (Ok st, st).

Notation "x <- m ;; k" := (bind m (fun x => k))
  (at level 61, m at next level, right associativity).
Notation "m ;;; k" := (bind m (fun _ => k))
  (at level 61, right associativity).

(** [if progress_callback: await progress_callback(...)]. *)
Definition notify (cb : option callback) (args : cb_args) : M unit :=
  match cb with
  | None => ret tt
  | Some f =>
      fun st =>
        (f (st_calls st) args,
         mkState (st_stats st) (st_counter st) (st_new_prs st)
                 (S (st_calls st)) (st_trace st ++ [EvProgress args]))
  end.

Definition str_of_nat (n : nat) : str :=
  py (NilEmpty.string_of_uint (Nat.to_uint n)).

(** ["cancelled by user" in str(e).lower()]. *)
Definition is_cancellation (e : exn) : bool :=
  contains (lower (exn_text e)) (py "cancelled by user").

(** Claude prices in dollars per million tokens, by model name. *)
Definition prices (model : str) : Q * Q :=
  if str_eqb model (py "claude-3-haiku-20240307") then (1, 5)%Q else (3, 15)%Q.

Definition slide_cost (model : str) (u : usage) : Q :=
  let '(input_price, output_price) := prices model in
  (inject_Z (input_tokens u) / 1000000 * input_price
   + inject_Z (output_tokens u) / 1000000 * output_price)%Q.

Definition add_counts (processed skipped failed : nat) (s : stats) : stats :=
  mkStats (total_slides s) (selected_slides_count s)
          (processed_slides s + processed) (skipped_slides s + skipped)
          (failed_slides s + failed)
          (slide_methods s) (warnings s) (total_input_tokens s)
          (total_output_tokens s) (total_cost s).

Definition add_usage (provider model : str) (u : usage) (s : stats) : stats :=
  mkStats (total_slides s) (selected_slides_count s)
          (processed_slides s) (skipped_slides s) (failed_slides s)
          (slide_methods s) (warnings s)
          (total_input_tokens s + input_tokens u)%Z
          (total_output_tokens s + output_tokens u)%Z
          (if str_eqb provider (py "claude")
           then (total_cost s + slide_cost model u)%Q else total_cost s).

Definition add_method (info : slide_info) (s : stats) : stats :=
  mkStats (total_slides s) (selected_slides_count s)
          (processed_slides s) (skipped_slides s) (failed_slides s)
          (slide_methods s ++ [info]) (warnings s) (total_input_tokens s)
          (total_output_tokens s) (total_cost s).

Definition add_warning (w : str) (s : stats) : stats :=
  mkStats (total_slides s) (selected_slides_count s)
          (processed_slides s) (skipped_slides s) (failed_slides s)
          (slide_methods s) (warnings s ++ [w]) (total_input_tokens s)
          (total_output_tokens s) (total_cost s).

(** The parameters of one run that do not change.  [slide_width] is
    the width [has_image_on_left] works with (9144000 unless the part
    of a slide has the attribute the function looks for) and
    [prs_slide_width] is [prs.slide_width], which the copy of the
    picture reads. *)
Record run_params : Type := mkParams {
  slide_width : Z;
  prs_slide_width : Z;
  selected_slides : list nat;
  source_lang : str;
  target_lang : str;
  provider : str;
  api_key : option str;
  claude_api_key : option str;
  model : str;
  base_font_size : Z;
  progress_callback : option callback
}.

Definition progress (p : run_params) (st : state) (status : string)
    (phase : option string) (idx : nat) (error : option str) : cb_args :=
  mkArgs (st_counter st) (List.length (selected_slides p)) (py status)
         (option_map py phase) (Some (idx + 1)%nat) error.

(** The slide entry recorded for a processed slide. *)
Definition method_info (p : run_params) (idx : nat) (d : document) : slide_info :=
  if str_eqb (provider p) (py "ocr_free") then
    mkInfo (idx + 1)
           (Some (match translation_method d with Some m => m | None => py "unknown" end))
           (translation_model d) (openrouter_error d)
  else if str_eqb (provider p) (py "claude") then
    mkInfo (idx + 1) (Some (py "claude_vision")) (Some (model p)) None
  else if str_eqb (provider p) (py "openrouter-vision") then
    mkInfo (idx + 1) (Some (py "openrouter_vision")) (Some (model p)) None
  else mkInfo (idx + 1) None None None.

(** [new_slide] becomes [sl] in [new_prs], where it is the last
    slide. *)
Definition set_new_slide (sl : slide) (st : state) : state :=
  mkState (st_stats st) (st_counter st) (removelast (st_new_prs st) ++ [sl])
          (st_calls st) (st_trace st).

(** The text box and the font fit on [new_slide].  When the renderer
    raises, the slide keeps the text box as far as it was written and
    the font fit is not reached. *)
Definition render_new_slide (p : run_params) (d : document) : M unit :=
  fun st =>
    let ocr_mode := str_eqb (provider p) (py "ocr_free") in
    let new_slide := last (st_new_prs st) [] in
    match apply_formatting_from_structure new_slide (structure d)
            (base_font_size p) ocr_mode with
    | (sl, Some e) => (Raise e, set_new_slide sl st)
    | (sl, None) => (Ok tt, set_new_slide (reduce_font_if_overflow sl 20 6) st)
    end.

(** The three statements that record a failed slide. *)
Definition record_failure (idx : nat) (error_msg : str) : M unit :=
  modify_stats (add_counts 0 0 1) ;;;
  modify_stats (add_warning (py "Slide " ++ str_of_nat (idx + 1) ++ py ": " ++ error_msg)) ;;;
  modify_stats (add_method (mkInfo (idx + 1) (Some (py "unknown")) None (Some error_msg))).

Definition has_structure (r : result) : option document :=
  match r with
  | RDoc d => match structure d with [] => None | _ => Some d end
  | _ => None
  end.

(** From [stats["processed_slides"] += 1] to
    [stats["slide_methods"].append(slide_info)]: the counter, the
    tokens and the cost, the entry of the slide. *)
Definition count_processed (p : run_params) (idx : nat) (d : document) : M unit :=
  modify_stats (add_counts 1 0 0) ;;;
  emit [EvCounted idx d] ;;;
  match doc_usage d with
  | Some u => modify_stats (add_usage (provider p) (model p) u)
  | None => ret tt
  end ;;;
  modify_stats (add_method (method_info p idx d)).

(** The body of the [try] for one slide. *)
Definition try_body (p : run_params) (idx : nat) (sl : slide) : M unit :=
  st <- get_state ;;
  notify (progress_callback p) (progress p st "processing"%string (Some "ocr"%string) idx None) ;;;
  result <- (fun st =>
               let '(r, tr) := process_ppt_slide (slide_width p) sl (source_lang p)
                                 (target_lang p) (provider p) (api_key p)
                                 (claude_api_key p) (model p) in
               (r, mkState (st_stats st) (st_counter st) (st_new_prs st)
                     (st_calls st) (st_trace st ++ map Called tr))) ;;
  match has_structure result with
  | Some d =>
      notify (progress_callback p) (progress p st "processing"%string (Some "render"%string) idx None) ;;;
      render_new_slide p d ;;;
      count_processed p idx d ;;;
      (if str_eqb (provider p) (py "ocr_free") then
         st' <- get_state ;;
         notify (progress_callback p)
           (mkArgs (idx + 1) (total_slides (st_stats st')) (py "processing")
                   (Some (py "slide_method")) None None)
       else ret tt) ;;;
      notify (progress_callback p) (progress p st "completed"%string None idx None)
  | None =>
      let error_msg :=
        match result with
        | RError msg => msg
        | _ => py "No result from API (unknown error)"
        end in
      record_failure idx error_msg ;;;
      notify (progress_callback p) (progress p st "failed"%string None idx (Some error_msg))
  end.

(** The [except Exception as e] of the slide. *)
Definition on_exception (p : run_params) (idx : nat) (e : exn) : M unit :=
  if is_cancellation e then raise e
  else
    st <- get_state ;;
    record_failure idx (exn_text e) ;;;
    notify (progress_callback p) (progress p st "failed"%string None idx (Some (exn_text e))).

(** What [shape.image.blob] or [add_picture] raises for a picture
    whose image does not open. *)
Definition COPY_ERROR : exn := OtherError (py "cannot identify image file").

(** The loop under [# Copy image]: the first picture in the left half
    of [prs.slide_width] is added to the new slide, and the loop ends
    there.  Nothing catches the exception of a picture that does not
    open. *)
Definition copy_image (prs_slide_width : Z) (sl : slide) : res (list shape) :=
  match List.find (fun sh => match sh with
                             | Picture shape_left _ => Z.ltb (2 * shape_left) prs_slide_width
                             | _ => false
                             end) sl with
  | Some (Picture shape_left (Some img)) => Ok [Picture shape_left (Some img)]
  | Some _ => Raise COPY_ERROR
  | None => Ok []
  end.

(** [new_prs.slides.add_slide(blank_layout)], then the copy of the
    picture, before the [try] of the slide. *)
Definition add_new_slide (p : run_params) (sl : slide) : M unit :=
  fun st =>
    let st := mkState (st_stats st) (st_counter st) (st_new_prs st ++ [[]])
                      (st_calls st) (st_trace st) in
    match copy_image (prs_slide_width p) sl with
    | Ok shapes => (Ok tt, set_new_slide shapes st)
    | Raise e => (Raise e, st)
    end.

(** The body of [for idx, slide in enumerate(prs.slides)]. *)
Definition slide_step (p : run_params) (idx : nat) (sl : slide) : M unit :=
  if negb (existsb (Nat.eqb idx) (selected_slides p)) then
    modify_stats (add_counts 0 1 0)
  else
    (fun st => (Ok tt, mkState (st_stats st) (st_counter st + 1) (st_new_prs st)
                         (st_calls st) (st_trace st))) ;;;
    st <- get_state ;;
    notify (progress_callback p) (progress p st "processing"%string None idx None) ;;;
    match has_image_on_left (slide_width p) sl with
    | None =>
        modify_stats (add_counts 0 1 0) ;;;
        notify (progress_callback p) (progress p st "skipped"%string None idx None)
    | Some _ =>
        add_new_slide p sl ;;;
        try_except (try_body p idx sl) (on_exception p idx)
    end.

Fixpoint slides_loop (p : run_params) (idx : nat) (slides : list slide) : M unit :=
  match slides with
  | [] => ret tt
  | sl :: rest => slide_step p idx sl ;;; slides_loop p (idx + 1) rest
  end.

Definition initial_stats (p : run_params) (prs : list slide) : stats :=
  mkStats (List.length prs) (List.length (selected_slides p)) 0 0 0 [] [] 0 0 0.

Definition initial_state (p : run_params) (prs : list slide) : state :=
  mkState (initial_stats p prs) 0 [] 0 [].

(** [create_translated_ppt]: the outcome of the run, with the state it
    leaves (the statistics, the new presentation, the trace). *)
Definition create_translated_ppt (p : run_params) (prs : list slide) : res unit * state :=
  slides_loop p 0 prs (initial_state p prs).

End Pipeline.

Import Pipeline.

(* ===================================================================== *)
(** ** Language detection for the preview *)
(* ===================================================================== *)

Module Detect.

(** [detect(text)] of langdetect: the code it answers, or [None] when
    it raises its [LangDetectException]. *)
Definition detector : Type := str -> option str.

(** [{"es", "fr", "it", "en"}]. *)
Definition DETECTED : list str := [py "es"; py "fr"; py "it"; py "en"].

Definition detect_language_from_image (detect : detector) (img : image)
  : option str * list call :=
  let '(text, tr) := ocr_extract_text img (py "es") in
  if negb (nonempty text) || Nat.ltb (List.length (strip text)) 20 then (None, tr)
  else
    match detect text with
    | None => (None, tr)
    | Some lang =>
        if existsb (str_eqb lang) DETECTED then (Some lang, tr) else (None, tr)
    end.

(** The loop of [detect_language_from_presentation], from the slide
    number [idx] on. *)
Fixpoint detect_from (detect : detector) (slide_width : Z) (selected_slides : list nat)
    (idx : nat) (slides : list slide) : option str * list call :=
  match slides with
  | [] => (None, [])
  | sl :: rest =>
      let continue := detect_from detect slide_width selected_slides (idx + 1) rest in
      if negb (existsb (Nat.eqb idx) selected_slides) then continue
      else
        match has_image_on_left slide_width sl with
        | None => continue
        | Some image =>
            let '(lang, tr) := detect_language_from_image detect image in
            if truthy lang then (lang, tr)
            else let '(found, tr') := continue in (found, tr ++ tr')
        end
  end.

Definition detect_language_from_presentation (detect : detector) (slide_width : Z)
    (prs : list slide) (selected_slides : list nat) : option str * list call :=
  detect_from detect slide_width selected_slides 0 prs.

End Detect.

Import Detect.

(* ===================================================================== *)
(** ** Vocabulary of the statements *)
(* ===================================================================== *)

Module Spec.

(** The attempt at which the retry loop stops: the first one, from
    [attempt] on, that is not answered by a 429, and at the latest the
    one [budget] attempts later. *)
Fixpoint stop_attempt (http : nat -> http_reply) (attempt budget : nat) : nat :=
  match budget with
  | O => attempt
  | S b =>
      match http attempt with
      | Response r =>
          if N.eqb (status_code r) 429%N then stop_attempt http (S attempt) b
          else attempt
      | PostRaises _ => attempt
      end
  end.

(** The posts and waits of a call that is retried from [first] up to
    [last]: each retried post is followed by a wait of two to the power
    of the number of the retry it precedes. *)
Definition retried (site : post_site) (first count : nat) : list call :=
  flat_map (fun i => [EvPost site i; EvSleep (2 ^ N.of_nat (i + 1))%N])
           (seq first count).



(** The dictionaries of the slides counted in [processed_slides]. *)
Definition counted (tr : list event) : list document :=
  flat_map (fun e => match e with EvCounted _ d => [d] | _ => [] end) tr.

(** The price table as the specification gives it: one and five
    dollars per million tokens for the haiku model, three and fifteen
    otherwise. *)
Definition claimed_prices (model : str) : Q * Q :=
  if str_eqb model (py "claude-3-haiku-20240307") then (1, 5)%Q else (3, 15)%Q.

(** The cost of one slide by the documented formula, from the token
    counts of the slide. *)
Definition claimed_slide_cost (model : str) (input_tokens output_tokens : Z) : Q :=
  (inject_Z input_tokens / 1000000 * fst (claimed_prices model)
   + inject_Z output_tokens / 1000000 * snd (claimed_prices model))%Q.

(** The token counts the Anthropic client reports for its [k]-th call
    on a picture, whatever becomes of the text of the answer. *)
Definition reported_tokens (img : image) (k : nat) (p : prompt) : option (Z * Z) :=
  match anthropic_says img k p with
  | Message _ input_tokens output_tokens => Some (input_tokens, output_tokens)
  | _ => None
  end.

(** The sum of the three counters. *)
Definition accounted (s : stats) : nat :=
  (processed_slides s + skipped_slides s + failed_slides s)%nat.

(** A progress callback that raises nothing but cancellations. *)
Definition only_cancels (cb : option callback) : Prop :=
  match cb with
  | None => True
  | Some f => forall k args e, f k args = Raise e -> is_cancellation e = true
  end.

(** [m] keeps [I], whether it returns or raises. *)
Definition preserves {A} (I : state -> Prop) (m : M A) : Prop :=
  forall st, I st -> I (snd (m st)).

(** A computation started in [P] ends in [Q] when it returns and in
    [E e] when it raises [e]. *)
Definition ends_in {A} (P : state -> Prop) (m : M A) (Q : state -> Prop)
    (E : exn -> state -> Prop) : Prop :=
  forall st, P st ->
    match m st with
    | (Ok _, st') => Q st'
    | (Raise e, st') => E e st'
    end.

(** The three counters add up to [k], out of [n] slides in total. *)
Definition counts_to (n k : nat) (st : state) : Prop :=
  accounted (st_stats st) = k /\ total_slides (st_stats st) = n.

(** A scanning step that did not run out of budget and that returns
    less than [n] characters. *)
Definition scan_ok {A} (r : scan A) (n : nat) : Prop :=
  r <> Deep /\ forall v rest, r = Got v rest -> (List.length rest < n)%nat.

(** The two characters the walk pushes on its stack. *)
Definition is_open (c : char) : Prop := c = OPEN_BRACE \/ c = OPEN_BRACKET.

(** The calls of the adapters in a trace of the pipeline. *)
Definition calls_of (tr : list event) : list call :=
  flat_map (fun e => match e with Called c => [c] | _ => [] end) tr.





(** A block of the answer and the block made from it: the values of
    the answer under "text", "bold", "color" and "alignment", as they
    are, or the defaults. *)
Definition block_entry (default_alignment : json) (blk : json) (b : block) : Prop :=
  get blk (py "text") (JStr []) = Ok (translated b)
  /\ original b = translated b
  /\ get blk (py "bold") (JBool false) = Ok (bold (fmt b))
  /\ get blk (py "color") (JStr (py "black")) = Ok (color (fmt b))
  /\ get blk (py "alignment") default_alignment = Ok (alignment (fmt b))
  /\ has_emoji b = true.

(** A line of the answer and the entry of the structure made from it:
    a line entry with the alignment of the line ("left" when the line
    names none) and one block for each entry of its "blocks" array, in
    the same order. *)
Definition line_entry (line : json) (it : item) : Prop :=
  exists bs al,
    it = LineItem bs al
    /\ get line (py "alignment") (JStr (py "left")) = Ok al
    /\ exists blocks,
         rbind (get line (py "blocks") (JArr [])) iter = Ok blocks
         /\ Forall2 (block_entry al) blocks bs.

(** The answers the parser reads to the end: every line is an object
    whose "blocks", when it has the key, can be iterated over and
    holds objects, and no "size" is a list or an object. *)
Definition answer_block (blk : json) : Prop :=
  exists kvs, blk = JObj kvs
              /\ (forall l, lookup (py "size") kvs <> Some (JArr l))
              /\ (forall m, lookup (py "size") kvs <> Some (JObj m)).
Definition answer_line (line : json) : Prop :=
  exists kvs blocks,
    line = JObj kvs
    /\ rbind (get line (py "blocks") (JArr [])) iter = Ok blocks
    /\ Forall answer_block blocks.

(** The sizes a block of an answer can get from [SIZE_MAP]. *)
Definition size_in_range (f : formatting) : Prop :=
  (-4 <= size_relative f <= 7)%Z.

(** The seconds a trace waits in all, and the number of its posts. *)
Definition waited (tr : list call) : N :=
  fold_right (fun c acc => match c with EvSleep s => (s + acc)%N | _ => acc end) 0%N tr.
Definition posts (tr : list call) : nat :=
  List.length (filter (fun c => match c with EvPost _ _ => true | _ => false end) tr).

(** A text without its whitespace. *)
Definition squeeze (s : str) : str := filter (fun c => negb (isspace c)) s.


(** An entry without text, and a structure in which no two such entries
    follow each other. *)
Definition is_blank_item (it : item) : bool := negb (truth (item_translated it)).
Fixpoint no_adjacent_blanks (s : list item) : Prop :=
  match s with
  | a :: (b :: _) as rest =>
      (is_blank_item a && is_blank_item b = false) /\ no_adjacent_blanks rest
  | _ => True
  end.

(** An entry as the OCR chain makes it: a bare block in the default
    format, its text stripped. *)
Definition is_plain_block (it : item) : Prop :=
  exists b, it = BlockItem b
            /\ fmt b = default_formatting
            /\ original b = translated b
            /\ (exists t, translated b = JStr t /\ strip t = t)
            /\ has_emoji b = false.

(** A picture [has_image_on_left] accepts: in the left half of the
    slide, and one that opens. *)
Definition usable_picture (slide_width : Z) (sh : shape) : bool :=
  match sh with
  | Picture shape_left (Some _) => Z.ltb (2 * shape_left) slide_width
  | _ => false
  end.

(** A run without its size, and what a text frame holds apart from the
    sizes of its runs. *)
Definition unsized (r : run) : run :=
  mkRun (run_text r) (font_bold r) None (font_name r) (font_color r).
Definition frame_layout (tf : text_frame)
  : list (option pp_align * option Q * list run) :=
  map (fun p => (para_alignment p, line_spacing p, map unsized (runs p)))
      (paragraphs tf).

(** The two quantities of the overflow estimate. *)
Definition num_paragraphs (tf : text_frame) : nat :=
  List.length (filter (fun p => nonempty (strip (para_text p))) (paragraphs tf)).
Definition total_chars (tf : text_frame) : nat :=
  list_sum (map (fun p => List.length (para_text p)) (paragraphs tf)).

(** The service a call goes to. *)
Definition is_claude_call (c : call) : bool :=
  match c with EvClaude _ => true | _ => false end.
Definition is_local_call (c : call) : bool :=
  match c with EvTesseract | EvOfflineMT => true | _ => false end.

(** The language codes the prompt builders know. *)
Definition supported_language (code : str) : bool :=
  existsb (str_eqb code) [py "fr"; py "es"; py "it"; py "en"].



(** One warning for each failed slide, and one entry of
    [slide_methods] for each slide counted processed or failed. *)
Definition books_inv (st : state) : Prop :=
  List.length (warnings (st_stats st)) = failed_slides (st_stats st)
  /\ List.length (slide_methods (st_stats st))
     = (processed_slides (st_stats st) + failed_slides (st_stats st))%nat.

(** The arguments of the calls of the progress callback, in order. *)
Definition progress_args (tr : list event) : list cb_args :=
  flat_map (fun e => match e with EvProgress a => [a] | _ => [] end) tr.

(** No call of the callback made so far was answered by a
    cancellation. *)
Definition no_cancellation_seen (f : callback) (st : state) : Prop :=
  st_calls st = List.length (progress_args (st_trace st))
  /\ forall k args e,
       nth_error (progress_args (st_trace st)) k = Some args ->
       f k args = Raise e -> is_cancellation e = false.

(** A slide that is translated: selected, with a picture on the left. *)
Definition is_translated (p : run_params) (idx : nat) (sl : slide) : bool :=
  existsb (Nat.eqb idx) (selected_slides p)
  && match has_image_on_left (slide_width p) sl with
     | Some _ => true
     | None => false
     end.

(** The number of such slides among [slides], numbered from [idx]. *)
Fixpoint translated_count (p : run_params) (idx : nat) (slides : list slide) : nat :=
  match slides with
  | [] => 0
  | sl :: rest =>
      ((if is_translated p idx sl then 1 else 0) + translated_count p (idx + 1) rest)%nat
  end.

(** [a] slides skipped and [b] slides in the new presentation. *)
Definition slides_so_far (a b : nat) (st : state) : Prop :=
  skipped_slides (st_stats st) = a /\ List.length (st_new_prs st) = b.

End Spec.

Import Spec.

(* ===================================================================== *)
(** ** Concrete inputs *)
(* ===================================================================== *)

Module Inputs.

Definition no_anthropic : nat -> prompt -> claude_reply :=
  fun _ _ => ApiException (py "Connection error").
Definition no_http : nat -> http_reply := fun _ => PostRaises ConnectionError.

Definition prompt_fr_en : prompt := mkPrompt VisionTemplate (py "French") (py "English").
Definition compact_fr_en : prompt := mkPrompt CompactTemplate (py "French") (py "English").

(** A complete answer in the "lines" schema. *)
Definition good_answer : str :=
  pyq "{'lines':[{'alignment':'left','blocks':[{'text':'Hello','bold':false,'color':'black','size':'normal','alignment':'left'}]}]}".

(** An answer cut inside the text of its first block. *)
Definition cut_answer : str :=
  pyq "{'lines':[{'alignment':'left','blocks':[{'text':'Bonjour".

(** The Anthropic client answers the first call with the cut text and
    would answer any later call with the complete one. *)
Definition image_cut_then_good : image :=
  mkImage (fun k _ => match k with
                      | O => Message cut_answer 1200 8192
                      | S _ => Message good_answer 1200 90
                      end)
          no_http no_http (Ok (py "Bonjour")) None.

(** An object cut inside the string value of its second member, the
    object it is cut from, and what the repair makes of it. *)
Definition whole_object : str := pyq "{'a':1,'b':'xyz'}".
Definition cut_object : str := pyq "{'a':1,'b':'xyz".
Definition repaired_object : str := pyq "{'a':1,'b':'}".

(** An object cut right after its first member, whose value is a
    number, and an object cut inside an array of numbers. *)
Definition cut_after_number : str := pyq "{'a':1".
Definition cut_in_numbers : str := pyq "{'a':1,'b':[1,2".

(** An answer cut between two blocks, and its repair. *)
Definition cut_between_blocks : str :=
  pyq "{'lines':[{'alignment':'left','blocks':[{'text':'a'},{".
Definition closed_between_blocks : str :=
  pyq "{'lines':[{'alignment':'left','blocks':[{'text':'a'}]}]}".

(** Tesseract reads two lines, the first without final punctuation. *)
Definition two_lines : str := py "Hello world" ++ [NL] ++ py "and more".
Definition image_two_lines : image :=
  mkImage no_anthropic no_http no_http (Ok two_lines) None.

Definition ok_body (content : string) : str :=
  pyq "{'choices':[{'message':{'content':'" ++ py content ++ pyq "'}}]}".

(** The text endpoint answers 200 with a translation; the offline
    translator is available. *)
Definition image_llm_answers : image :=
  mkImage no_anthropic no_http
          (fun _ => Response (mkResponse 200 (ok_body "Hello there")))
          (Ok (py "Hello there")) (Some (fun line => Ok (py "offline:" ++ line))).

(** The same picture when no service answers over HTTP. *)
Definition image_offline_only : image :=
  mkImage no_anthropic no_http no_http
          (Ok (py "Hello there")) (Some (fun line => Ok (py "offline:" ++ line))).

(** The vision endpoint answers 500. *)
Definition image_vision_500 : image :=
  mkImage no_anthropic
          (fun _ => Response (mkResponse 500 (py "Internal Server Error")))
          no_http (Ok (py "Bonjour tout le monde"))
          (Some (fun line => Ok (py "offline:" ++ line))).

(** The vision endpoint answers 200 with a text that is not JSON. *)
Definition image_vision_garbled : image :=
  mkImage no_anthropic
          (fun _ => Response (mkResponse 200 (ok_body "{\'lines\': [")))
          no_http (Ok (py "Bonjour tout le monde"))
          (Some (fun line => Ok (py "offline:" ++ line))).

(** The vision endpoint answers 200 with JSON of neither schema. *)
Definition image_vision_other_json : image :=
  mkImage no_anthropic
          (fun _ => Response (mkResponse 200 (ok_body "{}")))
          no_http (Ok (py "Bonjour tout le monde"))
          (Some (fun line => Ok (py "offline:" ++ line))).

(** The Anthropic client answers every call with the complete text. *)
Definition image_claude_good : image :=
  mkImage (fun _ _ => Message good_answer 1200 90) no_http no_http
          (Ok (py "Bonjour")) None.

(** Thirty-one lines of one red block each, bold on the odd lines. *)
Definition red_block (is_bold : bool) : block :=
  mkBlock (JStr (py "Attention")) (JStr (py "Attention"))
          (mkFormatting (JBool is_bold) 0 (JStr (py "Red")) (JStr (py "left"))) true.
Definition red_lines : list item :=
  flat_map (fun k => [LineItem [red_block (Nat.odd k)] (JStr (py "left"))]) (seq 0 31).

(** Thirty-one lines of one block of the size "tiny", four points
    under the base size. *)
Definition tiny_block : block :=
  mkBlock (JStr (py "note")) (JStr (py "note"))
          (mkFormatting (JBool false) (-4) (JStr (py "black")) (JStr (py "left"))) true.
Definition tiny_lines : list item :=
  flat_map (fun k => [LineItem [tiny_block] (JStr (py "left"))]) (seq 0 31).

Definition slide_of (img : image) : list shape := [Picture 0 (Some img)].

Definition SLIDE_WIDTH : Z := 9144000.

(** The parameters of a run over a one-slide presentation. *)
Definition run_with (provider source_lang target_lang : string)
    (api_key : option str) (cb : option callback) : run_params :=
  mkParams SLIDE_WIDTH SLIDE_WIDTH [0%nat] (py source_lang) (py target_lang) (py provider)
           api_key None (py "google/gemini-flash-1.5") 11 cb.

(** A run with the provider [claude] over three slides, the last of
    which has no picture. *)
Definition claude_run : run_params :=
  mkParams SLIDE_WIDTH SLIDE_WIDTH [0; 1; 2]%nat (py "fr") (py "en") (py "claude")
           (Some (py "sk-ant")) None (py "claude-sonnet-4-20250514") 11 None.
Definition claude_slides : list (list shape) :=
  [slide_of image_claude_good; slide_of image_claude_good; []].

(** A progress callback whose "completed" notification fails (the
    database of the caller is locked); every other call returns. *)
Definition cb_completed_fails : callback :=
  fun _ args =>
    if str_eqb (cb_status args) (py "completed")
    then Raise (OtherError (py "database is locked"))
    else Ok tt.

(** The statuses of the progress notifications of a trace. *)
Definition notified (tr : list event) : list str :=
  flat_map (fun e => match e with EvProgress a => [cb_status a] | _ => [] end) tr.

(** The lines of the complete answer and the answer as [json.loads]
    returns it. *)
Definition good_lines : list json :=
  [JObj [(py "alignment", JStr (py "left"));
         (py "blocks",
          JArr [JObj [(py "text", JStr (py "Hello")); (py "bold", JBool false);
                      (py "color", JStr (py "black")); (py "size", JStr (py "normal"));
                      (py "alignment", JStr (py "left"))]])]].
Definition good_result : json := JObj [(py "lines", JArr good_lines)].

(** The lines of an answer whose values are not of the types the
    prompt asks for: the alignment of the line is null, the bold of the
    first block is a number and the text of the second is one. *)
Definition odd_lines : list json :=
  [JObj [(py "alignment", JNull);
         (py "blocks",
          JArr [JObj [(py "text", JStr (py "Hello")); (py "bold", JNum (py "1"));
                      (py "color", JStr (py "Red"))];
                JObj [(py "text", JNum (py "42"))]])]].
Definition odd_document : document :=
  vision_document
    [LineItem [mkBlock (JStr (py "Hello")) (JStr (py "Hello"))
                 (mkFormatting (JNum (py "1")) 0 (JStr (py "Red")) JNull) true;
               mkBlock (JNum (py "42")) (JNum (py "42"))
                 (mkFormatting (JBool false) 0 (JStr (py "black")) JNull) true]
       JNull].

(** An answer whose line has a null alignment, and a picture for which
    the Anthropic client gives it. *)
Definition null_alignment_answer : str :=
  pyq "{'lines':[{'alignment':null,'blocks':[{'text':'Hello'}]}]}".
Definition image_null_alignment : image :=
  mkImage (fun _ _ => Message null_alignment_answer 1200 90) no_http no_http
          (Ok (py "Bonjour")) None.

(** A complete answer in the legacy "blocks" schema. *)
Definition legacy_result : json :=
  JObj [(py "blocks",
         JArr [JObj [(py "text", JStr (py "Hello")); (py "bold", JBool true);
                     (py "size", JStr (py "large"))]])].

(** The dictionaries [_parse_vision_response] makes of the two. *)
Definition good_document : document :=
  vision_document
    [LineItem [mkBlock (JStr (py "Hello")) (JStr (py "Hello"))
                 (mkFormatting (JBool false) 0 (JStr (py "black")) (JStr (py "left")))
                 true] (JStr (py "left"))].
Definition legacy_document : document :=
  vision_document
    [BlockItem (mkBlock (JStr (py "Hello")) (JStr (py "Hello"))
                  (mkFormatting (JBool true) 3 (JStr (py "black")) (JStr (py "left")))
                  true)].

(** The Anthropic client answers with a text cut between two blocks,
    which the repair closes; the dictionary made of the repaired text. *)
Definition image_cut_repairable : image :=
  mkImage (fun _ _ => Message cut_between_blocks 1200 8192)
          no_http no_http (Ok (py "a")) None.
Definition repaired_document : document :=
  vision_document
    [LineItem [mkBlock (JStr (py "a")) (JStr (py "a"))
                 (mkFormatting (JBool false) 0 (JStr (py "black")) (JStr (py "left")))
                 true] (JStr (py "left"))].

(** A slide whose first picture on the left does not open and whose
    second does. *)
Definition broken_then_good : list shape :=
  [Picture 0 None; Picture 0 (Some image_claude_good)].

(** A slide in German: a code the prompt builders do not know. *)
Definition image_german : image :=
  mkImage no_anthropic no_http no_http (Ok (py "Guten Tag zusammen")) None.

(** A progress callback that answers its second call with the
    cancellation of the router, and a run with it. *)
Definition cb_cancels_second : callback :=
  fun k _ =>
    if Nat.eqb k 1 then Raise (OtherError (py "Translation cancelled by user"))
    else Ok tt.
Definition cancelled_run : run_params :=
  run_with "claude" "fr" "en" (Some (py "sk-ant")) (Some cb_cancels_second).

(** A detector that answers French for every text. *)
Definition always_french : str -> option str := fun _ => Some (py "fr").

(** The run of one slide whose "completed" notification fails. *)
Definition locked_run : run_params :=
  run_with "ocr_free" "en" "en" None (Some cb_completed_fails).

End Inputs.

Import Inputs.

(* ===================================================================== *)
(** * Properties *)
(* ===================================================================== *)

Unset Implicit Arguments.

Lemma str_eqb_eq (a b : str) : str_eqb a b = true <-> a = b.
Proof.
  revert b; induction a as [|x a IH]; intros [|y b]; simpl;
    try (split; [discriminate | discriminate]); try tauto.
  rewrite andb_true_iff, N.eqb_eq, IH.
  split; [intros [-> ->]; reflexivity | intros H; injection H; auto].
Qed.

Lemma str_eqb_refl (a : str) : str_eqb a a = true.
Proof. apply str_eqb_eq; reflexivity. Qed.

Example splitlines_ex :
  splitlines (py "ab" ++ [10; 10] ++ py "c" ++ [13; 10])%N = [py "ab"; []; py "c"].
Proof. reflexivity. Qed.

Example strip_ex : strip (py "  a b  ") = py "a b".
Proof. reflexivity. Qed.

Example re_title_ex :
  Re.re_match (Re.Cat (Re.plus Re.digit)
                 (Re.Cat (Re.Star Re.ws) (Re.Cat (Re.lit (ch "-")) (Re.Star Re.ws))))
    (py "12 - Title") = true.
Proof. reflexivity. Qed.

Example loads_ex1 :
  loads (pyq "{'a': [1, 2.5e3, true], 'b': {'c': null}}")
  = Ok (JObj [(py "a", JArr [JNum (py "1"); JNum (py "2.5e3"); JBool true]);
              (py "b", JObj [(py "c", JNull)])]).
Proof. reflexivity. Qed.

Example loads_ex2 : loads (pyq "{'a': 'x\u00e9\n'}") = Ok (JObj [(py "a", JStr (py "x" ++ [233; 10])%N)]).
Proof. reflexivity. Qed.

Example loads_ex3 : parses (pyq "{'a': 1,}") = false /\ parses (pyq "[1 2]") = false
  /\ parses (pyq "{'a': 'xy") = false /\ parses (pyq "01") = false
  /\ parses (pyq " [] ") = true /\ parses (pyq "") = false.
Proof. repeat split; reflexivity. Qed.

(** A response cut between two blocks is closed into a document. *)
Example repair_between_blocks :
  _repair_truncated_json (pyq "{'lines':[{'alignment':'left','blocks':[{'text':'a'},{")
  = Some (pyq "{'lines':[{'alignment':'left','blocks':[{'text':'a'}]}]}")
  /\ parses (pyq "{'lines':[{'alignment':'left','blocks':[{'text':'a'}]}]}") = true.
Proof. split; reflexivity. Qed.

(** A digit is not a member of the tuple: the scan walks past it. *)
Example repair_digit_tail :
  is_boundary (ch "7") = false
  /\ _repair_truncated_json (pyq "{'a':[1,27") = Some (pyq "{'a'}").
Proof. split; reflexivity. Qed.

Example smart_grouping_ex :
  smart_grouping [py "Hello world"; py "and more"] = [py "Hello world and more"].
Proof. vm_compute. reflexivity. Qed.

Example reconstruct_ex :
  reconstruct (py "Hello world" ++ [NL] ++ py "and more") =
  py "Hello world" ++ [NL] ++ py "and more".
Proof. vm_compute. reflexivity. Qed.

(* --------------------------------------------------------------------- *)
(** ** The retry loop *)
(* --------------------------------------------------------------------- *)

Lemma stop_attempt_bounds (http : nat -> http_reply) (budget attempt : nat) :
  (attempt <= stop_attempt http attempt budget <= attempt + budget)%nat.
Proof.
  revert attempt; induction budget as [|b IH]; intros attempt; simpl.
  - lia.
  - destruct (http attempt) as [r|e]; [|lia].
    destruct (N.eqb (status_code r) 429); [|lia].
    specialize (IH (S attempt)); lia.
Qed.


Lemma retry_loop_cons (site : post_site) (http : nat -> http_reply)
    (attempt : nat) (rest : list nat) (resp : option http_response) :
  retry_loop site http (attempt :: rest) resp =
  match http attempt with
  | PostRaises e => (mkExit (Some e) resp, [EvPost site attempt])
  | Response r =>
      if N.eqb (status_code r) 429%N && Nat.ltb attempt max_retries then
        (fst (retry_loop site http rest (Some r)),
         EvPost site attempt :: EvSleep (2 ^ N.of_nat (attempt + 1))%N
           :: snd (retry_loop site http rest (Some r)))
      else if is_http_error (status_code r) then
        (mkExit (Some (HTTPError (status_code r))) (Some r), [EvPost site attempt])
      else (mkExit None (Some r), [EvPost site attempt])
  end.
Proof.
  simpl. destruct (http attempt) as [r|e]; [|reflexivity].
  destruct (N.eqb (status_code r) 429 && Nat.ltb attempt max_retries); [|reflexivity].
  destruct (retry_loop site http rest (Some r)); reflexivity.
Qed.

Lemma retry_loop_trace (site : post_site) (http : nat -> http_reply)
    (budget attempt : nat) (resp : option http_response) :
  (attempt + budget = max_retries)%nat ->
  let k := stop_attempt http attempt budget in
  snd (retry_loop site http (seq attempt (S budget)) resp)
  = retried site attempt (k - attempt) ++ [EvPost site k].
Proof.
  revert attempt resp; induction budget as [|b IH]; intros attempt resp Hsum k;
    subst k; change (seq attempt (S ?n)) with (attempt :: seq (S attempt) n);
    rewrite retry_loop_cons; cbn [stop_attempt].
  - rewrite Nat.sub_diag.
    replace (Nat.ltb attempt max_retries) with false
      by (symmetry; apply Nat.ltb_ge; lia).
    destruct (http attempt) as [r|e]; [|reflexivity].
    rewrite andb_false_r. destruct (is_http_error (status_code r)); reflexivity.
  - destruct (http attempt) as [r|e] eqn:Hr.
    + replace (Nat.ltb attempt max_retries) with true
        by (symmetry; apply Nat.ltb_lt; lia).
      rewrite andb_true_r.
      destruct (N.eqb (status_code r) 429) eqn:H429.
      * cbn [snd]. rewrite (IH (S attempt) (Some r)) by lia.
        pose proof (stop_attempt_bounds http b (S attempt)) as Hb.
        replace (stop_attempt http (S attempt) b - attempt)%nat
          with (S (stop_attempt http (S attempt) b - S attempt)) by lia.
        reflexivity.
      * rewrite Nat.sub_diag.
        destruct (is_http_error (status_code r)); reflexivity.
    + rewrite Nat.sub_diag. reflexivity.
Qed.



(* --------------------------------------------------------------------- *)
(** ** The renderer never emits a red run that is not bold *)
(* --------------------------------------------------------------------- *)






(** *** What holds of every run of a rendered text box

    A property [P] of runs that the spacer runs have, and that a run
    written in a format satisfying [F] has when the exception that
    stopped its assignments, if any, satisfies [G], holds of every run
    of the text box when the outcome of the renderer satisfies [G]. *)
Section Rendered.

Variable base : Z.
Variable F : formatting -> Prop.
Variable P : run -> Prop.
Variable G : option exn -> Prop.

Hypothesis G_none : G None.
Hypothesis P_spacer : forall t, P (spacer_run base t).
Hypothesis P_styled :
  forall t f r e, F f -> nonempty t = true -> styled_run base t f = (r, e) -> G e -> P r.
















End Rendered.



(** *** Values of the expected types are rendered without exception *)









(* --------------------------------------------------------------------- *)
(** ** Font fit *)
(* --------------------------------------------------------------------- *)

Lemma frame_runs_shrink (m : Z) (tf : text_frame) :
  frame_runs (shrink_frame m tf) = map (shrink_run m) (frame_runs tf).
Proof.
  unfold frame_runs, shrink_frame; cbn [paragraphs].
  induction (paragraphs tf) as [|p ps IH]; simpl; [reflexivity|].
  now rewrite IH, map_app.
Qed.

Lemma fit_loop_length (m : Z) (n : nat) (tf : text_frame) :
  (List.length (fit_loop m n tf) <= n)%nat.
Proof.
  revert tf; induction n as [|n IH]; intros tf; simpl; [lia|].
  destruct (fit_step m tf) as [tf'|]; simpl; [|lia].
  specialize (IH tf'); lia.
Qed.

Lemma shrink_run_le (m : Z) (r : run) :
  size_le (font_size (shrink_run m r)) (font_size r).
Proof.
  unfold shrink_run, size_set.
  destruct (font_size r) as [s|] eqn:Hs; simpl; [|rewrite Hs; exact I].
  destruct (Z.eqb s 0); [rewrite Hs; simpl; lia|].
  destruct (Z.ltb (Pt m) s) eqn:Hlt; [|rewrite Hs; simpl; lia].
  simpl. apply Z.ltb_lt in Hlt. lia.
Qed.

Lemma fit_step_shrinks (m : Z) (tf tf' : text_frame) :
  fit_step m tf = Some tf' -> tf' = shrink_frame m tf.
Proof.
  unfold fit_step.
  repeat match goal with |- context [if ?c then _ else _] => destruct c end;
    congruence.
Qed.

Lemma fit_step_le (m : Z) (tf tf' : text_frame) (i : nat) :
  fit_step m tf = Some tf' -> size_le (size_at i tf') (size_at i tf).
Proof.
  intros H. apply fit_step_shrinks in H; subst tf'.
  unfold size_at. rewrite frame_runs_shrink, nth_error_map.
  destruct (nth_error (frame_runs tf) i) as [r|]; simpl; [|exact I].
  apply shrink_run_le.
Qed.

Lemma fit_loop_non_increasing (m : Z) (n : nat) (tf : text_frame) (i : nat) :
  non_increasing (map (size_at i) (tf :: fit_loop m n tf)).
Proof.
  revert tf; induction n as [|n IH]; intros tf; simpl; [exact I|].
  destruct (fit_step m tf) as [tf'|] eqn:Hstep; simpl; [|exact I].
  split; [now apply (fit_step_le m)|]. apply (IH tf').
Qed.

Lemma smallest_font_le_acc (rs : list run) (acc : Z) :
  (fold_left (fun m r => match size_set r with Some s => Z.min m s | None => m end) rs acc
   <= acc)%Z.
Proof.
  revert acc; induction rs as [|r rs IH]; intros acc; simpl; [lia|].
  destruct (size_set r) as [s|]; [|apply IH].
  specialize (IH (Z.min acc s)); lia.
Qed.

Lemma smallest_font_le_run (rs : list run) (acc : Z) (r : run) (s : Z) :
  In r rs -> size_set r = Some s ->
  (fold_left (fun m r => match size_set r with Some s => Z.min m s | None => m end) rs acc
   <= s)%Z.
Proof.
  revert acc; induction rs as [|x rs IH]; intros acc Hin Hs; [destruct Hin|].
  simpl. destruct Hin as [->|Hin].
  - rewrite Hs. pose proof (smallest_font_le_acc rs (Z.min acc s)). lia.
  - now apply IH.
Qed.

Lemma fit_step_floor (m : Z) (tf tf' : text_frame) (r : run) (s : Z) :
  fit_step m tf = Some tf' -> In r (frame_runs tf') -> size_set r = Some s ->
  (Pt m <= s)%Z.
Proof.
  intros Hstep Hin Hs.
  assert (Hsmall : (Pt m < smallest_font tf)%Z).
  { unfold fit_step in Hstep.
    destruct (Z.leb (smallest_font tf) (Pt m)) eqn:Hle; [discriminate|].
    now apply Z.leb_gt in Hle. }
  apply fit_step_shrinks in Hstep; subst tf'.
  rewrite frame_runs_shrink in Hin. apply in_map_iff in Hin.
  destruct Hin as [r0 [<- Hin0]].
  unfold shrink_run in Hs.
  destruct (size_set r0) as [s0|] eqn:Hs0; [|congruence].
  pose proof (smallest_font_le_run (frame_runs tf) (Pt 100) r0 s0 Hin0 Hs0) as Hmin.
  fold (smallest_font tf) in Hmin.
  destruct (Z.ltb (Pt m) s0) eqn:Hlt.
  - unfold size_set in Hs; simpl in Hs.
    destruct (Z.eqb (Z.max (Pt m) (s0 - 50)) 0)%Z; [discriminate|].
    injection Hs as <-. lia.
  - apply Z.ltb_ge in Hlt. lia.
Qed.

Lemma fit_loop_floor (m : Z) (n : nat) (tf f : text_frame) (r : run) (s : Z) :
  In f (fit_loop m n tf) -> In r (frame_runs f) -> size_set r = Some s -> (Pt m <= s)%Z.
Proof.
  revert tf; induction n as [|n IH]; intros tf Hf Hr Hs; simpl in Hf; [destruct Hf|].
  destruct (fit_step m tf) as [tf'|] eqn:Hstep; [|destruct Hf].
  destruct Hf as [<-|Hf].
  - exact (fit_step_floor m tf tf' r s Hstep Hr Hs).
  - exact (IH tf' Hf Hr Hs).
Qed.

Lemma fit_step_bounds (m : Z) (tf tf' : text_frame) (i : nat) (s0 s : Z) :
  fit_step m tf = Some tf' -> size_at i tf = Some s0 -> size_at i tf' = Some s ->
  (Z.min s0 (Pt m) <= s <= s0)%Z.
Proof.
  intros Hstep H0 H1. apply fit_step_shrinks in Hstep; subst tf'.
  unfold size_at in *. rewrite frame_runs_shrink, nth_error_map in H1.
  destruct (nth_error (frame_runs tf) i) as [r|]; [|discriminate].
  cbn [option_map] in H1. unfold shrink_run, size_set in H1. rewrite H0 in H1.
  destruct (Z.eqb s0 0); cbv iota beta in H1.
  - rewrite H0 in H1. injection H1 as <-. lia.
  - destruct (Z.ltb (Pt m) s0) eqn:Hlt; cbv iota beta in H1.
    + cbn [font_size] in H1. injection H1 as <-. apply Z.ltb_lt in Hlt. lia.
    + rewrite H0 in H1. injection H1 as <-. lia.
Qed.

Lemma fit_step_sized (m : Z) (tf tf' : text_frame) (i : nat) (s0 : Z) :
  fit_step m tf = Some tf' -> size_at i tf = Some s0 -> exists s, size_at i tf' = Some s.
Proof.
  intros Hstep H0. pose proof (fit_step_le m tf tf' i Hstep) as Hle.
  rewrite H0 in Hle. destruct (size_at i tf') as [s|]; [now exists s | destruct Hle].
Qed.

Lemma last_cons {A} (l : list A) :
  forall (x d : A), last (x :: l) d = last l x.
Proof.
  induction l as [|a l IH]; intros x d; [reflexivity|].
  change (last (x :: a :: l) d) with (last (a :: l) d).
  rewrite (IH a d). symmetry. apply (IH a x).
Qed.

Lemma fit_loop_bounds (m : Z) (n : nat) :
  forall (tf : text_frame) (i : nat) (s0 s : Z),
    size_at i tf = Some s0 -> size_at i (last (fit_loop m n tf) tf) = Some s ->
    (Z.min s0 (Pt m) <= s <= s0)%Z.
Proof.
  induction n as [|n IH]; intros tf i s0 s H0 H1; cbn [fit_loop] in H1.
  - cbn [last] in H1. rewrite H0 in H1. injection H1 as <-. lia.
  - destruct (fit_step m tf) as [tf'|] eqn:Hstep.
    + rewrite last_cons in H1.
      destruct (fit_step_sized m tf tf' i s0 Hstep H0) as [s1 Hs1].
      pose proof (fit_step_bounds m tf tf' i s0 s1 Hstep H0 Hs1).
      pose proof (IH tf' i s1 s Hs1 H1). lia.
    + cbn [last] in H1. rewrite H0 in H1. injection H1 as <-. lia.
Qed.

Lemma fit_loop_below_floor (m : Z) (n : nat) (tf : text_frame) (r : run) (s : Z) :
  In r (frame_runs tf) -> size_set r = Some s -> (s <= Pt m)%Z -> fit_loop m n tf = [].
Proof.
  intros Hin Hs Hle. destruct n as [|n]; [reflexivity|]. cbn [fit_loop].
  unfold fit_step.
  pose proof (smallest_font_le_run (frame_runs tf) (Pt 100) r s Hin Hs) as Hmin.
  fold (smallest_font tf) in Hmin.
  replace (Z.leb (smallest_font tf) (Pt m)) with true
    by (symmetry; apply Z.leb_le; lia).
  reflexivity.
Qed.

(** C7, as amended.  The font-fit loop makes at most [max_iterations]
    reductions; the sizes of every run, from its size before the loop
    through the frames the loop produces, never increase; every size
    that is set in a frame the loop produces is at least the floor
    [min_font_size]; the size a run is left with is at most its size
    before the loop and at least the smaller of that size and the
    floor; and when a run is at or below the floor before the loop, the
    loop reduces nothing, so that a run under the floor stays under
    it. *)
Theorem C7_font_fit (min_font_size : Z) (max_iterations : nat) (tf : text_frame) :
  let frames := fit_loop min_font_size max_iterations tf in
  (List.length frames <= max_iterations)%nat
  /\ (forall i, non_increasing (map (size_at i) (tf :: frames)))
  /\ (forall f r s, In f frames -> In r (frame_runs f) ->
                    size_set r = Some s -> (Pt min_font_size <= s)%Z)
  /\ (forall i s0 s, size_at i tf = Some s0 -> size_at i (last frames tf) = Some s ->
                     (Z.min s0 (Pt min_font_size) <= s <= s0)%Z)
  /\ (forall r s, In r (frame_runs tf) -> size_set r = Some s ->
                  (s <= Pt min_font_size)%Z -> frames = []).
Proof.
  intros frames. split; [apply fit_loop_length|].
  split; [intros i; apply fit_loop_non_increasing|].
  split; [intros f r s; apply fit_loop_floor|].
  split; [intros i s0 s; apply fit_loop_bounds|].
  intros r s. apply fit_loop_below_floor.
Qed.

(** C7, as stated, fails.  Thirty-one lines of the size "tiny" rendered
    at the base size 9 are written at five points.  The estimate asks
    for a reduction, but the smallest size is under the floor of six
    points, so the loop stops at once: the sizes the function leaves
    are five points, under the floor. *)
Lemma C7_counterexample_tiny_under_the_floor :
  snd (rendered_frame tiny_lines 9 false) = None
  /\ needs_reduction (fst (rendered_frame tiny_lines 9 false)) = true
  /\ fit_loop 6 20 (fst (rendered_frame tiny_lines 9 false)) = []
  /\ reduce_font_if_overflow [TextBox (fst (rendered_frame tiny_lines 9 false))] 20 6
     = [TextBox (fit_frame 20 6 (fst (rendered_frame tiny_lines 9 false)))]
  /\ map font_size (frame_runs (fit_frame 20 6 (fst (rendered_frame tiny_lines 9 false))))
     = repeat (Some 500%Z) 31
  /\ (500 < Pt 6)%Z.
Proof. repeat split; vm_compute; reflexivity. Qed.
(* --------------------------------------------------------------------- *)
(** ** The compact retry of [call_claude_vision] *)
(* --------------------------------------------------------------------- *)

(** Neither [source_lang] nor [target_lang] is bound in the body of
    [call_claude_vision] or at module level: whatever the locals hold,
    the retry stops before any call is made. *)
Lemma compact_retry_unbound (img : image) (api_key : option str)
    (model response_text json_text : str) :
  compact_retry img
    [("image", None); ("prompt", None); ("api_key", api_key);
     ("model", Some model); ("image_base64", None); ("client", None);
     ("make_call", None); ("message", None);
     ("response_text", Some response_text); ("usage", None);
     ("json_text", Some json_text); ("start", None); ("end", None);
     ("result", None); ("parsed", None); ("e", None);
     ("repaired", None)]%string
  = (RNone, []).
Proof. reflexivity. Qed.

(** C1 (the code at the inputs of the claim).  When the first answer
    does not parse and the repair does not produce a text that parses,
    [call_claude_vision] returns [None] after the one call it has
    already made: the retry with the compact prompt is never sent. *)
Theorem C1_no_retry_is_sent (img : image) (prompt : prompt) (api_key : option str)
    (model text : str) (i o : Z) :
  anthropic_says img 0 prompt = Message text i o ->
  loads (extract_json text) = Raise JSONDecodeError ->
  (forall r, _repair_truncated_json (extract_json text) = Some r ->
             loads r = Raise JSONDecodeError) ->
  call_claude_vision img prompt api_key model = (RNone, [EvClaude prompt]).
Proof.
  intros Hsay Hload Hrepair.
  unfold call_claude_vision, messages_create. rewrite Hsay, Hload.
  rewrite compact_retry_unbound.
  destruct (_repair_truncated_json (extract_json text)) as [r|] eqn:Hr;
    [|reflexivity].
  rewrite (Hrepair r eq_refl).
  destruct (nonempty r); reflexivity.
Qed.

(** The cut answer of [image_cut_then_good]: one call, no retry, [None],
    although the second answer of the service would parse. *)
Lemma C1_no_retry_is_sent_witness :
  call_claude_vision image_cut_then_good prompt_fr_en (Some (py "sk-ant"))
    (py "claude-sonnet-4-20250514")
  = (RNone, [EvClaude prompt_fr_en])
  /\ anthropic_says image_cut_then_good 1 compact_fr_en = Message good_answer 1200 90
  /\ parses good_answer = true.
Proof.
  split; [|split; reflexivity].
  apply (C1_no_retry_is_sent image_cut_then_good prompt_fr_en (Some (py "sk-ant"))
           (py "claude-sonnet-4-20250514") cut_answer 1200 8192).
  - reflexivity.
  - vm_compute; reflexivity.
  - intros r Hr. vm_compute in Hr. injection Hr as <-. vm_compute; reflexivity.
Defined.

(* --------------------------------------------------------------------- *)
(** ** The lines of [ocr_extract_text] *)
(* --------------------------------------------------------------------- *)

(** C2 (the code at a failing input).  Tesseract reads "Hello world"
    and "and more".  The second pass joins them into one line, but the
    list is emptied before the last loop and the text that is returned
    still has the two lines. *)
Theorem C2_joined_lines_are_dropped :
  first_pass (splitlines two_lines) = [py "Hello world"; py "and more"]
  /\ smart_grouping [py "Hello world"; py "and more"] = [py "Hello world and more"]
  /\ ocr_extract_text image_two_lines (py "en")
     = (py "Hello world" ++ [NL] ++ py "and more", [EvTesseract])
  /\ grouped_text two_lines = py "Hello world and more".
Proof. repeat split; vm_compute; reflexivity. Qed.

(** Whatever tesseract reads, the returned text is built from the raw
    lines alone. *)
Lemma reconstruct_ignores_grouping (text : str) :
  let raw := Re.remove_cls is_symbol_noise
               (strip (join [NL] (collapse_blank (splitlines text) false))) in
  reconstruct text = strip (join [NL] (final_pass (splitlines raw) [])).
Proof. reflexivity. Qed.
(* --------------------------------------------------------------------- *)
(** ** Facts about [strip] *)
(* --------------------------------------------------------------------- *)

Lemma dropwhile_idem (p : char -> bool) (s : str) :
  dropwhile p (dropwhile p s) = dropwhile p s.
Proof.
  induction s as [|c r IH]; simpl; [reflexivity|].
  destruct (p c) eqn:Hc; [exact IH|]. simpl. now rewrite Hc.
Qed.

Lemma dropwhile_head (p : char -> bool) (s : str) (c : char) (r : str) :
  dropwhile p s = c :: r -> p c = false.
Proof.
  induction s as [|x s IH]; simpl; [discriminate|].
  destruct (p x) eqn:Hx; [exact IH|]. intros H; injection H as -> _. exact Hx.
Qed.

Lemma dropwhile_suffix (p : char -> bool) (s : str) :
  exists pre, s = pre ++ dropwhile p s.
Proof.
  induction s as [|c r [pre IH]]; simpl.
  - now exists [].
  - destruct (p c).
    + exists (c :: pre). simpl. now rewrite <- IH.
    + now exists [].
Qed.

Lemma rstrip_by_prefix (p : char -> bool) (s : str) :
  exists suf, s = rstrip_by p s ++ suf.
Proof.
  unfold rstrip_by. destruct (dropwhile_suffix p (rev s)) as [pre H].
  exists (rev pre). rewrite <- rev_app_distr, <- H. now rewrite rev_involutive.
Qed.

Lemma rstrip_by_idem (p : char -> bool) (s : str) :
  rstrip_by p (rstrip_by p s) = rstrip_by p s.
Proof. unfold rstrip_by. now rewrite rev_involutive, dropwhile_idem. Qed.

Lemma dropwhile_fixed (p : char -> bool) (s : str) :
  match s with c :: _ => p c = false | [] => True end -> dropwhile p s = s.
Proof. destruct s as [|c r]; simpl; [reflexivity|]. now intros ->. Qed.

Lemma strip_idem (s : str) : strip (strip s) = strip s.
Proof.
  unfold strip, lstrip, rstrip, lstrip_by.
  assert (Hl : dropwhile isspace (rstrip_by isspace (dropwhile isspace s))
               = rstrip_by isspace (dropwhile isspace s)).
  { apply dropwhile_fixed.
    destruct (rstrip_by_prefix isspace (dropwhile isspace s)) as [suf Hsuf].
    destruct (rstrip_by isspace (dropwhile isspace s)) as [|c t]; [exact I|].
    simpl in Hsuf. exact (dropwhile_head isspace s c (t ++ suf) Hsuf). }
  rewrite Hl. apply rstrip_by_idem.
Qed.

(** The last character of a text that [rstrip_by p] leaves non-empty
    does not satisfy [p]. *)
Lemma rstrip_by_fixed (p : char -> bool) (s : str) :
  match rev s with c :: _ => p c = false | [] => True end -> rstrip_by p s = s.
Proof.
  intros H. unfold rstrip_by. rewrite (dropwhile_fixed p (rev s) H).
  apply rev_involutive.
Qed.

(* --------------------------------------------------------------------- *)
(** ** The OCR + text chain when source and target language agree *)
(* --------------------------------------------------------------------- *)

Lemma ocr_extract_text_trace (img : image) (lang : str) :
  snd (ocr_extract_text img lang) = [EvTesseract].
Proof. unfold ocr_extract_text. destruct (tesseract_says img); reflexivity. Qed.

Lemma ocr_extract_text_stripped (img : image) (lang : str) :
  strip (fst (ocr_extract_text img lang)) = fst (ocr_extract_text img lang).
Proof.
  unfold ocr_extract_text. destruct (tesseract_says img); simpl; [|reflexivity].
  unfold reconstruct. apply strip_idem.
Qed.

Lemma retried_no_offline (site : post_site) (first count : nat) :
  filter is_offline (retried site first count) = [].
Proof.
  revert first; induction count as [|c IH]; intros first; [reflexivity|].
  unfold retried in *. simpl. apply IH.
Qed.

Lemma post_with_retry_trace (site : post_site) (http : nat -> http_reply) :
  snd (post_with_retry site http)
  = retried site 0 (stop_attempt http 0 max_retries)
    ++ [EvPost site (stop_attempt http 0 max_retries)].
Proof.
  unfold post_with_retry.
  replace (max_retries + 1)%nat with (S max_retries) by (unfold max_retries; lia).
  rewrite (retry_loop_trace site http max_retries 0 None eq_refl).
  now rewrite Nat.sub_0_r.
Qed.

Lemma text_llm_stage_trace (img : image) (model : str) :
  snd (text_llm_stage img model) = snd (post_with_retry TextPost (text_http img)).
Proof.
  unfold text_llm_stage.
  destruct (post_with_retry TextPost (text_http img)) as [exit tr]; simpl.
  destruct (raised exit); [reflexivity|].
  destruct (response exit) as [r|]; [|reflexivity].
  match goal with |- context [match ?c with Ok _ => _ | Raise _ => _ end] =>
    destruct c as [content|e] end; [|reflexivity].
  destruct (nonempty (strip content)); reflexivity.
Qed.

Lemma text_llm_stage_no_offline (img : image) (model : str) :
  filter is_offline (snd (text_llm_stage img model)) = [].
Proof.
  rewrite text_llm_stage_trace, post_with_retry_trace, filter_app, retried_no_offline.
  reflexivity.
Qed.

(** The method and the error of the text-LLM stage. *)
Lemma text_llm_stage_method (img : image) (model : str) :
  let vars := fst (text_llm_stage img model) in
  (v_translated_text vars = None /\ v_translation_method vars = None)
  \/ (exists t, v_translated_text vars = Some t)
     /\ v_translation_method vars = Some (py "openrouter").
Proof.
  unfold text_llm_stage.
  destruct (post_with_retry TextPost (text_http img)) as [exit tr]; simpl.
  destruct (raised exit); [left; split; reflexivity|].
  destruct (response exit) as [r|]; [|left; split; reflexivity].
  match goal with |- context [match ?c with Ok _ => _ | Raise _ => _ end] =>
    destruct c as [content|e] end; [|left; split; reflexivity].
  destruct (nonempty (strip content)); simpl.
  - right; split; [eexists; reflexivity | reflexivity].
  - left; split; reflexivity.
Qed.
Lemma process_ocr_free (slide_width : Z) (sl : slide) (img : image)
    (src tgt : str) (api_key claude_key : option str) (model : str) :
  has_image_on_left slide_width sl = Some img ->
  process_ppt_slide slide_width sl src tgt (py "ocr_free") api_key claude_key model
  = (Ok (fst (call_ocr_openrouter img src tgt api_key model)),
     snd (call_ocr_openrouter img src tgt api_key model)).
Proof.
  intros H. unfold process_ppt_slide. rewrite H.
  change (str_eqb (py "ocr_free") (py "claude")) with false.
  change (str_eqb (py "ocr_free") (py "openrouter")) with false.
  change (str_eqb (py "ocr_free") (py "ocr_free")) with true.
  cbv iota.
  destruct (call_ocr_openrouter img src tgt api_key model); reflexivity.
Qed.

(** The chain when source and target language agree: what it calls and
    what it returns. *)
Lemma chain_same_language (img : image) (lang : str) (api_key : option str) (model : str) :
  let out := call_ocr_openrouter img lang lang api_key model in
  let raw := fst (ocr_extract_text img lang) in
  filter is_offline (snd out) = []
  /\ (truthy api_key = false ->
      snd out = [EvTesseract]
      /\ (nonempty raw = true ->
          exists d, fst out = RDoc d /\ translated_text d = raw
                    /\ translation_method d = Some (py "passthrough")))
  /\ (forall d, fst out = RDoc d ->
        (translation_method d = Some (py "passthrough") /\ translated_text d = raw)
        \/ translation_method d = Some (py "openrouter")).
Proof.
  intros out raw. subst out. unfold call_ocr_openrouter.
  pose proof (ocr_extract_text_trace img lang) as Htr.
  pose proof (ocr_extract_text_stripped img lang) as Hstrip.
  fold raw in Hstrip. subst raw.
  destruct (ocr_extract_text img lang) as [raw tr_ocr]. simpl in Htr, Hstrip |- *.
  subst tr_ocr.
  destruct (nonempty raw) eqn:Hraw; simpl.
  2:{ split; [reflexivity|]. split; [intros _; split; [reflexivity | discriminate]|].
      intros d Hd; discriminate. }
  unfold fallback_stage. rewrite str_eqb_refl.
  destruct (truthy api_key) eqn:Hkey.
  - pose proof (text_llm_stage_no_offline img model) as Hoff.
    pose proof (text_llm_stage_method img model) as Hm.
    destruct (text_llm_stage img model) as [vars tr_llm]. simpl in Hoff, Hm.
    split.
    + destruct (truthy (v_translated_text vars)); simpl;
        rewrite ?app_nil_r; exact Hoff.
    + split; [discriminate|].
      intros d.
      destruct (truthy (v_translated_text vars)) eqn:Ht; simpl.
      * destruct Hm as [[Hnone _]|[[t Hsome] Hmeth]].
        -- rewrite Hnone in Ht; discriminate.
        -- unfold build_result. rewrite Hsome.
           destruct (negb (nonempty t) || negb (nonempty (strip t))); [discriminate|].
           intros Hd; injection Hd as <-. right. exact Hmeth.
      * unfold build_result. simpl. rewrite Hraw, Hstrip, Hraw. simpl.
        intros Hd; injection Hd as <-. left; split; reflexivity.
  - simpl. unfold build_result. simpl. rewrite Hraw, Hstrip, Hraw. simpl.
    split; [reflexivity|].
    split.
    + intros _. split; [reflexivity|]. intros _.
      eexists; split; [reflexivity|]. split; reflexivity.
    + intros d Hd; injection Hd as <-. left; split; reflexivity.
Qed.

(** C3, as amended.  In [ocr_free] mode with equal source and target
    language the offline translator is never called.  Without an API
    key the text LLM is not called either: tesseract is the only call,
    and when it reads a text the slide gets that cleaned text, with the
    method passthrough.  In every case a returned document is either a
    passthrough of the cleaned OCR text or the answer of the text LLM. *)
Theorem C3_same_language_passthrough (slide_width : Z) (sl : slide) (img : image)
    (lang : str) (api_key claude_key : option str) (model : str) :
  has_image_on_left slide_width sl = Some img ->
  let out := process_ppt_slide slide_width sl lang lang (py "ocr_free")
               api_key claude_key model in
  let raw := fst (ocr_extract_text img lang) in
  filter is_offline (snd out) = []
  /\ (truthy api_key = false ->
      snd out = [EvTesseract]
      /\ (nonempty raw = true ->
          exists d, fst out = Ok (RDoc d) /\ translated_text d = raw
                    /\ translation_method d = Some (py "passthrough")))
  /\ (forall d, fst out = Ok (RDoc d) ->
        (translation_method d = Some (py "passthrough") /\ translated_text d = raw)
        \/ translation_method d = Some (py "openrouter")).
Proof.
  intros Himg out raw. subst out.
  rewrite (process_ocr_free slide_width sl img lang lang api_key claude_key model Himg).
  cbn [fst snd].
  destruct (chain_same_language img lang api_key model) as [H1 [H2 H3]].
  split; [exact H1|]. split.
  - intros Hkey. destruct (H2 Hkey) as [Ha Hb]. split; [exact Ha|].
    intros Hraw. destruct (Hb Hraw) as [d [Hd Hrest]].
    exists d. split; [now rewrite Hd | exact Hrest].
  - intros d Hd. injection Hd as Hd. exact (H3 d Hd).
Qed.

(** Without a key, the slide of [image_offline_only] is passed through. *)
Lemma C3_same_language_passthrough_witness :
  filter is_offline
    (snd (process_ppt_slide SLIDE_WIDTH (slide_of image_offline_only)
            (py "en") (py "en") (py "ocr_free") None None (py "m"))) = []
  /\ snd (process_ppt_slide SLIDE_WIDTH (slide_of image_offline_only)
            (py "en") (py "en") (py "ocr_free") None None (py "m")) = [EvTesseract].
Proof.
  pose proof (C3_same_language_passthrough SLIDE_WIDTH (slide_of image_offline_only)
                image_offline_only (py "en") None None (py "m") eq_refl) as H.
  cbv zeta in H. destruct H as [H1 [H2 _]].
  split; [exact H1|]. exact (proj1 (H2 eq_refl)).
Defined.

(** C3, as stated, fails: with an API key the text LLM is called, and
    when it answers, its answer is the translated text and the method
    is openrouter, although source and target language agree. *)
Lemma C3_counterexample_llm_is_called :
  exists d,
    process_ppt_slide SLIDE_WIDTH (slide_of image_llm_answers)
      (py "en") (py "en") (py "ocr_free") (Some (py "sk-or")) None (py "m")
    = (Ok (RDoc d), [EvTesseract; EvPost TextPost 0])
    /\ translation_method d = Some (py "openrouter")
    /\ translation_method d <> Some (py "passthrough").
Proof.
  eexists. split; [vm_compute; reflexivity|].
  split; [reflexivity | discriminate].
Qed.
(* --------------------------------------------------------------------- *)
(** ** The fallback of the [openrouter] provider *)
(* --------------------------------------------------------------------- *)

(** An exception of the vision call is answered by an error
    dictionary, never by [None]. *)
Lemma openrouter_vision_exception (img : image) (prompt : prompt)
    (api_key : option str) (model : str) (e : exn) :
  raised (fst (post_with_retry VisionPost (vision_http img))) = Some e ->
  exists msg,
    call_openrouter_vision img prompt api_key model
    = (RError msg, snd (post_with_retry VisionPost (vision_http img))).
Proof.
  intros H. unfold call_openrouter_vision.
  destruct (post_with_retry VisionPost (vision_http img)) as [exit tr].
  simpl in H |- *. rewrite H. simpl.
  destruct e; eexists; reflexivity.
Qed.

(** [process_ppt_slide] falls back only on [None]: an error dictionary
    of the vision call is returned as it is, and nothing else is
    called. *)
Lemma openrouter_error_is_returned (slide_width : Z) (sl : slide) (img : image)
    (src tgt : str) (api_key claude_key : option str) (model : str)
    (prompt : prompt) (msg : str) (tr : list call) :
  has_image_on_left slide_width sl = Some img ->
  create_vision_prompt src tgt = Ok prompt ->
  call_openrouter_vision img prompt api_key model = (RError msg, tr) ->
  process_ppt_slide slide_width sl src tgt (py "openrouter") api_key claude_key model
  = (Ok (RError msg), tr).
Proof.
  intros Himg Hp Hcall. unfold process_ppt_slide. rewrite Himg.
  change (str_eqb (py "openrouter") (py "claude")) with false.
  change (str_eqb (py "openrouter") (py "openrouter")) with true.
  cbv iota. rewrite Hp, Hcall. reflexivity.
Qed.

(** C4 (the code at failing inputs).  With the provider [openrouter],
    French to English: a vision call answered by HTTP 500, and one
    answered by a text that is not JSON, each end the slide with an
    error dictionary after the single post; tesseract and the offline
    translator are not called, and the slide is counted failed with
    the method unknown.  When the vision call does return [None] (JSON
    of neither schema) the chain runs offline, but the method recorded
    for the slide is [None], not offline. *)
Theorem C4_vision_failure_skips_fallback :
  (exists msg,
      process_ppt_slide SLIDE_WIDTH (slide_of image_vision_500) (py "fr") (py "en")
        (py "openrouter") (Some (py "sk-or")) None (py "google/gemini-flash-1.5")
      = (Ok (RError msg), [EvPost VisionPost 0]))
  /\ (exists msg,
        process_ppt_slide SLIDE_WIDTH (slide_of image_vision_garbled) (py "fr") (py "en")
          (py "openrouter") (Some (py "sk-or")) None (py "google/gemini-flash-1.5")
        = (Ok (RError msg), [EvPost VisionPost 0]))
  /\ (let st := snd (create_translated_ppt
                       (run_with "openrouter" "fr" "en" (Some (py "sk-or")) None)
                       [slide_of image_vision_500]) in
      failed_slides (st_stats st) = 1%nat
      /\ processed_slides (st_stats st) = 0%nat
      /\ map si_method (slide_methods (st_stats st)) = [Some (py "unknown")]
      /\ st_trace st = [Called (EvPost VisionPost 0)])
  /\ (let st := snd (create_translated_ppt
                       (run_with "openrouter" "fr" "en" (Some (py "sk-or")) None)
                       [slide_of image_vision_other_json]) in
      processed_slides (st_stats st) = 1%nat
      /\ map si_method (slide_methods (st_stats st)) = [None]
      /\ filter is_offline (calls_of (st_trace st)) = [EvOfflineMT]).
Proof.
  split; [eexists; vm_compute; reflexivity|].
  split; [eexists; vm_compute; reflexivity|].
  split; vm_compute; repeat split; reflexivity.
Qed.

(* --------------------------------------------------------------------- *)
(** ** The three counters of [create_translated_ppt] *)
(* --------------------------------------------------------------------- *)

(** C10 (the code at a failing input).  One selected slide with a
    picture, provider [ocr_free], and a progress callback whose
    "completed" notification raises an exception that is not a
    cancellation.  The slide has been counted processed when the
    exception reaches the handler, which counts it failed as well: the
    run completes with one slide in total and the three counters adding
    up to two. *)
Theorem C10_slide_counted_twice :
  let out := create_translated_ppt
               (run_with "ocr_free" "en" "en" None (Some cb_completed_fails))
               [slide_of image_offline_only] in
  let s := st_stats (snd out) in
  fst out = Ok tt
  /\ total_slides s = 1%nat
  /\ processed_slides s = 1%nat
  /\ skipped_slides s = 0%nat
  /\ failed_slides s = 1%nat
  /\ notified (st_trace (snd out))
     = [py "processing"; py "processing"; py "processing"; py "processing";
        py "completed"; py "failed"].
Proof. vm_compute. repeat split; reflexivity. Qed.

(* --------------------------------------------------------------------- *)
(** ** Invariants of the run *)
(* --------------------------------------------------------------------- *)

Lemma preserves_ret {A} (I : state -> Prop) (a : A) : preserves I (ret a).
Proof. intros st H; exact H. Qed.

Lemma preserves_raise {A} (I : state -> Prop) (e : exn) : preserves I (@raise A e).
Proof. intros st H; exact H. Qed.

Lemma preserves_get (I : state -> Prop) : preserves I get_state.
Proof. intros st H; exact H. Qed.

Lemma preserves_bind {A B} (I : state -> Prop) (m : M A) (f : A -> M B) :
  preserves I m -> (forall a, preserves I (f a)) -> preserves I (bind m f).
Proof.
  intros Hm Hf st H. unfold bind. specialize (Hm st H).
  destruct (m st) as [[a|e] st']; simpl in *; [now apply Hf | exact Hm].
Qed.

Lemma preserves_try {A} (I : state -> Prop) (m : M A) (h : exn -> M A) :
  preserves I m -> (forall e, preserves I (h e)) -> preserves I (try_except m h).
Proof.
  intros Hm Hh st H. unfold try_except. specialize (Hm st H).
  destruct (m st) as [[a|e] st']; simpl in *; [exact Hm | now apply Hh].
Qed.

Lemma preserves_loop (I : state -> Prop) (p : run_params) (slides : list slide) :
  (forall idx sl, preserves I (slide_step p idx sl)) ->
  forall idx, preserves I (slides_loop p idx slides).
Proof.
  intros Hstep. induction slides as [|sl rest IH]; intros idx; simpl.
  - apply preserves_ret.
  - apply preserves_bind; [apply Hstep | intros _; apply IH].
Qed.

(** *** The cost *)



(** C9, at a failing input.  The provider is [claude] and the answer
    for the one slide of the presentation stops at the token limit, cut
    between two blocks; the client reports 1200 input and 8192 output
    tokens for it.  The repair closes the text, the slide is rendered
    and counted as processed, and the run completes; but the dictionary
    made of a repaired answer carries no usage, so neither tokens nor
    cost are added for the slide, where the documented formula gives
    1200 / 1e6 * 3 + 8192 / 1e6 * 15.  The same run on a slide whose
    answer is complete is charged by the formula. *)
Theorem C9_repaired_slide_is_not_charged :
  let out := create_translated_ppt claude_run [slide_of image_cut_repairable] in
  let s := st_stats (snd out) in
  let s' := st_stats (snd (create_translated_ppt claude_run [slide_of image_claude_good])) in
  reported_tokens image_cut_repairable 0 prompt_fr_en = Some (1200, 8192)%Z
  /\ calls_of (st_trace (snd out)) = [EvClaude prompt_fr_en]
  /\ fst out = Ok tt
  /\ processed_slides s = 1%nat
  /\ failed_slides s = 0%nat
  /\ total_input_tokens s = 0%Z
  /\ total_output_tokens s = 0%Z
  /\ (total_cost s == 0)%Q
  /\ ~ (total_cost s == claimed_slide_cost (model claude_run) 1200 8192)%Q
  /\ reported_tokens image_claude_good 0 prompt_fr_en = Some (1200, 90)%Z
  /\ processed_slides s' = 1%nat
  /\ (total_cost s' == claimed_slide_cost (model claude_run) 1200 90)%Q.
Proof.
  cbv zeta.
  repeat match goal with
         | |- _ /\ _ => split
         end;
    try (vm_compute; reflexivity).
  intros H. vm_compute in H. discriminate H.
Qed.

Example claude_run_cost :
  let s := st_stats (snd (create_translated_ppt claude_run claude_slides)) in
  processed_slides s = 2%nat /\ skipped_slides s = 1%nat /\ failed_slides s = 0%nat
  /\ total_input_tokens s = 2400%Z /\ total_output_tokens s = 180%Z
  /\ (total_cost s == 2 * (1200 / 1000000 * 3 + 90 / 1000000 * 15))%Q.
Proof. vm_compute. repeat split; reflexivity. Qed.

(* --------------------------------------------------------------------- *)
(** ** The counters when the callback raises nothing but cancellations *)
(* --------------------------------------------------------------------- *)

Lemma ends_bind {A B} (P Q R : state -> Prop) (E : exn -> state -> Prop)
    (m : M A) (f : A -> M B) :
  ends_in P m Q E -> (forall a, ends_in Q (f a) R E) -> ends_in P (bind m f) R E.
Proof.
  intros Hm Hf st H. unfold bind. specialize (Hm st H).
  destruct (m st) as [[a|e] st']; [exact (Hf a st' Hm) | exact Hm].
Qed.

Lemma ends_try {A} (P Q : state -> Prop) (E E' : exn -> state -> Prop)
    (m : M A) (h : exn -> M A) :
  ends_in P m Q E -> (forall e, ends_in (E e) (h e) Q E') ->
  ends_in P (try_except m h) Q E'.
Proof.
  intros Hm Hh st H. unfold try_except. specialize (Hm st H).
  destruct (m st) as [[a|e] st']; [exact Hm | exact (Hh e st' Hm)].
Qed.

Lemma ends_weaken {A} (P Q : state -> Prop) (E E' : exn -> state -> Prop) (m : M A) :
  ends_in P m Q E -> (forall e st, E e st -> E' e st) -> ends_in P m Q E'.
Proof.
  intros Hm HE st H. specialize (Hm st H).
  destruct (m st) as [[a|e] st']; [exact Hm | now apply HE].
Qed.

Lemma ends_stats (n k k' : nat) (f : stats -> stats) (E : exn -> state -> Prop) :
  (forall s, accounted (f s) = (accounted s + (k' - k))%nat) -> (k <= k')%nat ->
  (forall s, total_slides (f s) = total_slides s) ->
  ends_in (counts_to n k) (modify_stats f) (counts_to n k') E.
Proof.
  intros Hf Hk Ht st [H1 H2]. unfold counts_to; simpl. rewrite Hf, Ht, H1. split; lia.
Qed.

Lemma ends_notify (n k : nat) (cb : option callback) (args : cb_args) :
  only_cancels cb ->
  ends_in (counts_to n k) (notify cb args) (counts_to n k)
          (fun e _ => is_cancellation e = true).
Proof.
  intros Hcb st H. destruct cb as [f|]; simpl; [|exact H].
  destruct (f (st_calls st) args) as [[]|e] eqn:Hf; [exact H|].
  exact (Hcb _ _ _ Hf).
Qed.

Lemma ends_failure (n k : nat) (idx : nat) (msg : str) (E : exn -> state -> Prop) :
  ends_in (counts_to n k) (record_failure idx msg) (counts_to n (S k)) E.
Proof.
  intros st [H1 H2]. unfold record_failure, counts_to, accounted in *; simpl. lia.
Qed.

Lemma ends_count (n k : nat) (p : run_params) (idx : nat) (d : document)
    (E : exn -> state -> Prop) :
  ends_in (counts_to n k) (count_processed p idx d) (counts_to n (S k)) E.
Proof.
  intros st [H1 H2]. unfold count_processed, counts_to, accounted in *.
  destruct (doc_usage d); simpl; lia.
Qed.

(** The renderer and the copy of the picture change nothing but the
    new presentation. *)
Lemma ends_render (P : state -> Prop) (E : exn -> state -> Prop)
    (p : run_params) (d : document) :
  (forall sl st, P st -> P (set_new_slide sl st)) ->
  (forall e st, P st -> E e st) ->
  ends_in P (render_new_slide p d) P E.
Proof.
  intros HP HE st H. unfold render_new_slide.
  destruct (apply_formatting_from_structure (last (st_new_prs st) [])
              (structure d) (base_font_size p) (str_eqb (provider p) (py "ocr_free")))
    as [sl [e|]]; [apply HE|]; now apply HP.
Qed.

Lemma ends_add_new_slide (P : state -> Prop) (E : exn -> state -> Prop)
    (p : run_params) (sl : slide) :
  (forall x st, P st ->
     P (mkState (st_stats st) (st_counter st) (st_new_prs st ++ [x])
                (st_calls st) (st_trace st))) ->
  (forall e st, copy_image (prs_slide_width p) sl = Raise e -> P st -> E e st) ->
  ends_in P (add_new_slide p sl) P E.
Proof.
  intros HP HE st H. unfold add_new_slide.
  destruct (copy_image (prs_slide_width p) sl) as [shapes|e] eqn:Hc.
  - unfold set_new_slide; cbn [st_stats st_counter st_new_prs st_calls st_trace].
    rewrite removelast_last. now apply HP.
  - apply (HE e); [reflexivity|]. now apply HP.
Qed.

Lemma ends_try_body (n k : nat) (p : run_params) (idx : nat) (sl : slide) :
  only_cancels (progress_callback p) ->
  ends_in (counts_to n k) (try_body p idx sl) (counts_to n (S k))
          (fun e st => is_cancellation e = true \/ counts_to n k st).
Proof.
  intros Hcb. unfold try_body.
  set (E := fun (e : exn) (st : state) => is_cancellation e = true \/ counts_to n k st).
  assert (Hn : forall j args,
             ends_in (counts_to n j) (notify (progress_callback p) args) (counts_to n j) E).
  { intros j args. apply (ends_weaken _ _ (fun e _ => is_cancellation e = true));
      [now apply ends_notify | intros e st He; now left]. }
  apply (ends_bind _ (counts_to n k)); [intros st H; exact H | intros st0].
  apply (ends_bind _ (counts_to n k)); [apply Hn | intros _].
  apply (ends_bind _ (counts_to n k)).
  - intros st H.
    destruct (process_ppt_slide (slide_width p) sl (source_lang p) (target_lang p)
                (provider p) (api_key p) (claude_api_key p) (model p)) as [[r|e] tr];
      [exact H | right; exact H].
  - intros result. destruct (has_structure result) as [d|].
    + apply (ends_bind _ (counts_to n k)); [apply Hn | intros _].
      apply (ends_bind _ (counts_to n k));
        [apply ends_render; [intros x st H; exact H | intros e st H; right; exact H]
        | intros _].
      apply (ends_bind _ (counts_to n (S k))); [apply ends_count | intros _].
      apply (ends_bind _ (counts_to n (S k))); [|intros _; apply Hn].
      destruct (str_eqb (provider p) (py "ocr_free")); [|intros st H; exact H].
      apply (ends_bind _ (counts_to n (S k))); [intros st H; exact H | intros st'; apply Hn].
    + apply (ends_bind _ (counts_to n (S k))); [apply ends_failure | intros _; apply Hn].
Qed.

Lemma ends_slide_step (n k : nat) (p : run_params) (idx : nat) (sl : slide) :
  only_cancels (progress_callback p) ->
  ends_in (counts_to n k) (slide_step p idx sl) (counts_to n (S k)) (fun _ _ => True).
Proof.
  intros Hcb. unfold slide_step.
  assert (Hn : forall j args,
             ends_in (counts_to n j) (notify (progress_callback p) args) (counts_to n j)
                     (fun _ _ => True)).
  { intros j args. apply (ends_weaken _ _ (fun e _ => is_cancellation e = true));
      [now apply ends_notify | intros; exact I]. }
  destruct (negb (existsb (Nat.eqb idx) (selected_slides p))).
  - intros st [H1 H2]. unfold counts_to, accounted in *; simpl. lia.
  - apply (ends_bind _ (counts_to n k)); [intros st H; exact H | intros _].
    apply (ends_bind _ (counts_to n k)); [intros st H; exact H | intros st0].
    apply (ends_bind _ (counts_to n k)); [apply Hn | intros _].
    destruct (has_image_on_left (slide_width p) sl) as [img|].
    + apply (ends_bind _ (counts_to n k));
        [apply ends_add_new_slide; [intros x st H; exact H | intros; exact I]
        | intros _].
      apply (ends_try _ _ (fun e st => is_cancellation e = true \/ counts_to n k st));
        [now apply ends_try_body|].
      intros e. unfold on_exception.
      destruct (is_cancellation e) eqn:He; [intros st _; exact I|].
      apply (ends_bind _ (counts_to n k)).
      * intros st [Hc|H]; [discriminate | exact H].
      * intros st1.
        apply (ends_bind _ (counts_to n (S k)));
          [apply ends_failure | intros _; apply Hn].
    + apply (ends_bind _ (counts_to n (S k))); [|intros _; apply Hn].
      intros st [H1 H2]. unfold counts_to, accounted in *; simpl. lia.
Qed.

Lemma ends_slides_loop (n k : nat) (p : run_params) (slides : list slide) (idx : nat) :
  only_cancels (progress_callback p) ->
  ends_in (counts_to n k) (slides_loop p idx slides)
          (counts_to n (k + List.length slides)) (fun _ _ => True).
Proof.
  intros Hcb. revert k idx; induction slides as [|sl rest IH]; intros k idx; simpl.
  - intros st H. now rewrite Nat.add_0_r.
  - apply (ends_bind _ (counts_to n (S k))); [now apply ends_slide_step | intros _].
    replace (k + S (List.length rest))%nat with (S k + List.length rest)%nat by lia.
    apply IH.
Qed.

(** When the progress callback is absent, or raises nothing but
    cancellations, a run that completes has every slide in exactly one
    of the three counters. *)
Lemma counters_add_up (p : run_params) (prs : list slide) (st : state) :
  only_cancels (progress_callback p) ->
  create_translated_ppt p prs = (Ok tt, st) ->
  (processed_slides (st_stats st) + skipped_slides (st_stats st)
   + failed_slides (st_stats st) = total_slides (st_stats st))%nat
  /\ total_slides (st_stats st) = List.length prs.
Proof.
  intros Hcb Hrun.
  pose proof (ends_slides_loop (List.length prs) 0 p prs 0 Hcb (initial_state p prs)) as H.
  unfold create_translated_ppt in Hrun. rewrite Hrun in H.
  destruct H as [H1 H2]; [split; reflexivity|].
  unfold accounted in H1. simpl in H1. split; [lia | exact H2].
Qed.

(* --------------------------------------------------------------------- *)
(** ** The repair of a truncated answer *)
(* --------------------------------------------------------------------- *)

Lemma is_boundary_cases (c : char) :
  is_boundary c = true ->
  In c [125; 93; 34; 101; 108; 115; 110; 114; 117]%N.
Proof.
  unfold is_boundary, boundary_tokens.
  change (py "}") with [125%N]. change (py "]") with [93%N].
  change [QUOTE] with [34%N].
  change (py "0123456789") with [48; 49; 50; 51; 52; 53; 54; 55; 56; 57]%N.
  change (py "e") with [101%N]. change (py "l") with [108%N].
  change (py "s") with [115%N]. change (py "n") with [110%N].
  change (py "r") with [114%N]. change (py "u") with [117%N].
  cbn [existsb str_eqb].
  rewrite !andb_true_r, andb_false_r, orb_false_r. cbn [orb].
  intros H.
  repeat (apply orb_true_iff in H; destruct H as [H|H]);
    apply N.eqb_eq in H; subst c; simpl; tauto.
Qed.

Lemma boundary_not_stripped (c : char) :
  is_boundary c = true ->
  isspace c = false /\ mem c (py ",") = false /\ N.eqb c BACKSLASH = false.
Proof.
  intros H. apply is_boundary_cases in H. simpl in H.
  repeat (destruct H as [<-|H]; [repeat split; reflexivity|]). destruct H.
Qed.

Lemma dropwhile_split (p : char -> bool) (s : str) :
  exists pre, s = pre ++ dropwhile p s /\ forallb p pre = true.
Proof.
  induction s as [|c r [pre [IH1 IH2]]]; simpl.
  - now exists [].
  - destruct (p c) eqn:Hc.
    + exists (c :: pre). simpl. rewrite Hc, IH2. split; [now rewrite <- IH1 | reflexivity].
    + now exists [].
Qed.

Lemma forallb_rev (p : char -> bool) (s : str) : forallb p (rev s) = forallb p s.
Proof.
  induction s as [|c r IH]; [reflexivity|]. simpl.
  rewrite forallb_app, IH. simpl. rewrite andb_true_r. apply andb_comm.
Qed.

(** The cut keeps the text up to its last boundary character. *)
Lemma cut_at_last_boundary_spec (text : str) :
  let candidate := cut_at_last_boundary text in
  (exists dropped,
      text = candidate ++ dropped
      /\ forallb (fun c => negb (is_boundary c)) dropped = true)
  /\ (candidate <> [] ->
      exists c rest, rev candidate = c :: rest /\ is_boundary c = true).
Proof.
  unfold cut_at_last_boundary.
  set (p := fun c => negb (is_boundary c)). split.
  - destruct (dropwhile_split p (rev text)) as [pre [H1 H2]].
    exists (rev pre). split.
    + rewrite <- rev_app_distr, <- H1. now rewrite rev_involutive.
    + now rewrite forallb_rev.
  - intros Hne. rewrite rev_involutive.
    destruct (dropwhile p (rev text)) as [|c rest] eqn:Hd; [now destruct Hne|].
    exists c, rest. split; [reflexivity|].
    apply dropwhile_head in Hd. unfold p in Hd. now apply negb_false_iff in Hd.
Qed.

Lemma removelast_Forall {A} (P : A -> Prop) (l : list A) :
  Forall P l -> Forall P (removelast l).
Proof.
  induction l as [|x l IH]; intros H; [constructor|].
  inversion H; subst. simpl. destruct l; [constructor|]. constructor; auto.
Qed.

Lemma walk_step_opens (st : walk_state) (c : char) :
  Forall is_open (stack st) -> Forall is_open (stack (walk_step st c)).
Proof.
  intros H. unfold walk_step.
  repeat match goal with
         | |- context [if ?b then _ else _] => destruct b eqn:?
         end; simpl; auto using removelast_Forall.
  apply Forall_app; split; [assumption|]. constructor; [|constructor].
  match goal with
  | Hb : (_ || _)%bool = true |- _ =>
      apply orb_true_iff in Hb; destruct Hb as [Hb|Hb]; apply N.eqb_eq in Hb;
      [left | right]; exact Hb
  end.
Qed.

Lemma walk_from_opens (s : str) (st : walk_state) :
  Forall is_open (stack st) -> Forall is_open (stack (walk_from st s)).
Proof.
  revert st; induction s as [|c r IH]; intros st H; [exact H|].
  apply IH. now apply walk_step_opens.
Qed.

Lemma walk_app (a b : str) : walk (a ++ b) = walk_from (walk a) b.
Proof. unfold walk, walk_from. apply fold_left_app. Qed.

Lemma walk_step_not_escaped (st : walk_state) (c : char) :
  N.eqb c BACKSLASH = false -> escape_next st = false ->
  escape_next (walk_step st c) = false.
Proof.
  intros Hc He. unfold walk_step. rewrite He, Hc.
  repeat match goal with
         | |- context [if ?b then _ else _] => destruct b
         end; simpl; auto.
Qed.

Lemma walk_step_after_escape (st : walk_state) (c : char) :
  escape_next st = true -> escape_next (walk_step st c) = false.
Proof. intros He. unfold walk_step. now rewrite He. Qed.

(** After a character that is not a backslash the walk is not waiting
    for an escaped character. *)
Lemma walk_last_not_backslash (s : str) (c : char) :
  N.eqb c BACKSLASH = false -> escape_next (walk (s ++ [c])) = false.
Proof.
  intros Hc. rewrite walk_app. simpl.
  destruct (escape_next (walk s)) eqn:He.
  - now apply walk_step_after_escape.
  - now apply walk_step_not_escaped.
Qed.

(** Outside a string, the closers of a stack empty it. *)
Lemma closers_empty_stack (stk : list char) :
  Forall is_open stk ->
  walk_from (mkWalk stk false false) (closers_of stk) = mkWalk [] false false.
Proof.
  induction stk as [|x stk IH] using rev_ind; intros H; [reflexivity|].
  apply Forall_app in H. destruct H as [Hstk Hx]. inversion Hx as [|? ? Hopen _]; subst.
  unfold closers_of. rewrite rev_app_distr. simpl.
  assert (Hstep : walk_step (mkWalk (stk ++ [x]) false false) (closing x)
                  = mkWalk stk false false).
  { unfold walk_step, top_is. simpl. rewrite rev_app_distr. simpl.
    rewrite removelast_last.
    destruct Hopen as [-> | ->]; reflexivity. }
  rewrite Hstep. now apply IH.
Qed.

Lemma removelast_len {A} (l : list A) :
  List.length (removelast l) = pred (List.length l).
Proof.
  induction l as [|x l IH]; [reflexivity|]. simpl.
  destruct l; [reflexivity|]. simpl in *. now rewrite IH.
Qed.

Lemma walk_step_pops_one (st : walk_state) (c : char) :
  (List.length (stack st) <= S (List.length (stack (walk_step st c))))%nat.
Proof.
  unfold walk_step.
  repeat match goal with
         | |- context [if ?b then _ else _] => destruct b
         end; cbn [stack]; rewrite ?length_app, ?removelast_len; cbn [List.length]; lia.
Qed.

Lemma walk_from_pops (s : str) (st : walk_state) :
  (List.length (stack st) <= List.length s + List.length (stack (walk_from st s)))%nat.
Proof.
  revert st; induction s as [|c r IH]; intros st; [simpl; lia|].
  change (walk_from st (c :: r)) with (walk_from (walk_step st c) r).
  pose proof (walk_step_pops_one st c). specialize (IH (walk_step st c)).
  cbn [List.length]. lia.
Qed.

(** [_repair_truncated_json] returns a text exactly when the stripped
    input has a boundary character. *)
Lemma repair_total (text : str) :
  (exists c, In c (strip text) /\ is_boundary c = true) <->
  (exists r, _repair_truncated_json text = Some r).
Proof.
  unfold _repair_truncated_json.
  destruct (cut_at_last_boundary_spec (strip text)) as [[dropped [Hsplit Hdrop]] Hlast].
  split.
  - intros [c [Hin Hc]].
    destruct (nonempty (strip text)) eqn:Hne; [|destruct (strip text); [destruct Hin | discriminate]].
    simpl.
    destruct (cut_at_last_boundary (strip text)) as [|x cand] eqn:Hcand.
    + exfalso. simpl in Hsplit. rewrite <- Hsplit in Hdrop.
      rewrite forallb_forall in Hdrop. specialize (Hdrop c Hin).
      rewrite Hc in Hdrop. discriminate.
    + destruct (stack (walk (x :: cand))); eexists; reflexivity.
  - intros [r Hr].
    destruct (negb (nonempty (strip text))); [discriminate|].
    destruct (cut_at_last_boundary (strip text)) as [|x cand] eqn:Hcand; [discriminate|].
    destruct Hlast as [c [rest [Hrev Hc]]]; [discriminate|].
    exists c. split; [|exact Hc].
    rewrite Hsplit. apply in_or_app. left.
    apply in_rev. rewrite Hrev. now left.
Qed.

(** When [_repair_truncated_json] returns a text, that text is the
    stripped input cut after its last boundary character (a closing
    brace or bracket, a double quote, or one of the letters e, l, s, n,
    r, u), followed by one closer for each bracket or brace that the
    string-aware walk finds open, innermost first.  No shorter suffix
    leaves the walk with an empty stack, and when the cut text ends
    outside a string the result is balanced for the walk. *)
Lemma repair_closes_open_brackets (text r : str) :
  _repair_truncated_json text = Some r ->
  let candidate := cut_at_last_boundary (strip text) in
  let st := walk candidate in
  (exists dropped,
      strip text = candidate ++ dropped
      /\ forallb (fun c => negb (is_boundary c)) dropped = true)
  /\ (exists c rest, rev candidate = c :: rest /\ is_boundary c = true)
  /\ r = candidate ++ closers_of (stack st)
  /\ List.length (closers_of (stack st)) = List.length (stack st)
  /\ (forall w, stack (walk (candidate ++ w)) = [] ->
                (List.length (closers_of (stack st)) <= List.length w)%nat)
  /\ (in_string st = false -> walk r = mkWalk [] false false).
Proof.
  intros Hr candidate st.
  destruct (cut_at_last_boundary_spec (strip text)) as [Hsplit Hlast].
  fold candidate in Hsplit, Hlast.
  unfold _repair_truncated_json in Hr. fold candidate in Hr.
  destruct (negb (nonempty (strip text))); [discriminate|].
  assert (Hne : candidate <> []) by (intros E; rewrite E in Hr; discriminate).
  destruct (Hlast Hne) as [c [rest [Hrev Hc]]].
  destruct (boundary_not_stripped c Hc) as [Hsp [Hcomma Hbs]].
  assert (Hcand : candidate = rev rest ++ [c]).
  { rewrite <- (rev_involutive candidate), Hrev. reflexivity. }
  assert (Hkeep : rstrip (rstrip_chars (py ",") (rstrip candidate)) = candidate).
  { unfold rstrip, rstrip_chars.
    rewrite (rstrip_by_fixed isspace candidate) by (rewrite Hrev; exact Hsp).
    rewrite (rstrip_by_fixed (fun c => mem c (py ",")) candidate)
      by (rewrite Hrev; exact Hcomma).
    apply rstrip_by_fixed. rewrite Hrev; exact Hsp. }
  assert (Hresult : r = candidate ++ closers_of (stack st)).
  { fold st in Hr. destruct candidate as [|x cand] eqn:Hx; [now destruct Hne|].
    rewrite <- Hx in *.
    destruct (stack st) as [|o stk] eqn:Hstk.
    - rewrite Hx in Hr. injection Hr as <-. unfold closers_of; simpl.
      now rewrite app_nil_r.
    - rewrite Hx in Hr. rewrite <- Hx in Hr. rewrite Hkeep in Hr.
      now injection Hr as <-. }
  assert (Hlen : List.length (closers_of (stack st)) = List.length (stack st)).
  { unfold closers_of. now rewrite length_map, length_rev. }
  split; [exact Hsplit|].
  split; [exists c, rest; now split|].
  split; [exact Hresult|].
  split; [exact Hlen|].
  split.
  - intros w Hw. rewrite Hlen.
    pose proof (walk_from_pops w st) as Hp.
    rewrite walk_app in Hw. fold st in Hw. rewrite Hw in Hp. simpl in Hp. lia.
  - intros Hin. rewrite Hresult, walk_app. fold st.
    assert (Hesc : escape_next st = false).
    { unfold st. rewrite Hcand. now apply walk_last_not_backslash. }
    assert (Hopen : Forall is_open (stack st)).
    { unfold st, walk. apply walk_from_opens. constructor. }
    destruct st as [stk ins esc]. simpl in *. subst ins esc.
    now apply closers_empty_stack.
Qed.

(** The answer cut between two blocks: the repair closes the four open
    brackets and the result is balanced and parses. *)
Example repair_between_blocks_parses :
  closed_between_blocks
  = cut_at_last_boundary (strip cut_between_blocks)
    ++ closers_of (stack (walk (cut_at_last_boundary (strip cut_between_blocks))))
  /\ walk closed_between_blocks = mkWalk [] false false
  /\ parses closed_between_blocks = true.
Proof.
  pose proof (repair_closes_open_brackets cut_between_blocks closed_between_blocks)
    as H.
  cbv zeta in H.
  destruct H as [_ [_ [H3 [_ [_ H6]]]]]; [vm_compute; reflexivity|].
  split; [exact H3|]. split; [apply H6; vm_compute; reflexivity | vm_compute; reflexivity].
Qed.

(** C5, at failing inputs.  Three objects cut after their complete
    first member ["a":1].  Cut right after that member, or inside the
    array of numbers that follows it, the text ends in a digit: the
    tuple of the backward scan holds the ten digits as one string,
    which no character equals, so the scan passes over the complete
    number, stops at the closing quote of the key before it, and the
    text returned is an object with a key and no value.  Cut inside the
    string that follows, the scan stops at the opening quote of that
    string, which it cannot tell from a closing one, and the closing
    brace is appended after the open quote.  None of the three texts
    returned parses, though in each case closing the text after the
    first member gives a text that does. *)
Theorem C5_repaired_text_does_not_parse :
  In (py "0123456789") boundary_tokens
  /\ forallb (fun c => negb (is_boundary c)) (py "0123456789") = true
  /\ _repair_truncated_json cut_after_number = Some (pyq "{'a'}")
  /\ loads (pyq "{'a'}") = Raise JSONDecodeError
  /\ parses (cut_after_number ++ py "}") = true
  /\ _repair_truncated_json cut_in_numbers = Some (pyq "{'a':1,'b'}")
  /\ loads (pyq "{'a':1,'b'}") = Raise JSONDecodeError
  /\ parses (firstn 6 cut_in_numbers ++ py "}") = true
  /\ parses (cut_in_numbers ++ py "]}") = true
  /\ cut_object = firstn 15 whole_object
  /\ parses whole_object = true
  /\ _repair_truncated_json cut_object = Some repaired_object
  /\ loads repaired_object = Raise JSONDecodeError
  /\ in_string (walk (cut_at_last_boundary (strip cut_object))) = true
  /\ parses (firstn 6 cut_object ++ py "}") = true.
Proof.
  split; [right; right; right; left; reflexivity|].
  repeat split; vm_compute; reflexivity.
Qed.

(** The same for an answer of the vision schema cut inside a text. *)
Example repair_fails_inside_text :
  exists r, _repair_truncated_json cut_answer = Some r
            /\ loads r = Raise JSONDecodeError.
Proof. eexists; split; vm_compute; reflexivity. Qed.
(* --------------------------------------------------------------------- *)
(** ** The recursion budget of [loads] *)
(* --------------------------------------------------------------------- *)

Lemma skip_ws_length (s : str) : (List.length (skip_ws s) <= List.length s)%nat.
Proof.
  unfold skip_ws. induction s as [|c r IH]; simpl; [lia|].
  destruct (is_json_ws c); simpl; lia.
Qed.

Lemma scanstring_length (s acc v rest : str) :
  scanstring acc s = Some (v, rest) -> (List.length rest < List.length s)%nat.
Proof.
  remember (List.length s) as n eqn:Hn. revert s acc Hn.
  induction n as [n IH] using lt_wf_ind. intros s acc Hn H.
  destruct s as [|c r]; [discriminate|]. simpl in Hn. simpl in H.
  destruct (N.eqb c QUOTE); [injection H as _ <-; subst n; lia|].
  destruct (N.eqb c BACKSLASH).
  - destruct r as [|e r1]; [discriminate|].
    destruct (N.eqb e 117%N).
    + destruct r1 as [|h1 [|h2 [|h3 [|h4 r2]]]]; try discriminate.
      destruct (hex4 h1 h2 h3 h4) as [u|]; [|discriminate].
      assert (Hr2 : forall a, scanstring a r2 = Some (v, rest) ->
                              (List.length rest < n)%nat).
      { intros a Ha.
        pose proof (IH (List.length r2) ltac:(subst n; simpl; lia) r2 a eq_refl Ha).
        subst n; simpl; lia. }
      destruct (is_high_surrogate u); [|now apply (Hr2 (u :: acc))].
      destruct r2 as [|b [|w [|k1 [|k2 [|k3 [|k4 r3]]]]]];
        try now apply (Hr2 (u :: acc)).
      destruct (N.eqb b BACKSLASH && N.eqb w 117%N); [|now apply (Hr2 (u :: acc))].
      destruct (hex4 k1 k2 k3 k4) as [u2|]; [|discriminate].
      destruct (is_low_surrogate u2); [|now apply (Hr2 (u :: acc))].
      pose proof (IH (List.length r3) ltac:(subst n; simpl; lia) r3 _ eq_refl H).
      subst n; simpl; lia.
    + destruct (escape_of e) as [x|]; [|discriminate].
      pose proof (IH (List.length r1) ltac:(subst n; simpl; lia) r1 _ eq_refl H).
      subst n; simpl; lia.
  - destruct (N.leb c 31%N); [discriminate|].
    pose proof (IH (List.length r) ltac:(subst n; lia) r _ eq_refl H).
    subst n; lia.
Qed.

Lemma take_digits_length (s : str) :
  (List.length (snd (take_digits s)) <= List.length s)%nat.
Proof.
  induction s as [|c r IH]; simpl; [lia|].
  destruct (ascii_digit c); simpl; [|lia].
  destruct (take_digits r); simpl in *; lia.
Qed.

Lemma take_sign_length (s : str) :
  (List.length (snd (take_sign s)) <= List.length s)%nat.
Proof.
  destruct s as [|c r]; simpl; [lia|]. destruct (N.eqb c 45%N); simpl; lia.
Qed.

Lemma take_int_length (s i rest : str) :
  take_int s = Some (i, rest) -> (List.length rest < List.length s)%nat.
Proof.
  destruct s as [|c r]; simpl; [discriminate|].
  destruct (N.eqb c 48%N); [intros E; injection E as _ <-; lia|].
  destruct (in_range 49%N 57%N c); [|discriminate].
  pose proof (take_digits_length r). destruct (take_digits r) as [d rr].
  intros E; injection E as _ <-. simpl in *. lia.
Qed.

Lemma take_frac_length (s : str) :
  (List.length (snd (take_frac s)) <= List.length s)%nat.
Proof.
  destruct s as [|c r]; simpl; [lia|].
  destruct (N.eqb c 46%N); simpl; [|lia].
  pose proof (take_digits_length r).
  destruct (take_digits r) as [[|d0 d] rr]; simpl in *; lia.
Qed.

Lemma take_exp_sign_length (r : str) :
  (List.length (snd (take_exp_sign r)) <= List.length r)%nat.
Proof.
  destruct r as [|g r']; simpl; [lia|].
  destruct (N.eqb g 43%N || N.eqb g 45%N); simpl; lia.
Qed.

Lemma take_exp_length (s : str) :
  (List.length (snd (take_exp s)) <= List.length s)%nat.
Proof.
  destruct s as [|c r]; [simpl; lia|]. unfold take_exp.
  destruct (N.eqb c 101%N || N.eqb c 69%N); [|simpl; lia].
  pose proof (take_exp_sign_length r) as Hq.
  destruct (take_exp_sign r) as [sg r1].
  cbn [snd] in Hq. pose proof (take_digits_length r1) as Hd.
  destruct (take_digits r1) as [[|d0 d] rr]; cbn [snd List.length] in *; lia.
Qed.

Lemma match_number_length (s l rest : str) :
  match_number s = Some (l, rest) -> (List.length rest < List.length s)%nat.
Proof.
  unfold match_number.
  pose proof (take_sign_length s) as H1. destruct (take_sign s) as [sign s1].
  destruct (take_int s1) as [[ip s2]|] eqn:Hi; [|discriminate].
  apply take_int_length in Hi.
  pose proof (take_frac_length s2) as H3. destruct (take_frac s2) as [frac s3].
  pose proof (take_exp_length s3) as H4. destruct (take_exp s3) as [ex s4].
  simpl in *. intros E; injection E as _ <-. lia.
Qed.

Lemma literal_length (w : string) (v v' : json) (s rest : str) :
  w <> EmptyString -> literal w v s = Some (v', rest) ->
  (List.length rest < List.length s)%nat.
Proof.
  intros Hw. unfold literal.
  destruct (startswith s (py w)) eqn:Hs; [|discriminate].
  intros E; injection E as _ <-.
  destruct w as [|a w]; [now destruct Hw|].
  destruct s as [|c r]; [discriminate|].
  rewrite length_skipn. cbn [py list_ascii_of_string map List.length]. simpl. lia.
Qed.

Lemma scan_atom_length (s : str) (v : json) (rest : str) :
  scan_atom s = Got v rest -> (List.length rest < List.length s)%nat.
Proof.
  unfold scan_atom, first_some. cbn [fold_right].
  destruct (literal "null" JNull s) as [[v0 r0]|] eqn:H1.
  { intros E; injection E as _ <-. eapply literal_length; [|exact H1]. discriminate. }
  destruct (literal "true" (JBool true) s) as [[v0 r0]|] eqn:H2.
  { intros E; injection E as _ <-. eapply literal_length; [|exact H2]. discriminate. }
  destruct (literal "false" (JBool false) s) as [[v0 r0]|] eqn:H3.
  { intros E; injection E as _ <-. eapply literal_length; [|exact H3]. discriminate. }
  destruct (literal "NaN" (JNum (py "NaN")) s) as [[v0 r0]|] eqn:H4.
  { intros E; injection E as _ <-. eapply literal_length; [|exact H4]. discriminate. }
  destruct (literal "Infinity" (JNum (py "Infinity")) s) as [[v0 r0]|] eqn:H5.
  { intros E; injection E as _ <-. eapply literal_length; [|exact H5]. discriminate. }
  destruct (literal "-Infinity" (JNum (py "-Infinity")) s) as [[v0 r0]|] eqn:H6.
  { intros E; injection E as _ <-. eapply literal_length; [|exact H6]. discriminate. }
  destruct (match_number s) as [[l r0]|] eqn:H7; simpl; [|discriminate].
  intros E; injection E as _ <-. eapply match_number_length; exact H7.
Qed.
Lemma scan_ok_bad {A} (n : nat) : scan_ok (@Bad A) n.
Proof. split; [discriminate | intros v rest H; discriminate]. Qed.

Lemma scan_ok_got {A} (v : A) (rest : str) (n : nat) :
  (List.length rest < n)%nat -> scan_ok (Got v rest) n.
Proof.
  intros H. split; [discriminate|]. intros v' rest' E. injection E as _ <-. exact H.
Qed.

Lemma scan_ok_weaken {A} (r : scan A) (n m : nat) :
  scan_ok r n -> (n <= m)%nat -> scan_ok r m.
Proof.
  intros [H1 H2] Hle. split; [exact H1|]. intros v rest E.
  specialize (H2 v rest E). lia.
Qed.

Lemma scan_ok_map {A B} (r : scan A) (g : A -> B) (n : nat) :
  scan_ok r n ->
  scan_ok (match r with Got v rest => Got (g v) rest | Bad => Bad | Deep => Deep end) n.
Proof.
  intros [H1 H2]. destruct r as [v rest| |]; [|apply scan_ok_bad | now destruct H1].
  apply scan_ok_got. exact (H2 v rest eq_refl).
Qed.

Lemma skip_ws_cons_length (s : str) (d : char) (r : str) :
  skip_ws s = d :: r -> (S (List.length r) <= List.length s)%nat.
Proof. intros H. pose proof (skip_ws_length s) as Hl. rewrite H in Hl. exact Hl. Qed.

(** With a budget above twice the length of the text (and one more for
    the elements of an array) the scanner never runs out of budget, and
    what it returns is shorter than what it was given. *)
Lemma scan_budget (fuel : nat) :
  (forall s, (2 * List.length s < fuel)%nat ->
             scan_ok (scan_once fuel s) (List.length s))
  /\ (forall s acc, (2 * List.length s < fuel)%nat ->
                    scan_ok (members fuel acc s) (List.length s))
  /\ (forall s acc, (2 * List.length s + 1 < fuel)%nat ->
                    scan_ok (elements fuel acc s) (List.length s)).
Proof.
  induction fuel as [|f [IHs [IHm IHe]]].
  - repeat split; intros; lia.
  - split; [|split].
    + intros s Hf. cbn [scan_once].
      destruct s as [|c r]; [apply scan_ok_bad|].
      cbn [List.length] in *.
      destruct (N.eqb c QUOTE).
      { destruct (scanstring [] r) as [[v rest]|] eqn:Hs; [|apply scan_ok_bad].
        apply scan_ok_got. apply scanstring_length in Hs. lia. }
      destruct (N.eqb c 123%N).
      { destruct (skip_ws r) as [|d r'] eqn:Hw; [apply scan_ok_bad|].
        apply skip_ws_cons_length in Hw.
        destruct (N.eqb d 125%N); [apply scan_ok_got; lia|].
        apply (scan_ok_weaken _ (List.length (d :: r'))); [|cbn [List.length]; lia].
        apply (scan_ok_map (members f [] (d :: r')) JObj).
        apply IHm. cbn [List.length]. lia. }
      destruct (N.eqb c 91%N).
      { destruct (skip_ws r) as [|d r'] eqn:Hw; [apply scan_ok_bad|].
        apply skip_ws_cons_length in Hw.
        destruct (N.eqb d 93%N); [apply scan_ok_got; lia|].
        apply (scan_ok_weaken _ (List.length (d :: r'))); [|cbn [List.length]; lia].
        apply (scan_ok_map (elements f [] (d :: r')) JArr).
        apply IHe. cbn [List.length]. lia. }
      unfold scan_atom.
      pose proof (scan_atom_length (c :: r)) as Ha. unfold scan_atom in Ha.
      destruct (first_some _) as [[v rest]|]; [|apply scan_ok_bad].
      apply scan_ok_got. exact (Ha v rest eq_refl).
    + intros s acc Hf. cbn [members].
      destruct s as [|c r]; [apply scan_ok_bad|]. cbn [List.length] in *.
      destruct (N.eqb c QUOTE); [|apply scan_ok_bad].
      destruct (scanstring [] r) as [[k r1]|] eqn:Hs; [|apply scan_ok_bad].
      apply scanstring_length in Hs.
      destruct (skip_ws r1) as [|d r2] eqn:Hw1; [apply scan_ok_bad|].
      apply skip_ws_cons_length in Hw1.
      destruct (N.eqb d 58%N); [|apply scan_ok_bad].
      pose proof (skip_ws_length r2) as Hw2.
      destruct (IHs (skip_ws r2) ltac:(lia)) as [Hd Hg].
      destruct (scan_once f (skip_ws r2)) as [v r3| |];
        [|apply scan_ok_bad | now destruct Hd].
      specialize (Hg v r3 eq_refl).
      destruct (skip_ws r3) as [|e r4] eqn:Hw3; [apply scan_ok_bad|].
      apply skip_ws_cons_length in Hw3.
      destruct (N.eqb e 125%N); [apply scan_ok_got; lia|].
      destruct (N.eqb e 44%N); [|apply scan_ok_bad].
      pose proof (skip_ws_length r4) as Hw4.
      apply (scan_ok_weaken _ (List.length (skip_ws r4))); [|lia].
      apply IHm. lia.
    + intros s acc Hf. cbn [elements].
      destruct (IHs s ltac:(lia)) as [Hd Hg].
      destruct (scan_once f s) as [v r1| |]; [|apply scan_ok_bad | now destruct Hd].
      specialize (Hg v r1 eq_refl).
      destruct (skip_ws r1) as [|e r2] eqn:Hw1; [apply scan_ok_bad|].
      apply skip_ws_cons_length in Hw1.
      destruct (N.eqb e 93%N); [apply scan_ok_got; lia|].
      destruct (N.eqb e 44%N); [|apply scan_ok_bad].
      pose proof (skip_ws_length r2) as Hw2.
      apply (scan_ok_weaken _ (List.length (skip_ws r2))); [|lia].
      apply IHe. lia.
Qed.

(** [loads] either returns a value or raises [JSONDecodeError]: its
    budget is enough for every text. *)
Lemma loads_total (s : str) :
  (exists v, loads s = Ok v) \/ loads s = Raise JSONDecodeError.
Proof.
  unfold loads.
  pose proof (skip_ws_length s) as Hl.
  destruct (scan_budget (2 * List.length s + 2)) as [Hs _].
  destruct (Hs (skip_ws s) ltac:(lia)) as [Hd _].
  destruct (scan_once (2 * List.length s + 2) (skip_ws s)) as [v rest| |].
  - destruct (skip_ws rest); [left; now exists v | now right].
  - now right.
  - now destruct Hd.
Qed.

(** The decoder on the texts that separate a strict JSON reader from a
    lenient one. *)
Example loads_conformance :
  map parses
      [pyq "{'a': 1,}"; py "01"; py "-"; py "1."; py "1.e5"; py "1e"; py "[1,]";
       py "NaN"; py "-Infinity"; py "Infinity"; pyq "'\ud83d\ude00'"; pyq "'\ud83d'";
       pyq "'a" ++ [9%N] ++ pyq "b'"; py " 1 "; pyq "{'a':1}x"; py "1e5"; py "-0";
       pyq "{'a':1,'a':2}"; py "tru"; py "nul"; pyq "'\x'"; py "2.5e+3"; py "1E-2";
       py "0.0"; py "[1 2]"; pyq "{'a' : 1 , 'b':[ ] }"]
  = [false; false; false; false; false; false; false;
     true; true; true; true; true;
     false; true; false; true; true;
     true; false; false; false; true; true;
     true; false; true]
  /\ loads (pyq "{'a':1,'a':2}") = Ok (JObj [(py "a", JNum (py "1")); (py "a", JNum (py "2"))])
  /\ get (JObj [(py "a", JNum (py "1")); (py "a", JNum (py "2"))]) (py "a") JNull
     = Ok (JNum (py "2"))
  /\ loads (pyq "'\ud83d\ude00'") = Ok (JStr [128512%N]).
Proof. repeat split; vm_compute; reflexivity. Qed.

(** The line classifiers of the OCR clean-up. *)
Example classifiers :
  is_title (py "12 - Dosage") = true
  /\ is_title (py "Which one? (Question)") = true
  /\ is_title (py "Dosage") = false
  /\ is_bullet (py "- item") = true
  /\ is_bullet ([8226%N] ++ py " item") = true
  /\ is_bullet (py "a item") = true
  /\ is_bullet (py "An item") = false
  /\ is_scale_artifact (py "1 2 3 4 5") = true
  /\ is_scale_artifact (py "A BB CCC DD E") = true
  /\ is_scale_artifact (py "Take 1 2 3 4 pills daily") = false
  /\ is_garbage_line (py "x f.") = false
  /\ is_garbage_line (py "lni.") = true
  /\ is_garbage_line (py "@@ #a") = true
  /\ reconstruct (py "Hello!" ++ [NL; NL; NL] ++ py "1 2 3 4 5" ++ [NL] ++ py "World")
     = py "Hello!" ++ [NL; NL] ++ py "World".
Proof. repeat split; vm_compute; reflexivity. Qed.

(** The two examples of the translation prompt, as
    [post_process_translation] enforces them. *)
Example post_process_examples :
  post_process_translation (py "Summer is joy" ++ [NL] ++ py "and travel.")
  = py "Summer is joy and travel."
  /\ post_process_translation (py "# Item 1" ++ [NL; NL] ++ py "# Item 2")
     = py "# Item 1" ++ [NL] ++ py "# Item 2"
  /\ post_process_translation (py "Regards, John your Support" ++ [NL] ++ py "Next")
     = py "Regards, John your Support" ++ [NL] ++ py "Next".
Proof. repeat split; vm_compute; reflexivity. Qed.
(** Thirty-one lines at 11 points: ten reductions of half a point bring
    every run to the floor of 6 points, where the loop stops; the red
    runs are the bold ones. *)
Example red_lines_fit :
  let tf := fst (rendered_frame red_lines 11 false) in
  let frames := fit_loop 6 20 tf in
  snd (rendered_frame red_lines 11 false) = None
  /\ List.length (frame_runs tf) = 31%nat
  /\ map (size_at 0) (tf :: frames)
     = map Some [1100; 1050; 1000; 950; 900; 850; 800; 750; 700; 650; 600]%Z
  /\ List.length (filter (fun r => match font_color r with
                                   | Some c => if N.eqb (fst (fst c)) 211 then true else false
                                   | None => false
                                   end) (frame_runs tf)) = 15%nat
  /\ fit_step 6 (last frames tf) = None.
Proof. vm_compute. repeat split; reflexivity. Qed.
Lemma rmap_Forall2 {A B} (f : A -> res B) (l : list A) (l' : list B) :
  rmap f l = Ok l' -> Forall2 (fun a b => f a = Ok b) l l'.
Proof.
  revert l'; induction l as [|a l IH]; intros l' H; simpl in H.
  - injection H as <-. constructor.
  - destruct (f a) as [b|e] eqn:Hfa; simpl in H; [|discriminate].
    destruct (rmap f l) as [bs|e] eqn:Hr; simpl in H; [|discriminate].
    injection H as <-. constructor; auto.
Qed.

Lemma rbind_ok {A B} (m : res A) (f : A -> res B) (b : B) :
  rbind m f = Ok b -> exists a, m = Ok a /\ f a = Ok b.
Proof. destruct m as [a|e]; simpl; [eauto | discriminate]. Qed.

Lemma size_map_get_range (v : json) (z : Z) :
  size_map_get v = Ok z -> (-4 <= z <= 7)%Z.
Proof.
  unfold size_map_get. destruct v; try discriminate; intros H; injection H as <-;
    try lia.
  unfold SIZE_MAP; cbn [assoc].
  repeat match goal with
         | |- context [if ?c then _ else _] => destruct c
         end; lia.
Qed.

Lemma parse_block_shape (al blk : json) (b : block) :
  parse_block al blk = Ok b -> block_entry al blk b /\ size_in_range (fmt b).
Proof.
  unfold parse_block. intros H.
  apply rbind_ok in H. destruct H as [sz [Hsz H]].
  apply rbind_ok in H. destruct H as [z [Hz H]].
  apply rbind_ok in H. destruct H as [text [Htext H]].
  apply rbind_ok in H. destruct H as [bo [Hbold H]].
  apply rbind_ok in H. destruct H as [co [Hcolor H]].
  apply rbind_ok in H. destruct H as [alg [Halg H]].
  injection H as <-. unfold block_entry, size_in_range.
  cbn [original translated has_emoji fmt bold color alignment size_relative].
  repeat split; try assumption.
  - exact (proj1 (size_map_get_range sz z Hz)).
  - exact (proj2 (size_map_get_range sz z Hz)).
Qed.

Lemma parse_line_entry (line : json) (it : item) :
  parse_line line = Ok it -> line_entry line it.
Proof.
  unfold parse_line. intros H.
  apply rbind_ok in H. destruct H as [blocks [Hblocks H]].
  apply rbind_ok in H. destruct H as [la [Hla H]].
  apply rbind_ok in H. destruct H as [bs [Hbs H]].
  injection H as <-.
  exists bs, la. split; [reflexivity|]. split; [exact Hla|].
  exists blocks. split; [exact Hblocks|].
  apply rmap_Forall2 in Hbs.
  clear - Hbs. induction Hbs as [|x b l l' Hx _ IH]; constructor; [|exact IH].
  apply parse_block_shape in Hx. tauto.
Qed.

Lemma rmap_total {A B} (f : A -> res B) (P : A -> Prop) (l : list A) :
  (forall a, P a -> exists b, f a = Ok b) -> Forall P l -> exists l', rmap f l = Ok l'.
Proof.
  intros Hf H. induction H as [|a l Ha _ [l' IH]]; [now exists []|].
  destruct (Hf a Ha) as [b Hb]. exists (b :: l'). simpl. rewrite Hb. simpl.
  rewrite IH. reflexivity.
Qed.

Lemma parse_block_total (al blk : json) :
  answer_block blk -> exists b, parse_block al blk = Ok b.
Proof.
  intros [kvs [-> [Hl Hm]]]. unfold parse_block. cbn [get rbind].
  destruct (lookup (py "size") kvs) as [v|] eqn:Hsize.
  - destruct v; cbn [size_map_get rbind]; try (eexists; reflexivity).
    + now destruct (Hl l).
    + now destruct (Hm l).
  - cbn [size_map_get rbind]. eexists; reflexivity.
Qed.

Lemma parse_line_total (line : json) :
  answer_line line -> exists it, parse_line line = Ok it.
Proof.
  intros [kvs [blocks [-> [Hblocks Hall]]]]. unfold parse_line.
  rewrite Hblocks. cbn [rbind get].
  destruct (rmap_total (parse_block match lookup (py "alignment") kvs with
                                    | Some v => v
                                    | None => JStr (py "left")
                                    end) answer_block blocks) as [bs Hbs];
    [intros a; apply parse_block_total | exact Hall |].
  rewrite Hbs. eexists; reflexivity.
Qed.

(** X1.  For an answer in the "lines" schema: a dictionary the parser
    returns has one line entry for each line of the answer, in the
    order of the answer; each entry has the alignment of its line and
    one block for each block of the line, with the values of the answer
    unchanged, whatever their types; and the dictionary carries neither
    text nor token counts.  The parser returns a dictionary whenever
    the lines are objects whose blocks are objects with no list or
    object for a size. *)
Theorem parsed_lines_keep_their_order (kvs : list (str * json)) (lines : list json) :
  lookup (py "lines") kvs = Some (JArr lines) ->
  (forall d, _parse_vision_response (JObj kvs) = Ok (Some d) ->
     Forall2 line_entry lines (structure d)
     /\ original_text d = [] /\ translated_text d = [] /\ doc_usage d = None)
  /\ (Forall answer_line lines ->
      exists d, _parse_vision_response (JObj kvs) = Ok (Some d)).
Proof.
  intros Hl. unfold _parse_vision_response.
  cbn [has rbind]. rewrite Hl. cbn [get rbind iter].
  rewrite Hl. cbn [rbind iter]. split.
  - intros d H.
    apply rbind_ok in H. destruct H as [s [Hs H]].
    injection H as <-. cbn. repeat split.
    apply rmap_Forall2 in Hs.
    clear - Hs. induction Hs; constructor; auto using parse_line_entry.
  - intros Hall.
    destruct (rmap_total parse_line answer_line lines parse_line_total Hall) as [s Hs].
    rewrite Hs. eexists; reflexivity.
Qed.

(** An answer with a null alignment, a number for bold and a number
    for a text is read like any other. *)
Lemma parsed_lines_keep_their_order_witness :
  (forall d,
      _parse_vision_response (JObj [(py "lines", JArr odd_lines)]) = Ok (Some d) ->
      Forall2 line_entry odd_lines (structure d)
      /\ original_text d = [] /\ translated_text d = [] /\ doc_usage d = None)
  /\ (Forall answer_line odd_lines ->
      exists d, _parse_vision_response (JObj [(py "lines", JArr odd_lines)]) = Ok (Some d)).
Proof.
  apply (parsed_lines_keep_their_order [(py "lines", JArr odd_lines)] odd_lines).
  reflexivity.
Defined.

(** The dictionary made of that answer, and its rendering: the run of
    the first block is bold and red; the text of the second block has
    no [endswith], so the renderer raises and the text box stays as it
    is then. *)
Example odd_answer :
  _parse_vision_response (JObj [(py "lines", JArr odd_lines)]) = Ok (Some odd_document)
  /\ rendered_frame (structure odd_document) 11 false
     = (mkFrame [mkParagraph (Some LEFT) (Some (115 # 100)%Q)
                   [mkRun (py "Hello") (Some true) (Some 1100%Z)
                          (Some (py "Calibri")) (Some RED)]]
                true (100, 100, 100, 100)%Z,
        Some AttributeError).
Proof. split; vm_compute; reflexivity. Qed.

(** A line with a null alignment is copied as it is; the slide is
    rendered, with the left alignment, and counted processed. *)
Example null_alignment_is_processed :
  let out := create_translated_ppt claude_run [slide_of image_null_alignment] in
  fst out = Ok tt
  /\ processed_slides (st_stats (snd out)) = 1%nat
  /\ failed_slides (st_stats (snd out)) = 0%nat
  /\ map structure (counted (st_trace (snd out)))
     = [[LineItem [mkBlock (JStr (py "Hello")) (JStr (py "Hello"))
                     (mkFormatting (JBool false) 0 (JStr (py "black")) JNull) true]
           JNull]]
  /\ st_new_prs (snd out)
     = [[Picture 0 (Some image_null_alignment);
         TextBox (mkFrame [mkParagraph (Some LEFT) (Some (115 # 100)%Q)
                             [mkRun (py "Hello") (Some false) (Some 1100%Z)
                                    (Some (py "Calibri")) (Some BLACK)]]
                    true (50, 50, 80, 80)%Z)]].
Proof. vm_compute. repeat split; reflexivity. Qed.


(** X2.  An answer in the legacy "blocks" schema is accepted by the
    parser, which makes a bare block of each entry; the renderer called
    without the OCR mode, as it is for the two vision providers, writes
    nothing for such a structure and raises nothing: the text box stays
    as it was created. *)
Theorem legacy_blocks_render_nothing (result : json) (d : document) (base : Z) :
  has (py "lines") result = Ok false ->
  _parse_vision_response result = Ok (Some d) ->
  Forall (fun it => exists b, it = BlockItem b) (structure d)
  /\ rendered_frame (structure d) base false = (new_frame, None).
Proof.
  intros Hl H. unfold _parse_vision_response in H. rewrite Hl in H.
  cbn [rbind] in H.
  apply rbind_ok in H. destruct H as [hb [_ H]]. destruct hb; [|discriminate].
  apply rbind_ok in H. destruct H as [ls [_ H]].
  apply rbind_ok in H. destruct H as [s [Hs H]].
  injection H as <-. cbn [structure vision_document].
  assert (Hall : Forall (fun it => exists b, it = BlockItem b) s).
  { apply rmap_Forall2 in Hs. clear - Hs.
    induction Hs as [|x it ls s Hx _ IH]; constructor; [|exact IH].
    apply rbind_ok in Hx. destruct Hx as [b [_ Hx]]. injection Hx as <-. eauto. }
  split; [exact Hall|].
  unfold rendered_frame.
  destruct s as [|it s']; [reflexivity|].
  inversion Hall as [|? ? [b ->] _]; subst. reflexivity.
Qed.

Lemma legacy_blocks_render_nothing_witness :
  Forall (fun it => exists b, it = BlockItem b) (structure legacy_document)
  /\ rendered_frame (structure legacy_document) 11 false = (new_frame, None).
Proof.
  apply (legacy_blocks_render_nothing legacy_result legacy_document 11); reflexivity.
Defined.




(* --------------------------------------------------------------------- *)
(** ** The calls of the adapters *)
(* --------------------------------------------------------------------- *)

Lemma call_claude_vision_trace (img : image) (prompt : prompt)
    (api_key : option str) (model : str) :
  snd (call_claude_vision img prompt api_key model) = [EvClaude prompt].
Proof.
  unfold call_claude_vision, messages_create.
  destruct (anthropic_says img 0 prompt) as [text i o | msg0]; [|reflexivity].
  rewrite compact_retry_unbound.
  destruct (loads (extract_json text)) as [result|e].
  - destruct (_parse_vision_response result); reflexivity.
  - destruct e; try reflexivity.
    destruct (_repair_truncated_json (extract_json text)) as [r|]; [|reflexivity].
    destruct (nonempty r); [|reflexivity].
    destruct (loads r) as [result|e]; [|destruct e; reflexivity].
    destruct (_parse_vision_response result); reflexivity.
Qed.

Lemma call_openrouter_vision_trace (img : image) (prompt : prompt)
    (api_key : option str) (model : str) :
  snd (call_openrouter_vision img prompt api_key model)
  = snd (post_with_retry VisionPost (vision_http img)).
Proof.
  unfold call_openrouter_vision.
  destruct (post_with_retry VisionPost (vision_http img)) as [exit tr].
  cbn [snd].
  match goal with
  | |- context [match ?b with Ok _ => _ | Raise _ => _ end] => destruct b as [r|e]
  end; [reflexivity | destruct e; reflexivity].
Qed.

(** The calls of a retry loop: posts of its own site, and waits. *)
Lemma post_with_retry_calls (site : post_site) (http : nat -> http_reply) :
  Forall (fun c => match c with
                   | EvPost s _ => s = site
                   | EvSleep _ => True
                   | _ => False
                   end) (snd (post_with_retry site http)).
Proof.
  rewrite post_with_retry_trace.
  pose proof (stop_attempt_bounds http max_retries 0) as Hk.
  change max_retries with 3%nat in *.
  destruct (stop_attempt http 0 3) as [|[|[|[|k]]]]; try lia;
    cbn; repeat constructor.
Qed.

(* --------------------------------------------------------------------- *)
(** ** The answer of the Anthropic client *)
(* --------------------------------------------------------------------- *)

Lemma contains_find (s sub : str) :
  contains s sub = match find s sub with Some _ => true | None => false end.
Proof.
  induction s as [|c s IH]; cbn [contains find].
  - destruct (startswith [] sub); reflexivity.
  - destruct (startswith (c :: s) sub); [reflexivity|].
    cbn [orb]. rewrite IH. destruct (find s sub); reflexivity.
Qed.

Lemma startswith_app (p s : str) : startswith (p ++ s) p = true.
Proof.
  induction p as [|c p IH]; [destruct s; reflexivity|].
  cbn [app startswith]. now rewrite N.eqb_refl, IH.
Qed.

Lemma find_prefix (p s : str) : find (p ++ s) p = Some 0%nat.
Proof.
  destruct (p ++ s) eqn:E; cbn [find]; rewrite <- E, startswith_app; reflexivity.
Qed.

Lemma find_absent (c : char) (sub s : str) :
  forallb (fun x => negb (N.eqb x c)) s = true -> find s (c :: sub) = None.
Proof.
  induction s as [|x s IH]; intros H; cbn [find startswith]; [reflexivity|].
  cbn [forallb] in H. apply andb_true_iff in H. destruct H as [Hx Hs].
  apply negb_true_iff in Hx. rewrite N.eqb_sym in Hx. rewrite Hx. cbn [andb].
  now rewrite (IH Hs).
Qed.

Lemma dropwhile_app_fixed (p : char -> bool) (x y : str) :
  dropwhile p y = y -> dropwhile p (x ++ y) = dropwhile p x ++ y.
Proof.
  intros Hy. induction x as [|c x IH]; cbn [dropwhile app]; [exact Hy|].
  destruct (p c); [exact IH | reflexivity].
Qed.

Lemma forallb_dropwhile (q p : char -> bool) (s : str) :
  forallb q s = true -> forallb q (dropwhile p s) = true.
Proof.
  induction s as [|c s IH]; intros H; cbn [dropwhile]; [reflexivity|].
  destruct (p c); [|exact H].
  cbn [forallb] in H. apply andb_true_iff in H. now apply IH.
Qed.

Lemma forallb_rstrip_by (q p : char -> bool) (s : str) :
  forallb q s = true -> forallb q (rstrip_by p s) = true.
Proof.
  intros H. unfold rstrip_by. rewrite forallb_rev.
  apply forallb_dropwhile. now rewrite forallb_rev.
Qed.

Lemma strip_fenced (body : str) :
  strip (FENCE_JSON ++ body) = FENCE_JSON ++ rstrip body.
Proof.
  unfold strip, lstrip, lstrip_by.
  change (dropwhile isspace (FENCE_JSON ++ body)) with (FENCE_JSON ++ body).
  unfold rstrip, rstrip_by. rewrite rev_app_distr.
  rewrite dropwhile_app_fixed by reflexivity.
  now rewrite rev_app_distr, rev_involutive.
Qed.

(** X5.  An answer that opens a json fence and never closes it (no
    backquote follows the opening fence): the failed search for the
    closing fence gives -1, the slice stops before the last character,
    and the text handed to the decoder is the answer after the fence
    without its last character. *)
Theorem unclosed_fence_loses_last_character (body : str) :
  forallb (fun c => negb (N.eqb c 96%N)) body = true ->
  extract_json (FENCE_JSON ++ body) = strip (removelast (rstrip body)).
Proof.
  intros Hbody. unfold extract_json. rewrite strip_fenced.
  rewrite contains_find, find_prefix.
  unfold between_fences. rewrite find_prefix.
  cbn [Nat.add]. unfold find_from.
  change (List.length FENCE_JSON) with 7%nat.
  change (skipn 7 (FENCE_JSON ++ rstrip body)) with (rstrip body).
  unfold FENCE. rewrite find_absent; [reflexivity|].
  now apply forallb_rstrip_by.
Qed.

Lemma unclosed_fence_loses_last_character_witness :
  extract_json (FENCE_JSON ++ NL :: pyq "{'a':1}") = pyq "{'a':1".
Proof.
  exact (unclosed_fence_loses_last_character (NL :: pyq "{'a':1}") eq_refl).
Defined.

(** X6.  [call_claude_vision] sends one request, whatever the client
    answers, and never raises; an exception of the client gives the
    error dictionary with the classified message. *)
Theorem claude_is_called_once (img : image) (prompt : prompt)
    (api_key : option str) (model : str) :
  snd (call_claude_vision img prompt api_key model) = [EvClaude prompt]
  /\ (forall msg, anthropic_says img 0 prompt = ApiException msg ->
        fst (call_claude_vision img prompt api_key model)
        = RError (classify_claude_error msg)).
Proof.
  split; [apply call_claude_vision_trace|].
  intros msg H. unfold call_claude_vision, messages_create. rewrite H. reflexivity.
Qed.

Lemma parsed_without_usage (result : json) (d : document) :
  _parse_vision_response result = Ok (Some d) -> doc_usage d = None.
Proof.
  unfold _parse_vision_response. intros H.
  apply rbind_ok in H. destruct H as [hl [_ H]]. destruct hl.
  - apply rbind_ok in H. destruct H as [ls [_ H]].
    apply rbind_ok in H. destruct H as [s [_ H]]. now injection H as <-.
  - apply rbind_ok in H. destruct H as [hb [_ H]]. destruct hb; [|discriminate].
    apply rbind_ok in H. destruct H as [ls [_ H]].
    apply rbind_ok in H. destruct H as [s [_ H]]. now injection H as <-.
Qed.

(** X7.  The token counts of the answer reach the dictionary only when
    the answer parses as it stands.  A dictionary made from a repaired
    answer carries no usage, so the slide adds nothing to the token
    totals and to the cost. *)
Theorem claude_usage_is_lost_by_repair (img : image) (prompt : prompt)
    (api_key : option str) (model text : str) (i o : Z) (d : document) :
  anthropic_says img 0 prompt = Message text i o ->
  fst (call_claude_vision img prompt api_key model) = RDoc d ->
  doc_usage d = if parses (extract_json text)
                then Some (mkUsage i o (i + o)) else None.
Proof.
  intros Hsay. unfold call_claude_vision, messages_create, parses.
  rewrite Hsay, compact_retry_unbound.
  destruct (loads (extract_json text)) as [result|e].
  - destruct (_parse_vision_response result) as [[d'|]|e]; cbn; try discriminate.
    intros H. injection H as <-. reflexivity.
  - destruct e; cbn; try discriminate.
    destruct (_repair_truncated_json (extract_json text)) as [r|]; [|discriminate].
    destruct (nonempty r); [|discriminate].
    destruct (loads r) as [result|e]; [|destruct e; discriminate].
    destruct (_parse_vision_response result) as [[d'|]|e] eqn:Hp; cbn; try discriminate.
    intros H. injection H as <-. exact (parsed_without_usage _ _ Hp).
Qed.

Lemma claude_usage_is_lost_by_repair_witness :
  fst (call_claude_vision image_cut_repairable prompt_fr_en (Some (py "sk-ant"))
         (py "claude-sonnet-4-20250514")) = RDoc repaired_document
  /\ doc_usage repaired_document = None.
Proof.
  split; [vm_compute; reflexivity|].
  exact (claude_usage_is_lost_by_repair image_cut_repairable prompt_fr_en
           (Some (py "sk-ant")) (py "claude-sonnet-4-20250514")
           cut_between_blocks 1200 8192 repaired_document eq_refl eq_refl).
Defined.
(* --------------------------------------------------------------------- *)
(** ** The OpenRouter vision adapter and the bound of the retry loop *)
(* --------------------------------------------------------------------- *)

(** X8.  The retry loop posts at least once and at most four times,
    does nothing but post and wait, and the seconds it waits in all are
    two to the power of the number of posts, less two: at most
    fourteen. *)
Theorem retry_loop_is_bounded (site : post_site) (http : nat -> http_reply) :
  let tr := snd (post_with_retry site http) in
  (1 <= posts tr <= 4)%nat
  /\ waited tr = (2 ^ N.of_nat (posts tr) - 2)%N
  /\ (waited tr <= 14)%N
  /\ Forall (fun c => match c with
                      | EvPost s _ => s = site
                      | EvSleep _ => True
                      | _ => False
                      end) tr.
Proof.
  cbv zeta. split; [|split; [|split; [|apply post_with_retry_calls]]];
    rewrite post_with_retry_trace;
    pose proof (stop_attempt_bounds http max_retries 0) as Hk;
    change max_retries with 3%nat in *;
    destruct (stop_attempt http 0 3) as [|[|[|[|k]]]]; try lia; cbn; lia.
Qed.

(** X9.  [call_openrouter_vision] makes the calls of its retry loop
    and no other; it never raises; an exception that ends the loop
    gives an error dictionary, never [None]; and a dictionary with a
    structure always carries token counts, the total being their
    sum. *)
Theorem openrouter_vision_outcomes (img : image) (prompt : prompt)
    (api_key : option str) (model : str) :
  let out := call_openrouter_vision img prompt api_key model in
  let loop := post_with_retry VisionPost (vision_http img) in
  snd out = snd loop
  /\ (forall e, raised (fst loop) = Some e -> exists msg, fst out = RError msg)
  /\ (forall d, fst out = RDoc d ->
        exists u, doc_usage d = Some u
                  /\ total_tokens u = (input_tokens u + output_tokens u)%Z).
Proof.
  cbv zeta. split; [apply call_openrouter_vision_trace|].
  unfold call_openrouter_vision.
  destruct (post_with_retry VisionPost (vision_http img)) as [exit tr].
  cbn [fst snd].
  match goal with
  | |- context [match ?b with Ok _ => _ | Raise _ => _ end] =>
      set (body_result := b)
  end.
  split.
  - intros e He. subst body_result. rewrite He. cbn [rbind].
    destruct e; eexists; reflexivity.
  - intros d Hd.
    destruct body_result as [r|e] eqn:Hbody; [|destruct e; discriminate Hd].
    cbn [fst] in Hd. subst r. subst body_result.
    apply rbind_ok in Hbody. destruct Hbody as [resp [_ Hbody]].
    destruct resp as [resp|]; [|discriminate].
    repeat (apply rbind_ok in Hbody; destruct Hbody as [? [_ Hbody]]).
    match type of Hbody with
    | match ?p with Some _ => _ | None => _ end = _ =>
        destruct p as [d'|]; [|discriminate]
    end.
    apply rbind_ok in Hbody. destruct Hbody as [i [_ Hbody]].
    apply rbind_ok in Hbody. destruct Hbody as [o [_ Hbody]].
    injection Hbody as <-. eexists. split; reflexivity.
Qed.
(* --------------------------------------------------------------------- *)
(** ** The text of the OCR chain *)
(* --------------------------------------------------------------------- *)

Lemma linebreak_isspace (c : char) : is_linebreak c = true -> isspace c = true.
Proof.
  unfold is_linebreak, isspace, in_range.
  repeat rewrite ?orb_true_iff, ?andb_true_iff, ?N.leb_le, ?N.eqb_eq. lia.
Qed.

Lemma forallb_app_true {A} (q : A -> bool) (a b : list A) :
  forallb q a = true -> forallb q b = true -> forallb q (a ++ b) = true.
Proof. intros Ha Hb. rewrite forallb_app, Ha, Hb. reflexivity. Qed.

Lemma splitlines_from_chars (q : char -> bool) (n : nat) :
  forall s cur, (List.length s <= n)%nat ->
    forallb q cur = true -> forallb q s = true ->
    Forall (fun l => forallb q l = true) (splitlines_from cur s).
Proof.
  induction n as [|n IH]; intros s cur Hn Hcur Hs.
  - destruct s; [|simpl in Hn; lia].
    cbn [splitlines_from]. destruct cur; constructor; [|constructor].
    now rewrite forallb_rev.
  - destruct s as [|c r]; cbn [splitlines_from].
    + destruct cur; constructor; [|constructor]. now rewrite forallb_rev.
    + cbn [forallb] in Hs. apply andb_true_iff in Hs. destruct Hs as [Hc Hr].
      cbn [List.length] in Hn.
      assert (Hrev : forallb q (rev cur) = true) by now rewrite forallb_rev.
      destruct (N.eqb c 13).
      * destruct r as [|d r']; [constructor; [exact Hrev | constructor]|].
        cbn [forallb] in Hr. apply andb_true_iff in Hr. destruct Hr as [Hd Hr'].
        cbn [List.length] in Hn.
        destruct (N.eqb d 10); constructor; try exact Hrev.
        -- apply IH; [lia | reflexivity | exact Hr'].
        -- apply IH; [cbn [List.length]; lia | reflexivity |].
           cbn [forallb]. now rewrite Hd, Hr'.
      * destruct (is_linebreak c).
        -- constructor; [exact Hrev|]. apply IH; [lia | reflexivity | exact Hr].
        -- apply IH; [lia | | exact Hr]. cbn [forallb]. now rewrite Hc, Hcur.
Qed.

Lemma forallb_join (q : char -> bool) (sep : str) (ls : list str) :
  forallb q sep = true -> Forall (fun l => forallb q l = true) ls ->
  forallb q (join sep ls) = true.
Proof.
  intros Hsep H. induction H as [|l ls Hl _ IH]; [reflexivity|].
  cbn [join]. destruct ls as [|l' ls']; [exact Hl|].
  apply forallb_app_true; [exact Hl|]. apply forallb_app_true; [exact Hsep | exact IH].
Qed.

Lemma forallb_strip (q : char -> bool) (s : str) :
  forallb q s = true -> forallb q (strip s) = true.
Proof.
  intros H. unfold strip, rstrip, lstrip, lstrip_by.
  apply forallb_rstrip_by. now apply forallb_dropwhile.
Qed.

Lemma final_pass_lines (P : str -> Prop) (lines acc : list str) :
  P [] -> Forall P lines -> Forall P acc -> Forall P (final_pass lines acc).
Proof.
  intros Hnil Hl. revert acc. induction Hl as [|ln rest Hln _ IH]; intros acc Hacc;
    cbn [final_pass]; [exact Hacc|].
  repeat match goal with
         | |- context [if ?c then _ else _] => destruct c
         end; apply IH; try exact Hacc;
    apply Forall_app; split; try exact Hacc; constructor; auto.
Qed.

Lemma forallb_filter_neg (p : char -> bool) (s : str) :
  forallb (fun c => negb (p c)) (filter (fun c => negb (p c)) s) = true.
Proof.
  induction s as [|c s IH]; [reflexivity|].
  cbn [filter]. destruct (negb (p c)) eqn:E; [|exact IH].
  cbn [forallb]. now rewrite E, IH.
Qed.

(** X10.  [ocr_extract_text] calls tesseract once and never raises: an
    exception of tesseract gives the empty text.  The text it returns
    has no leading or trailing whitespace and holds no character of
    the emoji and symbol ranges the function removes. *)
Theorem ocr_text_is_clean (img : image) (source_lang : str) :
  let text := fst (ocr_extract_text img source_lang) in
  snd (ocr_extract_text img source_lang) = [EvTesseract]
  /\ strip text = text
  /\ forallb (fun c => negb (is_symbol_noise c)) text = true
  /\ (forall e, tesseract_says img = Raise e -> text = []).
Proof.
  cbv zeta. split; [apply ocr_extract_text_trace|].
  split; [apply ocr_extract_text_stripped|].
  unfold ocr_extract_text.
  destruct (tesseract_says img) as [t|e]; cbn [fst];
    [|split; [reflexivity | intros; reflexivity]].
  split; [|discriminate].
  rewrite reconstruct_ignores_grouping. cbv zeta.
  apply forallb_strip. apply forallb_join; [reflexivity|].
  apply final_pass_lines; [reflexivity | | constructor].
  eapply splitlines_from_chars; [apply Nat.le_refl | reflexivity |].
  apply forallb_filter_neg.
Qed.

Lemma build_lines_plain (lines : list str) (prev_empty : bool) :
  Forall is_plain_block (build_lines lines prev_empty).
Proof.
  assert (Hp : forall l, is_plain_block (plain_block (strip l))).
  { intros l. eexists. split; [reflexivity|]. cbn.
    repeat split. exists (strip l). split; [reflexivity | apply strip_idem]. }
  revert prev_empty; induction lines as [|l lines IH]; intros prev_empty;
    cbn [build_lines]; [constructor|].
  destruct (negb (nonempty (strip l))); [destruct prev_empty|]; try constructor; auto.
Qed.

Lemma build_lines_head_blank (lines : list str) :
  match build_lines lines true with
  | it :: _ => is_blank_item it = false
  | [] => True
  end.
Proof.
  induction lines as [|l lines IH]; cbn [build_lines]; [exact I|].
  destruct (nonempty (strip l)) eqn:E; cbn [negb]; [|exact IH].
  unfold is_blank_item, plain_block; cbn. now rewrite E.
Qed.

Lemma build_lines_no_adjacent (lines : list str) (prev_empty : bool) :
  no_adjacent_blanks (build_lines lines prev_empty).
Proof.
  revert prev_empty; induction lines as [|l lines IH]; intros prev_empty;
    cbn [build_lines]; [exact I|].
  destruct (nonempty (strip l)) eqn:E; cbn [negb].
  - specialize (IH false). destruct (build_lines lines false) as [|b rest] eqn:Eb;
      [exact I|].
    split; [|exact IH].
    unfold is_blank_item at 1, plain_block; cbn. now rewrite E.
  - destruct prev_empty; [apply IH|].
    specialize (IH true). pose proof (build_lines_head_blank lines) as Hh.
    destruct (build_lines lines true) as [|b rest]; [exact I|].
    split; [|exact IH]. rewrite Hh. apply andb_false_r.
Qed.

Lemma build_lines_texts (lines : list str) (prev_empty : bool) :
  filter truth (map item_translated (build_lines lines prev_empty))
  = map JStr (filter nonempty (map strip lines)).
Proof.
  revert prev_empty; induction lines as [|l lines IH]; intros prev_empty;
    cbn [build_lines map filter]; [reflexivity|].
  destruct (nonempty (strip l)) eqn:E; cbn [negb].
  - cbn [map filter item_translated plain_block translated truth].
    now rewrite E, IH.
  - destruct prev_empty; [apply IH|].
    cbn [map filter item_translated plain_block translated truth].
    now rewrite E, IH.
Qed.

(** X11.  The structure [build_text_structure] makes of a text: every
    entry is a bare block in the default format (not bold, black,
    left, normal size) whose text is stripped; no two entries without
    text follow each other; and the entries with text are the lines of
    the text that are not blank, stripped, in their order. *)
Theorem text_structure_shape (translated_text : str) :
  let s := build_text_structure translated_text in
  Forall is_plain_block s
  /\ no_adjacent_blanks s
  /\ filter truth (map item_translated s)
     = map JStr (filter nonempty (map strip (splitlines translated_text))).
Proof.
  cbv zeta. unfold build_text_structure.
  split; [apply build_lines_plain|].
  split; [apply build_lines_no_adjacent | apply build_lines_texts].
Qed.
(* --------------------------------------------------------------------- *)
(** ** One paragraph for each block of the OCR chain *)
(* --------------------------------------------------------------------- *)





(* --------------------------------------------------------------------- *)
(** ** [post_process_translation] changes nothing but whitespace *)
(* --------------------------------------------------------------------- *)

Lemma squeeze_app (a b : str) : squeeze (a ++ b) = squeeze a ++ squeeze b.
Proof. apply filter_app. Qed.

Lemma squeeze_dropwhile (s : str) : squeeze (dropwhile isspace s) = squeeze s.
Proof.
  induction s as [|c s IH]; [reflexivity|].
  cbn [dropwhile]. destruct (isspace c) eqn:E; [|reflexivity].
  rewrite IH. unfold squeeze; cbn [filter]. now rewrite E.
Qed.

Lemma squeeze_rev (s : str) : squeeze (rev s) = rev (squeeze s).
Proof.
  induction s as [|c s IH]; [reflexivity|].
  cbn [rev]. rewrite squeeze_app, IH. unfold squeeze at 2 3; cbn [filter].
  destruct (negb (isspace c)); cbn [rev]; [reflexivity | now rewrite app_nil_r].
Qed.

Lemma squeeze_strip (s : str) : squeeze (strip s) = squeeze s.
Proof.
  unfold strip, rstrip, rstrip_by, lstrip, lstrip_by.
  rewrite squeeze_rev, squeeze_dropwhile, squeeze_rev, rev_involutive.
  apply squeeze_dropwhile.
Qed.

Lemma squeeze_join (ls : list str) :
  squeeze (join [NL] ls) = List.concat (map squeeze ls).
Proof.
  induction ls as [|l ls IH]; [reflexivity|].
  cbn [join]. destruct ls as [|l' ls'].
  - cbn. now rewrite app_nil_r.
  - rewrite !squeeze_app, IH. reflexivity.
Qed.

Lemma squeeze_cons_space (c : char) (r : str) :
  isspace c = true -> squeeze (c :: r) = squeeze r.
Proof. intros H. unfold squeeze; cbn [filter]. now rewrite H. Qed.

Lemma squeeze_splitlines_from (n : nat) :
  forall s cur, (List.length s <= n)%nat ->
    List.concat (map squeeze (splitlines_from cur s)) = squeeze (rev cur) ++ squeeze s.
Proof.
  induction n as [|n IH]; intros s cur Hn.
  - destruct s; [|simpl in Hn; lia].
    cbn [splitlines_from]. destruct cur; [reflexivity|].
    cbn [map List.concat]. reflexivity.
  - destruct s as [|c r]; cbn [splitlines_from].
    + destruct cur; [reflexivity|]. cbn [map List.concat]. reflexivity.
    + cbn [List.length] in Hn.
      destruct (N.eqb c 13) eqn:E13.
      * apply N.eqb_eq in E13. subst c.
        destruct r as [|d r']; [cbn [map List.concat]; reflexivity|].
        cbn [List.length] in Hn.
        destruct (N.eqb d 10) eqn:E10; cbn [map List.concat].
        -- apply N.eqb_eq in E10. subst d. rewrite IH by lia.
           rewrite !squeeze_cons_space by reflexivity. reflexivity.
        -- rewrite IH by (cbn [List.length]; lia).
           rewrite (squeeze_cons_space 13%N) by reflexivity. reflexivity.
      * destruct (is_linebreak c) eqn:Elb.
        -- cbn [map List.concat]. rewrite IH by lia.
           rewrite (squeeze_cons_space c r (linebreak_isspace c Elb)). reflexivity.
        -- rewrite IH by lia. cbn [rev]. rewrite squeeze_app, <- app_assoc.
           change (c :: r) with ([c] ++ r). rewrite (squeeze_app [c] r). reflexivity.
Qed.

Lemma squeeze_splitlines (s : str) :
  List.concat (map squeeze (splitlines s)) = squeeze s.
Proof. unfold splitlines. now rewrite (squeeze_splitlines_from (List.length s)). Qed.

Lemma squeeze_blank (l : str) : nonempty (strip l) = false -> squeeze l = [].
Proof.
  intros H. rewrite <- squeeze_strip. destruct (strip l); [reflexivity | discriminate].
Qed.

Lemma concat_squeeze_snoc (result : list str) (l : str) :
  List.concat (map squeeze (result ++ [l])) = List.concat (map squeeze result) ++ squeeze l.
Proof. rewrite map_app, concat_app. cbn. now rewrite app_nil_r. Qed.

Lemma join_pass_squeeze (fuel : nat) :
  forall lines result, (List.length lines <= fuel)%nat ->
    List.concat (map squeeze (join_pass fuel lines result))
    = List.concat (map squeeze result) ++ List.concat (map squeeze lines).
Proof.
  induction fuel as [|f IH]; intros lines result Hf.
  - destruct lines; [|simpl in Hf; lia]. cbn. now rewrite app_nil_r.
  - destruct lines as [|l0 rest]; [cbn; now rewrite app_nil_r|].
    cbn [List.length] in Hf. cbn [join_pass].
    assert (Hkeep : List.concat (map squeeze (join_pass f rest (result ++ [strip l0])))
                    = List.concat (map squeeze result)
                      ++ List.concat (map squeeze (l0 :: rest))).
    { rewrite IH by lia. rewrite concat_squeeze_snoc, squeeze_strip, <- app_assoc.
      reflexivity. }
    destruct (nonempty (strip l0)) eqn:E0; cbn [negb].
    + destruct rest as [|l1 rest2]; [exact Hkeep|].
      cbn [List.length] in Hf.
      assert (Hjoin : List.concat (map squeeze
                        (join_pass f rest2 (result ++ [strip l0 ++ [SPACE] ++ strip l1])))
                      = List.concat (map squeeze result)
                        ++ List.concat (map squeeze (l0 :: l1 :: rest2))).
      { rewrite IH by lia. rewrite concat_squeeze_snoc, !squeeze_app, !squeeze_strip.
        cbn [map List.concat]. rewrite <- !app_assoc. reflexivity. }
      repeat match goal with
             | |- context [if ?c then _ else _] => destruct c
             end; first [exact Hkeep | exact Hjoin].
    + rewrite IH by lia. rewrite concat_squeeze_snoc. cbn [map List.concat].
      rewrite (squeeze_blank l0 E0). cbn. now rewrite app_nil_r.
Qed.

Lemma blank_pass_squeeze (after : list str) :
  forall before final,
    List.concat (map squeeze (blank_pass before after final))
    = List.concat (map squeeze final) ++ List.concat (map squeeze after).
Proof.
  induction after as [|line rest IH]; intros before final; cbn [blank_pass].
  - cbn. now rewrite app_nil_r.
  - destruct (nonempty line) eqn:E; cbn [negb].
    + rewrite IH, concat_squeeze_snoc, <- app_assoc. reflexivity.
    + assert (Hline : line = []) by (destruct line; [reflexivity | discriminate]).
      subst line.
      match goal with
      | |- context [if ?c then _ else _] => destruct c
      end; rewrite IH; [reflexivity|].
      rewrite concat_squeeze_snoc, <- app_assoc. reflexivity.
Qed.

Lemma post_process_squeeze (text : str) :
  squeeze (post_process_translation text) = squeeze text.
Proof.
  unfold post_process_translation.
  rewrite squeeze_join, blank_pass_squeeze.
  rewrite join_pass_squeeze by apply Nat.le_refl.
  cbn [map List.concat app]. apply squeeze_splitlines.
Qed.
(* --------------------------------------------------------------------- *)
(** ** What [call_ocr_openrouter] returns *)
(* --------------------------------------------------------------------- *)

Lemma strip_head_not_space (s : str) (c : char) (r : str) :
  strip s = c :: r -> isspace c = false.
Proof.
  intros H. rewrite <- strip_idem in H.
  unfold strip at 1, rstrip, rstrip_by in H.
  unfold lstrip, lstrip_by in H.
  destruct (rstrip_by_prefix isspace (dropwhile isspace (strip s))) as [suf Hsuf].
  unfold rstrip_by in Hsuf. rewrite H in Hsuf.
  destruct (dropwhile isspace (strip s)) as [|x xs] eqn:E; [discriminate|].
  injection Hsuf as -> _. exact (dropwhile_head isspace (strip s) c xs E).
Qed.

Lemma nonblank_squeeze (t : str) : nonempty (strip t) = true -> squeeze t <> [].
Proof.
  intros H. rewrite <- squeeze_strip.
  destruct (strip t) as [|c r] eqn:E; [discriminate|].
  pose proof (strip_head_not_space t c r E) as Hc.
  unfold squeeze; cbn [filter]. rewrite Hc. discriminate.
Qed.

Lemma squeeze_nonblank (t : str) : squeeze t <> [] -> nonempty (strip t) = true.
Proof.
  intros H. destruct (nonempty (strip t)) eqn:E; [reflexivity|].
  exfalso. apply H. now apply squeeze_blank.
Qed.

Lemma nonblank_structure (t : str) :
  nonempty (strip t) = true -> build_text_structure t <> [].
Proof.
  intros H Hs.
  pose proof (build_lines_texts (splitlines t) false) as Ht.
  fold (build_text_structure t) in Ht. rewrite Hs in Ht. cbn [map filter] in Ht.
  apply (nonblank_squeeze t H).
  rewrite <- squeeze_splitlines.
  induction (splitlines t) as [|l ls IH]; [reflexivity|].
  cbn [map filter] in Ht. cbn [map List.concat].
  destruct (nonempty (strip l)) eqn:E; [discriminate|].
  rewrite (squeeze_blank l E). cbn [app]. now apply IH.
Qed.

(** X13.  [post_process_translation] joins, keeps or drops lines, but
    it touches nothing except whitespace: without its whitespace, the
    text it returns is the text it was given.  So a text that is not
    blank stays so. *)
Theorem post_process_keeps_the_words (text : str) :
  squeeze (post_process_translation text) = squeeze text
  /\ (nonempty (strip text) = true ->
      nonempty (strip (post_process_translation text)) = true).
Proof.
  split; [apply post_process_squeeze|].
  intros H. apply squeeze_nonblank. rewrite post_process_squeeze.
  now apply nonblank_squeeze.
Qed.

Lemma text_llm_stage_vars (img : image) (model : str) :
  let vars := fst (text_llm_stage img model) in
  (v_translated_text vars = None)
  \/ (exists t, v_translated_text vars = Some t
                /\ nonempty (strip t) = true
                /\ v_translation_method vars = Some (py "openrouter")
                /\ v_translation_model vars = Some model
                /\ v_openrouter_error vars = None).
Proof.
  cbv zeta. unfold text_llm_stage.
  destruct (post_with_retry TextPost (text_http img)) as [exit tr].
  destruct (raised exit); [left; reflexivity|].
  destruct (response exit) as [r|]; [|left; reflexivity].
  match goal with
  | |- context [match ?c with Ok _ => _ | Raise _ => _ end] => destruct c as [content|e]
  end; [|left; reflexivity].
  destruct (nonempty (strip content)) eqn:E; [|left; reflexivity].
  right. eexists. cbn. repeat split.
  apply squeeze_nonblank. rewrite post_process_squeeze, squeeze_strip.
  now apply nonblank_squeeze.
Qed.

Lemma build_result_doc (raw_text : str) (vars : chain_vars) (d : document) :
  build_result raw_text vars = RDoc d ->
  exists t, v_translated_text vars = Some t
            /\ nonempty (strip t) = true
            /\ d = mkDocument raw_text t (build_text_structure t) None
                    (v_translation_method vars) (v_translation_model vars)
                    (v_openrouter_error vars).
Proof.
  unfold build_result. destruct (v_translated_text vars) as [t|]; [|discriminate].
  destruct (nonempty t); cbn [negb orb]; [|discriminate].
  destruct (nonempty (strip t)) eqn:E; cbn [negb]; [|discriminate].
  intros H. injection H as <-. eauto.
Qed.

Lemma build_result_no_error (raw_text : str) (vars : chain_vars) (msg : str) :
  build_result raw_text vars <> RError msg.
Proof.
  unfold build_result. destruct (v_translated_text vars) as [t|]; [|discriminate].
  destruct (negb (nonempty t) || negb (nonempty (strip t))); discriminate.
Qed.

(** X14.  A dictionary returned by [call_ocr_openrouter]: its original
    text is the text of the OCR, not empty; its translated text is not
    blank; its structure is the one [build_text_structure] makes of the
    translated text, and is not empty; it carries no token counts.  The
    method is openrouter (with the model asked for, and no error
    recorded), or passthrough (the languages are equal and the text is
    the OCR text), or offline (the languages differ).  The function
    never returns an error dictionary. *)
Theorem ocr_chain_document (img : image) (source_lang target_lang : str)
    (api_key : option str) (model : str) :
  let out := fst (call_ocr_openrouter img source_lang target_lang api_key model) in
  (forall msg, out <> RError msg)
  /\ (forall d, out = RDoc d ->
        original_text d = fst (ocr_extract_text img source_lang)
        /\ nonempty (original_text d) = true
        /\ nonempty (strip (translated_text d)) = true
        /\ structure d = build_text_structure (translated_text d)
        /\ structure d <> []
        /\ doc_usage d = None
        /\ ((translation_method d = Some (py "openrouter")
             /\ truthy api_key = true
             /\ translation_model d = Some model /\ openrouter_error d = None)
            \/ (translation_method d = Some (py "passthrough")
                /\ source_lang = target_lang
                /\ translated_text d = original_text d)
            \/ (translation_method d = Some (py "offline")
                /\ source_lang <> target_lang))).
Proof.
  cbv zeta. unfold call_ocr_openrouter.
  destruct (ocr_extract_text img source_lang) as [raw_text tr_ocr]. cbn [fst].
  destruct (nonempty raw_text) eqn:Hraw; cbn [negb];
    [|split; [discriminate | discriminate]].
  assert (Hvars : exists vars tr_llm,
             (if truthy api_key then text_llm_stage img model
              else (mkVars None None None (Some (py "No API key configured")), []))
             = (vars, tr_llm)
             /\ (v_translated_text vars = None
                 \/ (exists t, v_translated_text vars = Some t
                               /\ nonempty (strip t) = true
                               /\ v_translation_method vars = Some (py "openrouter")
                               /\ v_translation_model vars = Some model
                               /\ v_openrouter_error vars = None
                               /\ truthy api_key = true))).
  { destruct (truthy api_key).
    - pose proof (text_llm_stage_vars img model) as Hv. cbv zeta in Hv.
      destruct (text_llm_stage img model) as [vars tr_llm]. cbn [fst] in Hv.
      exists vars, tr_llm. split; [reflexivity|].
      destruct Hv as [Hv | [t Hv]]; [left; exact Hv | right; exists t; tauto].
    - eexists _, _. split; [reflexivity|]. left. reflexivity. }
  destruct Hvars as [vars [tr_llm [-> Hv]]].
  destruct Hv as [Hnone | [t [Ht [Hnb [Hm [Hmod [Herr Hkey]]]]]]].
  - rewrite Hnone. cbn [truthy negb].
    unfold fallback_stage.
    destruct (str_eqb source_lang target_lang) eqn:Heq.
    + cbn [fst]. split; [intros msg; apply build_result_no_error|].
      intros d Hd. apply build_result_doc in Hd.
      destruct Hd as [t [Ht [Hnb ->]]]. cbn in Ht. injection Ht as <-.
      cbn. repeat split; auto.
      * now apply nonblank_structure.
      * right; left. repeat split. now apply str_eqb_eq.
    + destruct (truthy (translate_offline img raw_text)) eqn:Hoff; cbn [fst];
        [|split; discriminate].
      split; [intros msg; apply build_result_no_error|].
      intros d Hd. apply build_result_doc in Hd.
      destruct Hd as [t [Ht [Hnb ->]]]. cbn in Ht.
      cbn. repeat split; auto.
      * now apply nonblank_structure.
      * right; right. split; [reflexivity|].
        intros ->. now rewrite str_eqb_refl in Heq.
  - assert (Htr : truthy (v_translated_text vars) = true).
    { rewrite Ht. cbn. destruct t; [discriminate Hnb | reflexivity]. }
    rewrite Htr. cbn [negb fst]. split; [intros msg; apply build_result_no_error|].
    intros d Hd. apply build_result_doc in Hd.
    destruct Hd as [t' [Ht' [Hnb' ->]]]. rewrite Ht in Ht'. injection Ht' as <-.
    cbn. repeat split; auto.
    now apply nonblank_structure.
Qed.

(** X15.  Without an API key (none, or the empty string)
    [call_ocr_openrouter] posts nothing: it calls tesseract and, when
    the OCR text is not empty and the languages differ, the offline
    translator, once.  A dictionary it returns then records the missing
    key as the error of the text model, and its method is passthrough
    or offline. *)
Theorem ocr_chain_without_key (img : image) (source_lang target_lang : str)
    (api_key : option str) (model : str) :
  truthy api_key = false ->
  let out := call_ocr_openrouter img source_lang target_lang api_key model in
  let raw_text := fst (ocr_extract_text img source_lang) in
  snd out = EvTesseract ::
            (if nonempty raw_text && negb (str_eqb source_lang target_lang)
             then [EvOfflineMT] else [])
  /\ (forall d, fst out = RDoc d ->
        openrouter_error d = Some (py "No API key configured")
        /\ translation_method d
           = Some (if str_eqb source_lang target_lang
                   then py "passthrough" else py "offline")).
Proof.
  intros Hkey. cbv zeta. unfold call_ocr_openrouter. rewrite Hkey.
  pose proof (ocr_extract_text_trace img source_lang) as Htr.
  destruct (ocr_extract_text img source_lang) as [raw_text tr_ocr].
  cbn [fst snd] in *. subst tr_ocr.
  destruct (nonempty raw_text) eqn:Hraw; cbn [negb andb];
    [|split; [reflexivity | discriminate]].
  cbn [truthy v_translated_text negb]. unfold fallback_stage.
  destruct (str_eqb source_lang target_lang) eqn:Heq; cbn [negb].
  - cbn [fst snd app]. split; [reflexivity|].
    intros d Hd. apply build_result_doc in Hd. destruct Hd as [t [_ [_ ->]]].
    split; reflexivity.
  - destruct (truthy (translate_offline img raw_text)); cbn [fst snd app];
      (split; [reflexivity|]); [|discriminate].
    intros d Hd. apply build_result_doc in Hd. destruct Hd as [t [_ [_ ->]]].
    split; reflexivity.
Qed.

Lemma ocr_chain_without_key_witness :
  snd (call_ocr_openrouter image_offline_only (py "fr") (py "en") None (py "m"))
  = [EvTesseract; EvOfflineMT]
  /\ (forall d,
        fst (call_ocr_openrouter image_offline_only (py "fr") (py "en") None (py "m"))
        = RDoc d ->
        openrouter_error d = Some (py "No API key configured")
        /\ translation_method d = Some (py "offline")).
Proof.
  exact (ocr_chain_without_key image_offline_only (py "fr") (py "en") None (py "m")
           eq_refl).
Defined.
(* --------------------------------------------------------------------- *)
(** ** The picture of a slide *)
(* --------------------------------------------------------------------- *)

(** X16.  [has_image_on_left] returns the first picture of the slide
    that lies in the left half and opens: every shape before it is no
    such picture; and it returns nothing exactly when the slide has no
    such picture. *)
Theorem image_on_left_is_the_first (slide_width : Z) (shapes : slide) :
  match has_image_on_left slide_width shapes with
  | Some img =>
      exists before shape_left after,
        shapes = before ++ Picture shape_left (Some img) :: after
        /\ (2 * shape_left < slide_width)%Z
        /\ forallb (fun sh => negb (usable_picture slide_width sh)) before = true
  | None => forallb (fun sh => negb (usable_picture slide_width sh)) shapes = true
  end.
Proof.
  induction shapes as [|sh rest IH]; cbn [has_image_on_left]; [reflexivity|].
  assert (Hskip : usable_picture slide_width sh = false ->
            match has_image_on_left slide_width rest with
            | Some img =>
                exists before shape_left after,
                  sh :: rest = before ++ Picture shape_left (Some img) :: after
                  /\ (2 * shape_left < slide_width)%Z
                  /\ forallb (fun sh => negb (usable_picture slide_width sh)) before = true
            | None =>
                forallb (fun sh => negb (usable_picture slide_width sh)) (sh :: rest) = true
            end).
  { intros Hsh. destruct (has_image_on_left slide_width rest) as [img|].
    - destruct IH as [before [l [after [-> [Hl Hb]]]]].
      exists (sh :: before), l, after. cbn [app forallb]. rewrite Hsh, Hb. auto.
    - cbn [forallb]. now rewrite Hsh, IH. }
  destruct sh as [l [img|] | tf]; cbn [usable_picture] in Hskip.
  - destruct (Z.ltb (2 * l) slide_width) eqn:E; [|now apply Hskip].
    exists [], l, rest. apply Z.ltb_lt in E. auto.
  - destruct (Z.ltb (2 * l) slide_width); now apply Hskip.
  - now apply Hskip.
Qed.

(* --------------------------------------------------------------------- *)
(** ** What the font fit leaves alone *)
(* --------------------------------------------------------------------- *)

Lemma shrink_run_unsized (m : Z) (r : run) : unsized (shrink_run m r) = unsized r.
Proof.
  unfold shrink_run. destruct (size_set r) as [s|]; [|reflexivity].
  destruct (Z.ltb (Pt m) s); reflexivity.
Qed.

Lemma shrink_frame_layout (m : Z) (tf : text_frame) :
  frame_layout (shrink_frame m tf) = frame_layout tf.
Proof.
  unfold frame_layout, shrink_frame; cbn [paragraphs].
  rewrite map_map. apply map_ext. intros p; cbn.
  f_equal. rewrite map_map. apply map_ext. apply shrink_run_unsized.
Qed.

Lemma fit_loop_layout (m : Z) (n : nat) :
  forall tf, frame_layout (last (fit_loop m n tf) tf) = frame_layout tf.
Proof.
  induction n as [|n IH]; intros tf; cbn [fit_loop]; [reflexivity|].
  destruct (fit_step m tf) as [tf'|] eqn:E; [|reflexivity].
  apply fit_step_shrinks in E. subst tf'.
  change (last (?a :: ?l) tf) with (last (a :: l) tf).
  assert (Hlast : forall (l : list text_frame) a d, last (a :: l) d = last l a).
  { induction l as [|b l IHl]; intros a d; [reflexivity|].
    change (last (a :: b :: l) d) with (last (b :: l) d). rewrite !IHl. reflexivity. }
  rewrite Hlast, IH. apply shrink_frame_layout.
Qed.

(** X17.  [reduce_font_if_overflow] keeps the shapes of the slide in
    their number and order and leaves a picture as it is; in a text box
    it changes nothing but sizes: the paragraphs, their alignment and
    line spacing, and the text, bold flag, font and colour of every run
    stay, and a text box without text is not touched at all. *)
Theorem font_fit_changes_only_sizes (sl : list shape) (max_iterations : nat)
    (min_font_size : Z) :
  Forall2 (fun sh sh' =>
             match sh, sh' with
             | TextBox tf, TextBox tf' =>
                 frame_layout tf' = frame_layout tf
                 /\ (has_text tf = false -> tf' = tf)
             | Picture _ _, _ => sh' = sh
             | _, _ => False
             end)
          sl (reduce_font_if_overflow sl max_iterations min_font_size).
Proof.
  unfold reduce_font_if_overflow.
  induction sl as [|sh rest IH]; cbn [map]; constructor; [|exact IH].
  destruct sh as [l img | tf]; [reflexivity|].
  unfold fit_frame. destruct (has_text tf); cbn [negb].
  - split; [|discriminate].
    unfold frame_layout at 1; cbn [paragraphs].
    apply (fit_loop_layout min_font_size max_iterations tf).
  - split; reflexivity.
Qed.

Lemma filter_length_le {A} (f : A -> bool) (l : list A) :
  (List.length (filter f l) <= List.length l)%nat.
Proof.
  induction l as [|a l IH]; cbn; [lia|]. destruct (f a); cbn; lia.
Qed.

(** X18.  A text box with at most twenty paragraphs that are not blank
    and at most 2500 characters is under every threshold of the
    overflow estimate: the loop stops at its first pass and every size
    stays as the renderer wrote it, whatever the minimum and the number
    of passes allowed. *)
Theorem small_text_box_is_not_reduced (tf : text_frame) (max_iterations : nat)
    (min_font_size : Z) :
  (num_paragraphs tf <= 20)%nat -> (total_chars tf <= 2500)%nat ->
  fit_loop min_font_size max_iterations tf = []
  /\ paragraphs (fit_frame max_iterations min_font_size tf) = paragraphs tf.
Proof.
  intros Hn Hc.
  assert (Hneed : needs_reduction tf = false).
  { unfold needs_reduction. fold (num_paragraphs tf). fold (total_chars tf).
    cbv zeta.
    replace (Z.ltb 30 (Z.of_nat (num_paragraphs tf))) with false
      by (symmetry; apply Z.ltb_ge; lia).
    replace (Z.ltb 2500 (Z.of_nat (total_chars tf))) with false
      by (symmetry; apply Z.ltb_ge; lia).
    replace (Z.ltb 20 (Z.of_nat (num_paragraphs tf))) with false
      by (symmetry; apply Z.ltb_ge; lia).
    reflexivity. }
  assert (Hloop : fit_loop min_font_size max_iterations tf = []).
  { destruct max_iterations; [reflexivity|]. cbn [fit_loop].
    unfold fit_step. rewrite Hneed.
    destruct (Z.leb (smallest_font tf) (Pt min_font_size)); reflexivity. }
  split; [exact Hloop|].
  unfold fit_frame. rewrite Hloop.
  destruct (has_text tf); reflexivity.
Qed.

Lemma small_text_box_is_not_reduced_witness :
  fit_loop 6 20 (fst (rendered_frame (structure good_document) 11 false)) = []
  /\ paragraphs (fit_frame 20 6 (fst (rendered_frame (structure good_document) 11 false)))
     = paragraphs (fst (rendered_frame (structure good_document) 11 false)).
Proof.
  apply (small_text_box_is_not_reduced
           (fst (rendered_frame (structure good_document) 11 false)) 20 6);
    vm_compute; lia.
Defined.
(* --------------------------------------------------------------------- *)
(** ** Which provider calls which service *)
(* --------------------------------------------------------------------- *)


(** The calls of the OCR chain: tesseract, the offline translator, and
    the posts and waits of the text model, which need a key. *)
Lemma ocr_chain_calls (img : image) (source_lang target_lang : str)
    (api_key : option str) (model : str) :
  Forall (fun c => match c with
                   | EvTesseract | EvOfflineMT => True
                   | EvPost s _ => s = TextPost /\ truthy api_key = true
                   | EvSleep _ => truthy api_key = true
                   | EvClaude _ => False
                   end)
         (snd (call_ocr_openrouter img source_lang target_lang api_key model)).
Proof.
  unfold call_ocr_openrouter.
  pose proof (ocr_extract_text_trace img source_lang) as Htr.
  destruct (ocr_extract_text img source_lang) as [raw_text tr_ocr].
  cbn [snd] in Htr. subst tr_ocr.
  destruct (nonempty raw_text); cbn [negb]; [|repeat constructor].
  assert (Hllm : Forall (fun c => match c with
                   | EvTesseract | EvOfflineMT => True
                   | EvPost s _ => s = TextPost /\ truthy api_key = true
                   | EvSleep _ => truthy api_key = true
                   | EvClaude _ => False
                   end)
                  (snd (if truthy api_key then text_llm_stage img model
                        else (mkVars None None None (Some (py "No API key configured")),
                              [])))).
  { destruct (truthy api_key) eqn:Hkey; [|constructor].
    rewrite text_llm_stage_trace.
    pose proof (post_with_retry_calls TextPost (text_http img)) as H.
    eapply Forall_impl; [|exact H].
    intros c; destruct c; auto. }
  destruct (if truthy api_key then text_llm_stage img model
            else (mkVars None None None (Some (py "No API key configured")), []))
    as [vars tr_llm].
  cbn [snd] in Hllm.
  destruct (negb (truthy (v_translated_text vars))).
  - unfold fallback_stage.
    destruct (str_eqb source_lang target_lang); cbn [snd].
    + constructor; [exact I|]. rewrite app_nil_r. exact Hllm.
    + destruct (truthy (translate_offline img raw_text)); cbn [snd];
        (constructor; [exact I|]); apply Forall_app; split; auto.
  - cbn [snd]. constructor; [exact I | exact Hllm].
Qed.

Lemma Forall_existsb_false {A} (P : A -> Prop) (f : A -> bool) (l : list A) :
  Forall P l -> (forall a, P a -> f a = false) -> existsb f l = false.
Proof.
  intros H Hf. induction H as [|a l Ha _ IH]; [reflexivity|].
  cbn [existsb]. now rewrite (Hf a Ha), IH.
Qed.

(** X19.  The services a slide can reach are fixed by the provider.
    The Anthropic client is called for [claude] only, and then nothing
    else is; the vision endpoint is posted to for [openrouter] only;
    the text endpoint for [ocr_free] with a key only (the OCR fallback
    of [openrouter] runs without a key); tesseract and the offline
    translator for [ocr_free] and [openrouter] only.  A slide without a
    picture on the left, or a provider that is none of the three,
    makes no call and gives [None]. *)
Theorem providers_keep_to_their_services (slide_width : Z) (sl : slide)
    (source_lang target_lang provider : str) (api_key claude_api_key : option str)
    (model : str) :
  let out := process_ppt_slide slide_width sl source_lang target_lang provider
               api_key claude_api_key model in
  (existsb is_claude_call (snd out) = true -> provider = py "claude")
  /\ (provider = py "claude" ->
      snd out = [] \/ exists prompt, snd out = [EvClaude prompt])
  /\ (existsb (is_post VisionPost) (snd out) = true -> provider = py "openrouter")
  /\ (existsb (is_post TextPost) (snd out) = true ->
      provider = py "ocr_free" /\ truthy api_key = true)
  /\ (existsb is_local_call (snd out) = true ->
      provider = py "ocr_free" \/ provider = py "openrouter")
  /\ (has_image_on_left slide_width sl = None
      \/ ~ In provider [py "claude"; py "openrouter"; py "ocr_free"] ->
      out = (Ok RNone, [])).
Proof.
  cbv zeta. unfold process_ppt_slide.
  assert (Hnone : forall img : image,
            Some img = None
            \/ ~ In (py "claude") [py "claude"; py "openrouter"; py "ocr_free"] ->
            False).
  { intros img [H|H]; [discriminate | apply H; left; reflexivity]. }
  destruct (has_image_on_left slide_width sl) as [img|].
  2:{ cbn. split; [discriminate|]. split; [auto|]. split; [discriminate|].
      split; [discriminate|]. split; [discriminate | reflexivity]. }
  destruct (str_eqb provider (py "claude")) eqn:Hc.
  { apply str_eqb_eq in Hc. subst provider.
    assert (Htr : forall x : res result * list call,
              (snd x = [] \/ exists prompt, snd x = [EvClaude prompt]) ->
              (existsb is_claude_call (snd x) = true -> py "claude" = py "claude")
              /\ (py "claude" = py "claude" ->
                  snd x = [] \/ exists prompt, snd x = [EvClaude prompt])
              /\ (existsb (is_post VisionPost) (snd x) = true ->
                  py "claude" = py "openrouter")
              /\ (existsb (is_post TextPost) (snd x) = true ->
                  py "claude" = py "ocr_free" /\ truthy api_key = true)
              /\ (existsb is_local_call (snd x) = true ->
                  py "claude" = py "ocr_free" \/ py "claude" = py "openrouter")
              /\ (Some img = None
                  \/ ~ In (py "claude") [py "claude"; py "openrouter"; py "ocr_free"] ->
                  x = (Ok RNone, []))).
    { intros x Hx. split; [reflexivity|]. split; [intros _; exact Hx|].
      assert (Hno : forall f, (forall p, f (EvClaude p) = false) ->
                              existsb f (snd x) = false).
      { intros f Hf. destruct Hx as [-> | [prompt ->]]; [reflexivity|].
        cbn. now rewrite Hf. }
      split; [intros H; rewrite Hno in H by reflexivity; discriminate|].
      split; [intros H; rewrite Hno in H by reflexivity; discriminate|].
      split; [intros H; rewrite Hno in H by reflexivity; discriminate|].
      intros H. exfalso. exact (Hnone img H). }
    apply Htr.
    destruct (create_vision_prompt source_lang target_lang) as [prompt|e];
      [|left; reflexivity].
    pose proof (call_claude_vision_trace img prompt api_key model) as Hcl.
    destruct (call_claude_vision img prompt api_key model) as [r tr].
    cbn [snd] in *. right. exists prompt. exact Hcl. }
  destruct (str_eqb provider (py "openrouter")) eqn:Ho.
  { apply str_eqb_eq in Ho. subst provider.
    match goal with
    | |- context [snd ?x] => set (out := x)
    end.
    assert (Hall : Forall (fun c => match c with
                                    | EvClaude _ => False
                                    | EvPost s _ => s = VisionPost
                                    | _ => True
                                    end) (snd out)).
    { subst out.
      destruct (create_vision_prompt source_lang target_lang) as [prompt|e];
        [|constructor].
      pose proof (call_openrouter_vision_trace img prompt api_key model) as Htr.
      pose proof (post_with_retry_calls VisionPost (vision_http img)) as Hv.
      rewrite <- Htr in Hv. clear Htr.
      destruct (call_openrouter_vision img prompt api_key model) as [r tr].
      cbn [snd] in Hv.
      assert (Hv' : Forall (fun c => match c with
                                     | EvClaude _ => False
                                     | EvPost s _ => s = VisionPost
                                     | _ => True
                                     end) tr).
      { eapply Forall_impl; [|exact Hv]. intros c; destruct c; auto. }
      destruct r; try exact Hv'.
      pose proof (ocr_chain_calls img source_lang target_lang None model) as Hf.
      destruct (call_ocr_openrouter img source_lang target_lang None model)
        as [r' tr']. cbn [snd] in *.
      apply Forall_app; split; [exact Hv'|].
      eapply Forall_impl; [|exact Hf]. intros c; destruct c; auto.
      intros [_ H]; discriminate H. }
    split.
    { intros H. rewrite (Forall_existsb_false _ is_claude_call _ Hall) in H;
        [discriminate|]. intros c; destruct c; tauto. }
    split; [discriminate|].
    split; [reflexivity|].
    split.
    { intros H. rewrite (Forall_existsb_false _ (is_post TextPost) _ Hall) in H;
        [discriminate|].
      intros c; destruct c as [| s k | | |]; try reflexivity.
      intros ->. reflexivity. }
    split; [auto|].
    intros [H|H]; [discriminate | exfalso; apply H; right; left; reflexivity]. }
  destruct (str_eqb provider (py "ocr_free")) eqn:Hf.
  { apply str_eqb_eq in Hf. subst provider.
    pose proof (ocr_chain_calls img source_lang target_lang api_key model) as Hall.
    destruct (call_ocr_openrouter img source_lang target_lang api_key model) as [r tr].
    cbn [snd] in *.
    split.
    { intros H. rewrite (Forall_existsb_false _ is_claude_call _ Hall) in H;
        [discriminate|]. intros c; destruct c; tauto. }
    split; [discriminate|].
    split.
    { intros H. rewrite (Forall_existsb_false _ (is_post VisionPost) _ Hall) in H;
        [discriminate|].
      intros c; destruct c as [| s k | | |]; try reflexivity.
      intros [-> _]. reflexivity. }
    split.
    { intros H. apply existsb_exists in H. destruct H as [c [Hin Hc']].
      rewrite Forall_forall in Hall. specialize (Hall c Hin).
      destruct c as [| s k | | |]; try discriminate. tauto. }
    split; [auto|].
    intros [H|H]; [discriminate | exfalso; apply H; right; right; left; reflexivity]. }
  cbn. split; [discriminate|]. split; [intros ->; discriminate|].
  split; [discriminate|]. split; [discriminate|]. split; [discriminate | reflexivity].
Qed.

Lemma lang_name_supported (code : str) :
  if supported_language code then exists n, lang_name code = Ok n
  else lang_name code = Raise KeyError.
Proof.
  unfold supported_language, lang_name, lang_names. cbn [assoc existsb].
  destruct (str_eqb code (py "fr")); [eexists; reflexivity|].
  destruct (str_eqb code (py "es")); [eexists; reflexivity|].
  destruct (str_eqb code (py "it")); [eexists; reflexivity|].
  destruct (str_eqb code (py "en")); [eexists; reflexivity|].
  reflexivity.
Qed.

Lemma create_vision_prompt_supported (source_lang target_lang : str) :
  if supported_language source_lang && supported_language target_lang
  then exists p, create_vision_prompt source_lang target_lang = Ok p
  else create_vision_prompt source_lang target_lang = Raise KeyError.
Proof.
  unfold create_vision_prompt.
  pose proof (lang_name_supported source_lang) as Hs.
  pose proof (lang_name_supported target_lang) as Ht.
  destruct (supported_language source_lang); cbn [andb].
  - destruct Hs as [s ->]. cbn [rbind].
    destruct (supported_language target_lang).
    + destruct Ht as [t ->]. eexists; reflexivity.
    + rewrite Ht. reflexivity.
  - rewrite Hs. reflexivity.
Qed.

(** X20.  The two vision providers build their prompt from the table
    of the four languages fr, es, it and en: with any other code,
    source or target, the slide ends in a [KeyError] before any service
    is called; with two known codes [process_ppt_slide] never raises.
    The provider [ocr_free] never raises, whatever the codes. *)
Theorem unknown_language_fails_the_slide (slide_width : Z) (sl : slide) (img : image)
    (source_lang target_lang provider : str) (api_key claude_api_key : option str)
    (model : str) :
  has_image_on_left slide_width sl = Some img ->
  let out := process_ppt_slide slide_width sl source_lang target_lang provider
               api_key claude_api_key model in
  (provider = py "claude" \/ provider = py "openrouter" ->
   if supported_language source_lang && supported_language target_lang
   then exists r, fst out = Ok r
   else out = (Raise KeyError, []))
  /\ (provider = py "ocr_free" -> exists r, fst out = Ok r).
Proof.
  intros Himg. cbv zeta. unfold process_ppt_slide. rewrite Himg.
  pose proof (create_vision_prompt_supported source_lang target_lang) as Hp.
  split.
  - intros [-> | ->].
    + change (str_eqb (py "claude") (py "claude")) with true. cbv iota.
      destruct (supported_language source_lang && supported_language target_lang).
      * destruct Hp as [p ->].
        destruct (call_claude_vision img p api_key model) as [r tr]. eexists; reflexivity.
      * rewrite Hp. reflexivity.
    + change (str_eqb (py "openrouter") (py "claude")) with false.
      change (str_eqb (py "openrouter") (py "openrouter")) with true. cbv iota.
      destruct (supported_language source_lang && supported_language target_lang).
      * destruct Hp as [p ->].
        destruct (call_openrouter_vision img p api_key model) as [r tr].
        destruct r; try (eexists; reflexivity).
        destruct (call_ocr_openrouter img source_lang target_lang None model).
        eexists; reflexivity.
      * rewrite Hp. reflexivity.
  - intros ->.
    change (str_eqb (py "ocr_free") (py "claude")) with false.
    change (str_eqb (py "ocr_free") (py "openrouter")) with false.
    change (str_eqb (py "ocr_free") (py "ocr_free")) with true. cbv iota.
    destruct (call_ocr_openrouter img source_lang target_lang api_key model).
    eexists; reflexivity.
Qed.

Lemma unknown_language_fails_the_slide_witness :
  process_ppt_slide SLIDE_WIDTH (slide_of image_german) (py "de") (py "en")
    (py "claude") (Some (py "sk-ant")) None (py "claude-sonnet-4-20250514")
  = (Raise KeyError, []).
Proof.
  exact (proj1 (unknown_language_fails_the_slide SLIDE_WIDTH (slide_of image_german)
                  image_german (py "de") (py "en") (py "claude") (Some (py "sk-ant"))
                  None (py "claude-sonnet-4-20250514") eq_refl)
               (or_introl eq_refl)).
Defined.
(* --------------------------------------------------------------------- *)
(** ** Invariants of every run *)
(* --------------------------------------------------------------------- *)

Section RunInvariant.

Variable I : state -> Prop.
Variable p : run_params.

Hypothesis I_notify : forall args, preserves I (notify (progress_callback p) args).
Hypothesis I_skip : preserves I (modify_stats (add_counts 0 1 0)).
Hypothesis I_counter : forall st,
  I st -> I (mkState (st_stats st) (st_counter st + 1) (st_new_prs st)
               (st_calls st) (st_trace st)).
Hypothesis I_new_slide : forall sl st,
  I st -> I (mkState (st_stats st) (st_counter st) (st_new_prs st ++ [sl])
               (st_calls st) (st_trace st)).
Hypothesis I_calls : forall tr st,
  I st -> I (mkState (st_stats st) (st_counter st) (st_new_prs st)
               (st_calls st) (st_trace st ++ map Called tr)).
Hypothesis I_set_slide : forall sl st, I st -> I (set_new_slide sl st).
Hypothesis I_count : forall idx d, preserves I (count_processed p idx d).
Hypothesis I_failure : forall idx msg, preserves I (record_failure idx msg).

Lemma preserves_render (d : document) : preserves I (render_new_slide p d).
Proof.
  intros st H. unfold render_new_slide.
  destruct (apply_formatting_from_structure (last (st_new_prs st) [])
              (structure d) (base_font_size p) (str_eqb (provider p) (py "ocr_free")))
    as [sl [e|]]; cbn [snd]; now apply I_set_slide.
Qed.

Lemma preserves_add_new_slide (sl : slide) : preserves I (add_new_slide p sl).
Proof.
  intros st H. unfold add_new_slide.
  destruct (copy_image (prs_slide_width p) sl); cbn [snd];
    [apply I_set_slide|]; now apply I_new_slide.
Qed.

Lemma preserves_try_body (idx : nat) (sl : slide) : preserves I (try_body p idx sl).
Proof.
  unfold try_body.
  apply preserves_bind; [apply preserves_get | intros st0].
  apply preserves_bind; [apply I_notify | intros _].
  apply preserves_bind.
  - intros st H.
    destruct (process_ppt_slide (slide_width p) sl (source_lang p) (target_lang p)
                (provider p) (api_key p) (claude_api_key p) (model p)) as [r tr].
    cbn [snd]. now apply I_calls.
  - intros result. destruct (has_structure result) as [d|].
    + apply preserves_bind; [apply I_notify | intros _].
      apply preserves_bind; [apply preserves_render | intros _].
      apply preserves_bind; [apply I_count | intros _].
      apply preserves_bind; [|intros _; apply I_notify].
      destruct (str_eqb (provider p) (py "ocr_free")); [|apply preserves_ret].
      apply preserves_bind; [apply preserves_get | intros st'; apply I_notify].
    + apply preserves_bind; [apply I_failure | intros _; apply I_notify].
Qed.

Lemma preserves_on_exception (idx : nat) (e : exn) : preserves I (on_exception p idx e).
Proof.
  unfold on_exception.
  destruct (is_cancellation e); [apply preserves_raise|].
  apply preserves_bind; [apply preserves_get | intros st1].
  apply preserves_bind; [apply I_failure | intros _; apply I_notify].
Qed.

Lemma preserves_slide_step (idx : nat) (sl : slide) : preserves I (slide_step p idx sl).
Proof.
  unfold slide_step.
  destruct (negb (existsb (Nat.eqb idx) (selected_slides p))); [apply I_skip|].
  apply preserves_bind; [intros st H; now apply I_counter | intros _].
  apply preserves_bind; [apply preserves_get | intros st0].
  apply preserves_bind; [apply I_notify | intros _].
  destruct (has_image_on_left (slide_width p) sl) as [img|].
  - apply preserves_bind; [apply preserves_add_new_slide | intros _].
    apply preserves_try; [apply preserves_try_body | apply preserves_on_exception].
  - apply preserves_bind; [apply I_skip | intros _; apply I_notify].
Qed.

Lemma preserves_run (prs : list slide) :
  I (initial_state p prs) -> I (snd (create_translated_ppt p prs)).
Proof.
  intros H0. unfold create_translated_ppt.
  exact (preserves_loop I p prs preserves_slide_step 0%nat (initial_state p prs) H0).
Qed.

End RunInvariant.

Lemma progress_args_app (a b : list event) :
  progress_args (a ++ b) = progress_args a ++ progress_args b.
Proof. unfold progress_args. apply flat_map_app. Qed.

Lemma progress_args_calls (tr : list call) : progress_args (map Called tr) = [].
Proof. induction tr as [|c tr IH]; [reflexivity | exact IH]. Qed.



(** X22.  At the end of every run there is one warning for each slide
    counted failed, and [slide_methods] has one entry for each slide
    counted processed or failed. *)
Theorem failures_are_recorded (p : run_params) (prs : list slide) :
  let s := st_stats (snd (create_translated_ppt p prs)) in
  List.length (warnings s) = failed_slides s
  /\ List.length (slide_methods s) = (processed_slides s + failed_slides s)%nat.
Proof.
  cbv zeta. apply (preserves_run books_inv p); unfold books_inv.
  - intros args st H. destruct (progress_callback p) as [f|]; exact H.
  - intros st [H1 H2]. cbn. lia.
  - intros st H. exact H.
  - intros sl st H. exact H.
  - intros tr st H. exact H.
  - intros sl st H. exact H.
  - intros idx d st [H1 H2]. unfold count_processed.
    destruct (doc_usage d); cbn; rewrite length_app; cbn; lia.
  - intros idx msg st [H1 H2]. unfold record_failure. cbn.
    rewrite !length_app; cbn. lia.
  - cbn. split; reflexivity.
Qed.
(* --------------------------------------------------------------------- *)
(** ** How a run ends *)
(* --------------------------------------------------------------------- *)

Lemma ends_of_preserves {A} (I : state -> Prop) (m : M A) :
  preserves I m -> ends_in I m I (fun _ st => I st).
Proof.
  intros Hm st H. specialize (Hm st H).
  destruct (m st) as [[a|e] st']; exact Hm.
Qed.

Lemma ends_returns {A} (I : state -> Prop) (E : exn -> state -> Prop) (m : M A) :
  preserves I m -> (forall st, exists a, fst (m st) = Ok a) -> ends_in I m I E.
Proof.
  intros Hm Hok st H. specialize (Hm st H). destruct (Hok st) as [a Ha].
  destruct (m st) as [[a'|e] st']; [exact Hm | discriminate Ha].
Qed.

Lemma record_failure_returns (idx : nat) (msg : str) (st : state) :
  exists a, fst (record_failure idx msg st) = Ok a.
Proof. eexists; reflexivity. Qed.

Lemma count_processed_returns (p : run_params) (idx : nat) (d : document) (st : state) :
  exists a, fst (count_processed p idx d st) = Ok a.
Proof. unfold count_processed. destruct (doc_usage d); eexists; reflexivity. Qed.

Section RunEnds.

Variable J : state -> Prop.
Variable E : exn -> state -> Prop.
Variable p : run_params.

Hypothesis J_notify : forall args, ends_in J (notify (progress_callback p) args) J E.
Hypothesis J_skip : preserves J (modify_stats (add_counts 0 1 0)).
Hypothesis J_counter : forall st,
  J st -> J (mkState (st_stats st) (st_counter st + 1) (st_new_prs st)
               (st_calls st) (st_trace st)).
Hypothesis J_new_slide : forall sl st,
  J st -> J (mkState (st_stats st) (st_counter st) (st_new_prs st ++ [sl])
               (st_calls st) (st_trace st)).
Hypothesis J_calls : forall tr st,
  J st -> J (mkState (st_stats st) (st_counter st) (st_new_prs st)
               (st_calls st) (st_trace st ++ map Called tr)).
Hypothesis J_set_slide : forall sl st, J st -> J (set_new_slide sl st).
Hypothesis J_count : forall idx d, preserves J (count_processed p idx d).
Hypothesis J_failure : forall idx msg, preserves J (record_failure idx msg).
(** What reaches the handler of a slide without being a cancellation
    leaves a state the handler can go on from. *)
Hypothesis J_handled : forall e st, E e st -> is_cancellation e = false -> J st.

Lemma ends_try_body_in (idx : nat) (sl : slide) :
  ends_in J (try_body p idx sl) J (fun e st => E e st \/ J st).
Proof.
  unfold try_body.
  set (E' := fun (e : exn) (st : state) => E e st \/ J st).
  assert (Hn : forall args, ends_in J (notify (progress_callback p) args) J E').
  { intros args. apply (ends_weaken _ _ E); [apply J_notify | intros e st He; now left]. }
  apply (ends_bind _ J); [intros st H; exact H | intros st0].
  apply (ends_bind _ J); [apply Hn | intros _].
  apply (ends_bind _ J).
  - intros st H.
    destruct (process_ppt_slide (slide_width p) sl (source_lang p) (target_lang p)
                (provider p) (api_key p) (claude_api_key p) (model p)) as [[r|e] tr];
      [now apply J_calls | right; now apply J_calls].
  - intros result. destruct (has_structure result) as [d|].
    + apply (ends_bind _ J); [apply Hn | intros _].
      apply (ends_bind _ J);
        [apply ends_render; [apply J_set_slide | intros e st H; right; exact H]
        | intros _].
      apply (ends_bind _ J);
        [apply ends_returns; [apply J_count | apply count_processed_returns]
        | intros _].
      apply (ends_bind _ J); [|intros _; apply Hn].
      destruct (str_eqb (provider p) (py "ocr_free")); [|intros st H; exact H].
      apply (ends_bind _ J); [intros st H; exact H | intros st'; apply Hn].
    + apply (ends_bind _ J);
        [apply ends_returns; [apply J_failure | apply record_failure_returns]
        | intros _; apply Hn].
Qed.

(** A slide ends the run by a cancellation, by an exception of the
    callback, or by the exception of the copy of its picture, which is
    outside the [try]. *)
Lemma ends_slide_step_in (idx : nat) (sl : slide) :
  ends_in J (slide_step p idx sl) J
          (fun e st => is_cancellation e = true \/ E e st
                       \/ copy_image (prs_slide_width p) sl = Raise e).
Proof.
  unfold slide_step.
  set (E' := fun (e : exn) (st : state) =>
               is_cancellation e = true \/ E e st
               \/ copy_image (prs_slide_width p) sl = Raise e).
  assert (Hn : forall args, ends_in J (notify (progress_callback p) args) J E').
  { intros args. apply (ends_weaken _ _ E);
      [apply J_notify | intros e st He; right; now left]. }
  destruct (negb (existsb (Nat.eqb idx) (selected_slides p))).
  - apply ends_returns; [apply J_skip | intros st; eexists; reflexivity].
  - apply (ends_bind _ J); [intros st H; now apply J_counter | intros _].
    apply (ends_bind _ J); [intros st H; exact H | intros st0].
    apply (ends_bind _ J); [apply Hn | intros _].
    destruct (has_image_on_left (slide_width p) sl) as [img|].
    + apply (ends_bind _ J);
        [apply ends_add_new_slide;
           [intros x st H; now apply J_new_slide
           | intros e st He _; right; right; exact He]
        | intros _].
      apply (ends_try _ _ (fun e st => E e st \/ J st)); [apply ends_try_body_in|].
      intros e. unfold on_exception.
      destruct (is_cancellation e) eqn:He; [intros st _; left; exact He|].
      apply (ends_bind _ J).
      * intros st [H|H]; [exact (J_handled e st H He) | exact H].
      * intros st1.
        apply (ends_bind _ J);
          [apply ends_returns; [apply J_failure | apply record_failure_returns]
          | intros _; apply Hn].
    + apply (ends_bind _ J); [|intros _; apply Hn].
      apply ends_returns; [apply J_skip | intros st; eexists; reflexivity].
Qed.

Lemma ends_run (prs : list slide) :
  J (initial_state p prs) ->
  match create_translated_ppt p prs with
  | (Ok _, st) => J st
  | (Raise e, st) =>
      is_cancellation e = true \/ E e st
      \/ exists sl, In sl prs /\ copy_image (prs_slide_width p) sl = Raise e
  end.
Proof.
  intros H0. unfold create_translated_ppt.
  assert (Hloop : forall slides idx,
             ends_in J (slides_loop p idx slides) J
                     (fun e st =>
                        is_cancellation e = true \/ E e st
                        \/ exists sl, In sl slides
                                      /\ copy_image (prs_slide_width p) sl = Raise e)).
  { induction slides as [|sl rest IH]; intros idx; cbn [slides_loop].
    - intros st H; exact H.
    - apply (ends_bind _ J).
      + apply (ends_weaken _ _ _ _ _ (ends_slide_step_in idx sl)).
        intros e st [H|[H|H]]; [now left | right; now left|].
        right; right. exists sl. split; [now left | exact H].
      + intros _. apply (ends_weaken _ _ _ _ _ (IH (idx + 1)%nat)).
        intros e st [H|[H|[x [Hx H]]]]; [now left | right; now left|].
        right; right. exists x. split; [now right | exact H]. }
  exact (Hloop prs 0%nat (initial_state p prs) H0).
Qed.

End RunEnds.

(** X23.  With a progress callback that is absent or raises nothing but
    cancellations: a run that completes has every slide of the
    presentation in exactly one of the three counters; a run that does
    not complete was ended by a cancellation, or by the copy of the
    picture of one of the slides, which is made before the [try] of the
    slide and raises only when the first picture in the left half of
    the presentation width does not open.
    No failure of a provider, of the OCR or of the rendering of a slide
    ends the run. *)
Theorem run_ends_by_cancellation_only (p : run_params) (prs : list slide) :
  only_cancels (progress_callback p) ->
  (forall st, create_translated_ppt p prs = (Ok tt, st) ->
     (processed_slides (st_stats st) + skipped_slides (st_stats st)
      + failed_slides (st_stats st) = List.length prs)%nat
     /\ total_slides (st_stats st) = List.length prs)
  /\ (forall e st, create_translated_ppt p prs = (Raise e, st) ->
        is_cancellation e = true
        \/ exists sl, In sl prs /\ copy_image (prs_slide_width p) sl = Raise e)
  /\ (forall sl e, copy_image (prs_slide_width p) sl = Raise e ->
        e = COPY_ERROR
        /\ exists shape_left,
             List.find (fun sh => match sh with
                                  | Picture l _ => Z.ltb (2 * l) (prs_slide_width p)
                                  | _ => false
                                  end) sl = Some (Picture shape_left None)).
Proof.
  intros Hcb. split; [|split].
  - intros st Hrun. destruct (counters_add_up p prs st Hcb Hrun) as [H1 H2].
    split; [lia | exact H2].
  - intros e st Hrun.
    assert (H : match create_translated_ppt p prs with
                | (Ok _, st) => True
                | (Raise e, st) =>
                    is_cancellation e = true \/ is_cancellation e = true
                    \/ exists sl, In sl prs
                                  /\ copy_image (prs_slide_width p) sl = Raise e
                end).
    { apply (ends_run (fun _ => True) (fun e _ => is_cancellation e = true) p);
        try (unfold preserves; intros; exact I).
      intros args s0 _.
      destruct (progress_callback p) as [f|]; cbn; [|exact I].
      destruct (f (st_calls s0) args) as [[]|e0] eqn:Hf;
        [exact I | exact (Hcb _ _ _ Hf)]. }
    rewrite Hrun in H. destruct H as [H|[H|H]]; [now left | now left | now right].
  - intros sl e Hc. unfold copy_image in Hc.
    match type of Hc with
    | context [List.find ?g sl] => destruct (List.find g sl) as [sh|] eqn:Hfind
    end; [|discriminate].
    destruct sh as [l [img|] | tf]; try discriminate.
    + injection Hc as <-. split; [reflexivity|]. now exists l.
    + exfalso. apply find_some in Hfind. destruct Hfind as [_ Hf]. discriminate Hf.
Qed.

Lemma cb_cancels_second_only_cancels : only_cancels (Some cb_cancels_second).
Proof.
  intros k args e. unfold cb_cancels_second.
  destruct (Nat.eqb k 1); [|discriminate].
  intros H. injection H as <-. reflexivity.
Qed.

Lemma run_ends_by_cancellation_only_witness :
  fst (create_translated_ppt cancelled_run [slide_of image_claude_good])
  = Raise (OtherError (py "Translation cancelled by user"))
  /\ (is_cancellation (OtherError (py "Translation cancelled by user")) = true
      \/ exists sl,
           In sl [slide_of image_claude_good]
           /\ copy_image (prs_slide_width cancelled_run) sl
              = Raise (OtherError (py "Translation cancelled by user"))).
Proof.
  split; [vm_compute; reflexivity|].
  apply (proj1 (proj2 (run_ends_by_cancellation_only cancelled_run
                         [slide_of image_claude_good] cb_cancels_second_only_cancels))
               (OtherError (py "Translation cancelled by user"))
               (snd (create_translated_ppt cancelled_run [slide_of image_claude_good]))).
  vm_compute; reflexivity.
Defined.

(** A slide whose first picture on the left does not open and whose
    second does: [has_image_on_left] finds the second, the copy takes
    the first and raises, and the run ends there, with the empty new
    slide and no slide counted. *)
Example broken_picture_ends_the_run :
  let out := create_translated_ppt claude_run [broken_then_good] in
  has_image_on_left (slide_width claude_run) broken_then_good = Some image_claude_good
  /\ fst out = Raise COPY_ERROR
  /\ is_cancellation COPY_ERROR = false
  /\ st_new_prs (snd out) = [[]]
  /\ accounted (st_stats (snd out)) = 0%nat
  /\ st_trace (snd out) = [].
Proof. vm_compute. repeat split; reflexivity. Qed.

(** X24.  A cancellation is never swallowed: when a run completes, no
    call of the progress callback was answered by a cancellation (an
    exception whose text holds "cancelled by user", in any case);
    whichever call the callback answers so, inside or outside the
    handling of a slide, the run ends there.  Every call of the
    callback is in the trace. *)
Theorem cancellation_always_ends_the_run (p : run_params) (prs : list slide)
    (f : callback) (st : state) :
  progress_callback p = Some f ->
  create_translated_ppt p prs = (Ok tt, st) ->
  st_calls st = List.length (progress_args (st_trace st))
  /\ forall k args e,
       nth_error (progress_args (st_trace st)) k = Some args ->
       f k args = Raise e -> is_cancellation e = false.
Proof.
  intros Hf Hrun.
  assert (H : match create_translated_ppt p prs with
              | (Ok _, s0) => no_cancellation_seen f s0
              | (Raise e, s0) =>
                  is_cancellation e = true
                  \/ (is_cancellation e = true \/ no_cancellation_seen f s0)
                  \/ exists sl, In sl prs
                                /\ copy_image (prs_slide_width p) sl = Raise e
              end).
  { apply (ends_run (no_cancellation_seen f)
             (fun e s0 => is_cancellation e = true \/ no_cancellation_seen f s0) p);
      try (unfold preserves; intros;
           match goal with H : no_cancellation_seen _ _ |- _ => exact H end).
    - intros args s0 [Hc Hs]. rewrite Hf. cbn [notify].
      assert (Hnew : forall r,
                 f (st_calls s0) args = r ->
                 (forall e, r = Raise e -> is_cancellation e = false) ->
                 no_cancellation_seen f
                   (mkState (st_stats s0) (st_counter s0) (st_new_prs s0)
                      (S (st_calls s0)) (st_trace s0 ++ [EvProgress args]))).
      { intros r Hr Hno. unfold no_cancellation_seen; cbn [st_calls st_trace].
        rewrite progress_args_app. cbn. rewrite length_app. cbn. split; [lia|].
        intros k args' e Hk Hfe.
        destruct (Nat.lt_ge_cases k (List.length (progress_args (st_trace s0))))
          as [Hlt|Hge].
        - rewrite nth_error_app1 in Hk by exact Hlt. exact (Hs k args' e Hk Hfe).
        - rewrite nth_error_app2 in Hk by exact Hge.
          destruct (k - List.length (progress_args (st_trace s0)))%nat as [|j] eqn:Ej;
            [|destruct j; discriminate Hk].
          cbn in Hk. injection Hk as <-.
          assert (k = st_calls s0) by lia. subst k.
          apply Hno. congruence. }
      destruct (f (st_calls s0) args) as [[]|e] eqn:Hr.
      + apply (Hnew _ eq_refl). intros e He; discriminate He.
      + destruct (is_cancellation e) eqn:He; [left; reflexivity|].
        right. apply (Hnew _ eq_refl). intros e' He'. injection He' as <-. exact He.
    - intros tr s0 [Hc Hs]. unfold no_cancellation_seen; cbn [st_calls st_trace].
      rewrite progress_args_app, progress_args_calls, app_nil_r. now split.
    - intros idx d s0 [Hc Hs]. unfold count_processed.
      unfold no_cancellation_seen.
      destruct (doc_usage d); cbn; rewrite progress_args_app; cbn;
        rewrite app_nil_r; now split.
    - intros e s0 [He|H] Hne; [congruence | exact H].
    - split; [reflexivity|]. intros k args e Hk. destruct k; discriminate Hk. }
  rewrite Hrun in H. exact H.
Qed.

Lemma cancellation_always_ends_the_run_witness :
  st_calls (snd (create_translated_ppt locked_run [slide_of image_offline_only]))
  = List.length
      (progress_args
         (st_trace (snd (create_translated_ppt locked_run [slide_of image_offline_only]))))
  /\ forall k args e,
       nth_error
         (progress_args
            (st_trace (snd (create_translated_ppt locked_run
                              [slide_of image_offline_only])))) k = Some args ->
       cb_completed_fails k args = Raise e -> is_cancellation e = false.
Proof.
  apply (cancellation_always_ends_the_run locked_run [slide_of image_offline_only]
           cb_completed_fails
           (snd (create_translated_ppt locked_run [slide_of image_offline_only])));
    [reflexivity | vm_compute; reflexivity].
Defined.

Lemma set_new_slide_length (sl : slide) (st : state) :
  st_new_prs st <> [] ->
  List.length (st_new_prs (set_new_slide sl st)) = List.length (st_new_prs st).
Proof.
  intros Hne. unfold set_new_slide; cbn [st_new_prs].
  rewrite length_app, removelast_len. cbn.
  destruct (st_new_prs st); [now destruct Hne | cbn; lia].
Qed.

Lemma slides_so_far_step (p : run_params) (idx : nat) (sl : slide) (a b : nat) :
  ends_in (slides_so_far a b) (slide_step p idx sl)
          (slides_so_far (a + (if is_translated p idx sl then 0 else 1))
                         (b + (if is_translated p idx sl then 1 else 0)))
          (fun _ _ => True).
Proof.
  assert (Hinner : forall a b m,
            m = try_except (try_body p idx sl) (on_exception p idx) ->
            preserves (slides_so_far a (S b)) m).
  { intros a' b' m ->.
    apply preserves_try.
    - apply preserves_try_body.
      + intros args st H. destruct (progress_callback p); exact H.
      + intros tr st H. exact H.
      + intros x st [H1 H2]. split; [exact H1|].
        rewrite set_new_slide_length; [exact H2|].
        intros Hnil. rewrite Hnil in H2. discriminate H2.
      + intros i d st [H1 H2]. unfold count_processed.
        destruct (doc_usage d); (split; cbn; [lia | exact H2]).
      + intros i msg st [H1 H2]. split; cbn; [lia | exact H2].
    - intros e. apply preserves_on_exception.
      + intros args st H. destruct (progress_callback p); exact H.
      + intros i msg st [H1 H2]. split; cbn; [lia | exact H2]. }
  assert (Hn : forall a b args,
            ends_in (slides_so_far a b) (notify (progress_callback p) args)
                    (slides_so_far a b) (fun _ _ => True)).
  { intros a' b' args st H. destruct (progress_callback p) as [f|]; cbn; [|exact H].
    destruct (f (st_calls st) args); [exact H | exact I]. }
  unfold slide_step, is_translated.
  destruct (existsb (Nat.eqb idx) (selected_slides p)); cbn [negb andb].
  - apply (ends_bind _ (slides_so_far a b)); [intros st H; exact H | intros _].
    apply (ends_bind _ (slides_so_far a b)); [intros st H; exact H | intros st0].
    apply (ends_bind _ (slides_so_far a b)); [apply Hn | intros _].
    destruct (has_image_on_left (slide_width p) sl) as [img|].
    + replace (b + 1)%nat with (S b) by lia.
      apply (ends_bind _ (slides_so_far (a + 0) (S b))).
      * intros st [H1 H2]. unfold add_new_slide.
        destruct (copy_image (prs_slide_width p) sl); [|exact I].
        unfold set_new_slide; cbn [st_stats st_counter st_new_prs st_calls st_trace].
        rewrite removelast_last.
        split; cbn; [lia|]. rewrite length_app; cbn. lia.
      * intros _. apply (ends_weaken _ _ (fun _ st => slides_so_far (a + 0) (S b) st));
          [|intros; exact I].
        apply ends_of_preserves. now apply Hinner.
    + apply (ends_bind _ (slides_so_far (a + 1) (b + 0))); [|intros _; apply Hn].
      intros st [H1 H2]. split; cbn; lia.
  - intros st [H1 H2]. split; cbn; lia.
Qed.

(** X25.  When a run completes, whatever the callback did, the new
    presentation has one slide for each slide of the input that is
    selected and has a picture on the left, translated or failed, and
    every other slide of the input was counted skipped. *)
Theorem output_has_the_translated_slides (p : run_params) (prs : list slide)
    (st : state) :
  create_translated_ppt p prs = (Ok tt, st) ->
  List.length (st_new_prs st) = translated_count p 0 prs
  /\ (skipped_slides (st_stats st) + translated_count p 0 prs = List.length prs)%nat.
Proof.
  intros Hrun.
  assert (Hloop : forall slides idx a b,
            ends_in (slides_so_far a b) (slides_loop p idx slides)
                    (slides_so_far
                       (a + (List.length slides - translated_count p idx slides))
                       (b + translated_count p idx slides))
                    (fun _ _ => True)
            /\ (translated_count p idx slides <= List.length slides)%nat).
  { induction slides as [|sl rest IH]; intros idx a b; cbn [slides_loop translated_count].
    - split; [|cbn; lia]. intros st0 [H1 H2]. split; cbn; lia.
    - destruct (IH (idx + 1)%nat
                  (a + (if is_translated p idx sl then 0 else 1))%nat
                  (b + (if is_translated p idx sl then 1 else 0))%nat) as [IH1 IH2].
      split; [|cbn [List.length]; destruct (is_translated p idx sl); lia].
      apply (ends_bind _ (slides_so_far
                            (a + (if is_translated p idx sl then 0 else 1))
                            (b + (if is_translated p idx sl then 1 else 0))));
        [apply slides_so_far_step | intros _].
      intros st0 H0. specialize (IH1 st0 H0).
      destruct (slides_loop p (idx + 1) rest st0) as [[[]|e] st1]; [|exact I].
      destruct IH1 as [H1 H2]. cbn [List.length].
      split; destruct (is_translated p idx sl); lia. }
  destruct (Hloop prs 0%nat 0%nat 0%nat) as [H Hle].
  specialize (H (initial_state p prs)).
  unfold create_translated_ppt in Hrun. rewrite Hrun in H.
  destruct H as [H1 H2]; [split; reflexivity|].
  split; lia.
Qed.

Lemma output_has_the_translated_slides_witness :
  List.length (st_new_prs (snd (create_translated_ppt claude_run claude_slides)))
  = translated_count claude_run 0 claude_slides
  /\ (skipped_slides (st_stats (snd (create_translated_ppt claude_run claude_slides)))
      + translated_count claude_run 0 claude_slides = List.length claude_slides)%nat.
Proof.
  apply (output_has_the_translated_slides claude_run claude_slides
           (snd (create_translated_ppt claude_run claude_slides))).
  vm_compute; reflexivity.
Defined.
(* --------------------------------------------------------------------- *)
(** ** The language detected for the preview *)
(* --------------------------------------------------------------------- *)

Lemma detect_language_from_image_some (detect : str -> option str) (img : image)
    (l : str) :
  fst (detect_language_from_image detect img) = Some l ->
  supported_language l = true
  /\ detect (fst (ocr_extract_text img (py "es"))) = Some l
  /\ (20 <= List.length (fst (ocr_extract_text img (py "es"))))%nat.
Proof.
  unfold detect_language_from_image.
  pose proof (ocr_extract_text_stripped img (py "es")) as Hs.
  destruct (ocr_extract_text img (py "es")) as [text tr]. cbn [fst] in *.
  rewrite Hs.
  destruct (nonempty text); cbn [negb orb]; [|discriminate].
  destruct (Nat.ltb (List.length text) 20) eqn:Hlen; [discriminate|].
  apply Nat.ltb_ge in Hlen.
  destruct (detect text) as [lang|]; [|discriminate].
  destruct (existsb (str_eqb lang) DETECTED) eqn:Hin; [|discriminate].
  cbn [fst]. intros H. injection H as <-.
  split; [|split; [reflexivity | exact Hlen]].
  unfold supported_language. unfold DETECTED in Hin. cbn [existsb] in *.
  destruct (str_eqb lang (py "es")), (str_eqb lang (py "fr")),
           (str_eqb lang (py "it")), (str_eqb lang (py "en"));
    try reflexivity; discriminate Hin.
Qed.

Lemma detect_language_from_image_calls (detect : str -> option str) (img : image) :
  snd (detect_language_from_image detect img) = [EvTesseract].
Proof.
  unfold detect_language_from_image.
  pose proof (ocr_extract_text_trace img (py "es")) as Htr.
  destruct (ocr_extract_text img (py "es")) as [text tr]. cbn [snd] in Htr. subst tr.
  destruct (negb (nonempty text) || Nat.ltb (List.length (strip text)) 20);
    [reflexivity|].
  destruct (detect text) as [lang|]; [|reflexivity].
  destruct (existsb (str_eqb lang) DETECTED); reflexivity.
Qed.

(** X26.  A language [detect_language_from_presentation] reports is one
    of the four the prompt builders know (so a prompt for it never
    fails on the source language); it is what the detector answered
    for the OCR text, at least twenty characters long, of the picture
    of a selected slide; and the function calls nothing but
    tesseract. *)
Theorem detected_language_is_supported (detect : str -> option str)
    (slide_width : Z) (prs : list slide) (selected_slides : list nat) :
  let out := detect_language_from_presentation detect slide_width prs selected_slides in
  (forall l, fst out = Some l ->
     supported_language l = true
     /\ exists idx sl img,
          nth_error prs idx = Some sl
          /\ In idx selected_slides
          /\ has_image_on_left slide_width sl = Some img
          /\ detect (fst (ocr_extract_text img (py "es"))) = Some l
          /\ (20 <= List.length (fst (ocr_extract_text img (py "es"))))%nat)
  /\ Forall (fun c => c = EvTesseract) (snd out).
Proof.
  cbv zeta. unfold detect_language_from_presentation.
  assert (Hgen : forall slides idx,
            (forall l, fst (detect_from detect slide_width selected_slides idx slides)
                       = Some l ->
               supported_language l = true
               /\ exists k sl img,
                    nth_error slides k = Some sl
                    /\ In (idx + k)%nat selected_slides
                    /\ has_image_on_left slide_width sl = Some img
                    /\ detect (fst (ocr_extract_text img (py "es"))) = Some l
                    /\ (20 <= List.length (fst (ocr_extract_text img (py "es"))))%nat)
            /\ Forall (fun c => c = EvTesseract)
                 (snd (detect_from detect slide_width selected_slides idx slides))).
  { induction slides as [|sl rest IH]; intros idx; cbn [detect_from].
    - split; [discriminate | constructor].
    - destruct (IH (idx + 1)%nat) as [IH1 IH2].
      assert (Hnext : forall l,
                fst (detect_from detect slide_width selected_slides (idx + 1) rest)
                = Some l ->
                supported_language l = true
                /\ exists k sl0 img,
                     nth_error (sl :: rest) k = Some sl0
                     /\ In (idx + k)%nat selected_slides
                     /\ has_image_on_left slide_width sl0 = Some img
                     /\ detect (fst (ocr_extract_text img (py "es"))) = Some l
                     /\ (20 <= List.length (fst (ocr_extract_text img (py "es"))))%nat).
      { intros l Hl. destruct (IH1 l Hl) as [Hsup [k [sl0 [img [Hk [Hin H]]]]]].
        split; [exact Hsup|]. exists (S k), sl0, img. split; [exact Hk|].
        split; [|exact H]. replace (idx + S k)%nat with (idx + 1 + k)%nat by lia.
        exact Hin. }
      destruct (existsb (Nat.eqb idx) selected_slides) eqn:Hsel; cbn [negb];
        [|split; [exact Hnext | exact IH2]].
      destruct (has_image_on_left slide_width sl) as [img|] eqn:Himg;
        [|split; [exact Hnext | exact IH2]].
      pose proof (detect_language_from_image_some detect img) as Hsome.
      pose proof (detect_language_from_image_calls detect img) as Hcalls.
      destruct (detect_language_from_image detect img) as [lang tr].
      cbn [fst snd] in Hsome, Hcalls. subst tr.
      destruct (truthy lang) eqn:Ht.
      + cbn [fst snd]. split; [|repeat constructor].
        intros l ->. destruct (Hsome l eq_refl) as [Hsup H].
        split; [exact Hsup|]. exists 0%nat, sl, img.
        split; [reflexivity|]. split; [|split; [exact Himg | exact H]].
        rewrite Nat.add_0_r. apply existsb_exists in Hsel.
        destruct Hsel as [x [Hx Hxe]]. apply Nat.eqb_eq in Hxe. now subst x.
      + destruct (detect_from detect slide_width selected_slides (idx + 1) rest)
          as [found tr']. cbn [fst snd] in *.
        split; [exact Hnext|]. constructor; [reflexivity | exact IH2]. }
  destruct (Hgen prs 0%nat) as [H1 H2]. split; [|exact H2].
  intros l Hl. destruct (H1 l Hl) as [Hsup [k [sl [img H]]]].
  split; [exact Hsup|]. exists k, sl, img. exact H.
Qed.
(* --------------------------------------------------------------------- *)
(** ** Repairing twice *)
(* --------------------------------------------------------------------- *)

Lemma repair_result (text r : str) :
  _repair_truncated_json text = Some r ->
  let candidate := cut_at_last_boundary (strip text) in
  r = candidate ++ closers_of (stack (walk candidate))
  /\ exists c rest, rev candidate = c :: rest /\ is_boundary c = true.
Proof.
  intros Hr candidate.
  destruct (cut_at_last_boundary_spec (strip text)) as [Hsplit Hlast].
  fold candidate in Hsplit, Hlast.
  unfold _repair_truncated_json in Hr. fold candidate in Hr.
  destruct (negb (nonempty (strip text))); [discriminate|].
  assert (Hne : candidate <> []) by (intros E; rewrite E in Hr; discriminate).
  destruct (Hlast Hne) as [c [rest [Hrev Hc]]].
  destruct (boundary_not_stripped c Hc) as [Hsp [Hcomma Hbs]].
  assert (Hkeep : rstrip (rstrip_chars (py ",") (rstrip candidate)) = candidate).
  { unfold rstrip, rstrip_chars.
    rewrite (rstrip_by_fixed isspace candidate) by (rewrite Hrev; exact Hsp).
    rewrite (rstrip_by_fixed (fun c => mem c (py ",")) candidate)
      by (rewrite Hrev; exact Hcomma).
    apply rstrip_by_fixed. rewrite Hrev; exact Hsp. }
  split; [|exists c, rest; now split].
  destruct candidate as [|x cand] eqn:Hx; [now destruct Hne|].
  rewrite <- Hx in *.
  destruct (stack (walk candidate)) as [|o stk] eqn:Hstk.
  - rewrite Hx in Hr. injection Hr as <-. unfold closers_of; simpl.
    now rewrite app_nil_r.
  - rewrite Hx in Hr. rewrite <- Hx in Hr. rewrite Hkeep in Hr.
    now injection Hr as <-.
Qed.

Lemma closing_is_boundary (o : char) : is_boundary (closing o) = true.
Proof. unfold closing. destruct (N.eqb o OPEN_BRACKET); reflexivity. Qed.

(** X27.  When the answer is cut outside a string, repairing the
    repaired text changes nothing: the text [_repair_truncated_json]
    returns is a fixed point of the function. *)
Theorem repair_is_idempotent_outside_strings (text r : str) :
  _repair_truncated_json text = Some r ->
  in_string (walk (cut_at_last_boundary (strip text))) = false ->
  _repair_truncated_json r = Some r.
Proof.
  intros Hr Hin.
  destruct (repair_result text r Hr) as [Hres [c [rest [Hrev Hc]]]].
  set (candidate := cut_at_last_boundary (strip text)) in *.
  set (st := walk candidate) in *.
  (* the walk of the result is balanced *)
  assert (Hcand : candidate = rev rest ++ [c]).
  { rewrite <- (rev_involutive candidate), Hrev. reflexivity. }
  assert (Hwalk : walk r = mkWalk [] false false).
  { rewrite Hres, walk_app. fold st.
    assert (Hesc : escape_next st = false).
    { unfold st. rewrite Hcand. apply walk_last_not_backslash.
      now destruct (boundary_not_stripped c Hc) as [_ [_ H]]. }
    assert (Hopen : Forall is_open (stack st)).
    { unfold st, walk. apply walk_from_opens. constructor. }
    destruct st as [stk ins esc]. simpl in *. subst ins esc.
    now apply closers_empty_stack. }
  (* the last character of the result is a boundary *)
  assert (Hlast : exists b tail, rev r = b :: tail /\ is_boundary b = true).
  { rewrite Hres, rev_app_distr. unfold closers_of. rewrite <- map_rev, rev_involutive.
    destruct (stack st) as [|o stk]; cbn [map app].
    - exists c, rest. now split.
    - eexists _, _. split; [reflexivity | apply closing_is_boundary]. }
  destruct Hlast as [b [tail [Hrevr Hb]]].
  (* the first character of the result is not a space *)
  assert (Hfirst : exists x cand, candidate = x :: cand /\ isspace x = false).
  { destruct (cut_at_last_boundary_spec (strip text)) as [[dropped [Hsplit _]] _].
    fold candidate in Hsplit.
    destruct candidate as [|x cand] eqn:Hx; [discriminate Hrev|].
    exists x, cand. split; [reflexivity|].
    apply (strip_head_not_space text x (cand ++ dropped)). exact Hsplit. }
  destruct Hfirst as [x [cand [Hx Hxs]]].
  assert (Hstrip : strip r = r).
  { unfold strip, lstrip, lstrip_by.
    rewrite (dropwhile_fixed isspace r) by (rewrite Hres, Hx; exact Hxs).
    apply rstrip_by_fixed. rewrite Hrevr.
    now destruct (boundary_not_stripped b Hb) as [H _]. }
  assert (Hcut : cut_at_last_boundary r = r).
  { unfold cut_at_last_boundary. rewrite Hrevr. cbn [dropwhile]. rewrite Hb.
    cbn [negb]. rewrite <- Hrevr. apply rev_involutive. }
  unfold _repair_truncated_json. rewrite Hstrip, Hcut, Hwalk.
  rewrite Hres, Hx. reflexivity.
Qed.

Lemma repair_is_idempotent_outside_strings_witness :
  _repair_truncated_json closed_between_blocks = Some closed_between_blocks.
Proof.
  apply (repair_is_idempotent_outside_strings cut_between_blocks closed_between_blocks);
    vm_compute; reflexivity.
Defined.
(* --------------------------------------------------------------------- *)
(** ** The offline translation, line by line *)
(* --------------------------------------------------------------------- *)

Lemma rmap_raises {A B} (f : A -> res B) (l : list A) (a : A) (e : exn) :
  In a l -> f a = Raise e -> exists e', rmap f l = Raise e'.
Proof.
  induction l as [|x l IH]; intros Hin Hf; [destruct Hin|].
  cbn [rmap]. destruct (f x) as [b|e0] eqn:Hx; cbn [rbind]; [|eauto].
  destruct Hin as [-> | Hin]; [congruence|].
  destruct (IH Hin Hf) as [e' ->]. cbn [rbind]. eauto.
Qed.

(** X28.  [translate_offline] works line by line.  Without a
    translator it returns [None].  With one, a text it returns has one
    line for each line of the input, in order: a blank line is not
    given to the translator and comes back empty, any other line comes
    back as the translator renders it; and when the translator fails
    on one line that is not blank, the whole text is lost: the function
    returns [None]. *)
Theorem offline_translation_is_line_by_line (img : image) (text : str) :
  match offline_line img with
  | None => translate_offline img text = None
  | Some translate_line =>
      (forall t, translate_offline img text = Some t ->
         exists out,
           t = join [NL] out
           /\ Forall2 (fun line o =>
                         if nonempty (strip line) then translate_line line = Ok o
                         else o = [])
                      (splitlines text) out)
      /\ (forall line e,
            In line (splitlines text) -> nonempty (strip line) = true ->
            translate_line line = Raise e ->
            translate_offline img text = None)
  end.
Proof.
  unfold translate_offline.
  destruct (offline_line img) as [translate_line|]; [|reflexivity].
  split.
  - intros t Ht.
    destruct (rmap (fun line => if negb (nonempty (strip line)) then Ok []
                                else translate_line line) (splitlines text))
      as [out|e] eqn:Hr; [|discriminate].
    injection Ht as <-. exists out. split; [reflexivity|].
    apply rmap_Forall2 in Hr.
    eapply Forall2_impl; [|exact Hr].
    intros line o. cbv beta. destruct (nonempty (strip line)); cbn [negb].
    + auto.
    + intros H. now injection H as <-.
  - intros line e Hin Hne Hfail.
    destruct (rmap_raises
                (fun line => if negb (nonempty (strip line)) then Ok []
                             else translate_line line)
                (splitlines text) line e Hin) as [e' ->]; [|reflexivity].
    cbv beta. rewrite Hne. exact Hfail.
Qed.
